(** * Adaptive cache, burst mode, reconciliation loop and watch session

    A shallow embedding of [api_manager.py] (the classes
    [SmartCacheManager] and [OptimizedAPIManager]), [sheets/taken.py] (the
    extraction queue) and [core.py] (tracked-record storage, the discovery
    and diff steps of [continuous_monitor], and [wait_for_status_change]),
    followed by the properties of the specification that concern them and
    by further properties of the code.

    Conventions.
    - A [datetime] is the number of microseconds since the epoch, in [Z];
      [(a - b).total_seconds() < s] for an integer number of seconds [s] is
      the comparison [a - b < s * 10^6].  A [datetime.now()] whose value
      is stored or decides a branch is an explicit clock reading; one that
      only feeds the text of a message is not taken.
    - A record of the remote source is a Python [dict]; it is a [gmap] from
      field names to values.
    - The JSON files ([monitored_accounts.json], [data/Taken.json],
      [data/pending.json]) are fields of the [World] the code of [core.py]
      runs in; reading and writing them is assumed to succeed.
    - The [logger] calls of [core.py] and [sheets/taken.py] are recorded
      as a list of log records; the rendered text of progress and
      notification messages is not modelled.
    - A session or a turn of the monitor is followed on its own: what other
      coroutines do to the shared state at an [await] is not modelled. *)

From Stdlib Require Import ZArith Ascii String List.
From stdpp Require Import gmap strings list pretty.

Open Scope Z_scope.

(** ** Python values and builtins *)

Module py.

(** The scalar values a decoded JSON cell or a function argument can be. *)
Inductive PyVal :=
| VNone
| VBool (b : bool)
| VInt (n : Z)
| VStr (s : string).

#[export] Instance PyVal_eq_dec : EqDecision PyVal.
Proof. solve_decision. Defined.

(** [str(v)]. *)
Definition py_str (v : PyVal) : string :=
  match v with
  | VNone => "None"
  | VBool true => "True"
  | VBool false => "False"
  | VInt n => pretty n
  | VStr s => s
  end.

(** Truth value of a [str]. *)
Definition str_truthy (s : string) : bool := negb (String.eqb s "").

(** Truth value of a [dict]. *)
Definition dict_truthy {V} (d : gmap string V) : bool := bool_decide (d ≠ ∅).

(** [d.get(k, default)]. *)
Definition get {V} (d : gmap string V) (k : string) (default : V) : V :=
  match d !! k with Some v => v | None => default end.

(** [s.replace(a, b)] for one-character [a] and [b]. *)
Fixpoint replace_char (a b : ascii) (s : string) : string :=
  match s with
  | EmptyString => EmptyString
  | String c s' => String (if Ascii.eqb c a then b else c) (replace_char a b s')
  end.

(** The builtins whose full definition lies outside the repository:
    [str.upper] and the test [float(s) > 0], which answers [None] when
    [float(s)] raises [ValueError]. *)
Class Builtins := {
  upper : string → string;
  float_positive : string → option bool;
}.

(** *** A reference implementation of the builtins on ASCII text *)

Definition ascii_upper_char (c : ascii) : ascii :=
  let n := nat_of_ascii c in
  if ((97 <=? n) && (n <=? 122))%nat then ascii_of_nat (n - 32) else c.

Fixpoint ascii_upper (s : string) : string :=
  match s with
  | EmptyString => EmptyString
  | String c s' => String (ascii_upper_char c) (ascii_upper s')
  end.

Definition is_space (c : ascii) : bool :=
  let n := nat_of_ascii c in
  (((9 <=? n) && (n <=? 13)) || ((28 <=? n) && (n <=? 32)))%nat.

Definition is_digit (c : ascii) : bool :=
  let n := nat_of_ascii c in ((48 <=? n) && (n <=? 57))%nat.

Definition digit_val (c : ascii) : Z := Z.of_nat (nat_of_ascii c) - 48.

Fixpoint lstrip (l : list ascii) : list ascii :=
  match l with
  | c :: l' => if is_space c then lstrip l' else l
  | [] => []
  end.

Definition strip (l : list ascii) : list ascii := rev (lstrip (rev (lstrip l))).

(** [digitpart ::= digit (["_"] digit)*]: reads the longest digit part at
    the head of [l], continuing the value [acc] and the count [n] of digits;
    answers the value, the count and the rest. *)
Fixpoint digitpart_from (acc : Z) (n : Z) (l : list ascii) : Z * Z * list ascii :=
  match l with
  | c :: l' =>
      if is_digit c then digitpart_from (acc * 10 + digit_val c) (n + 1) l'
      else if Ascii.eqb c "_" then
        match l' with
        | d :: _ => if is_digit d then digitpart_from acc n l' else (acc, n, l)
        | [] => (acc, n, l)
        end
      else (acc, n, l)
  | [] => (acc, n, l)
  end.

(** [None] when [l] does not start with a digit. *)
Definition digitpart (acc : Z) (l : list ascii) : option (Z * Z * list ascii) :=
  match l with
  | c :: _ => if is_digit c then Some (digitpart_from acc 0 l) else None
  | [] => None
  end.

Definition read_sign (l : list ascii) : bool * list ascii :=
  match l with
  | c :: l' =>
      if Ascii.eqb c "-" then (true, l')
      else if Ascii.eqb c "+" then (false, l') else (false, l)
  | [] => (false, l)
  end.

(** [exponent ::= ("e" | "E") [sign] digitpart], or nothing. *)
Definition read_exponent (l : list ascii) : option Z :=
  match l with
  | [] => Some 0
  | c :: l' =>
      if Ascii.eqb c "e" || Ascii.eqb c "E" then
        let '(neg, l'') := read_sign l' in
        match digitpart 0 l'' with
        | Some (e, _, []) => Some (if neg then - e else e)
        | _ => None
        end
      else None
  end.

(** [number ::= [digitpart] "." digitpart | digitpart ["."]] followed by an
    optional exponent: the decimal value is [m * 10 ^ e]. *)
Definition read_number (l : list ascii) : option (Z * Z) :=
  match digitpart 0 l with
  | Some (m, _, rest) =>
      match rest with
      | c :: rest' =>
          if Ascii.eqb c "." then
            match digitpart m rest' with
            | Some (m', k, rest'') =>
                e ← read_exponent rest''; Some (m', e - k)
            | None => e ← read_exponent rest'; Some (m, e)
            end
          else e ← read_exponent rest; Some (m, e)
      | [] => Some (m, 0)
      end
  | None =>
      match l with
      | c :: rest' =>
          if Ascii.eqb c "." then
            '(m', k, rest'') ← digitpart 0 rest';
            e ← read_exponent rest''; Some (m', e - k)
          else None
      | [] => None
      end
  end.

(** A positive decimal [m * 10 ^ e] is a positive double unless it rounds
    to zero, which round-half-even does up to [2 ^ -1075] included. *)
Definition rounds_above_zero (m e : Z) : bool :=
  if 0 <=? e then 0 <? m else 10 ^ (- e) <? m * 2 ^ 1075.

Definition ascii_float_positive (s : string) : option bool :=
  let '(neg, body) := read_sign (strip (list_ascii_of_string s)) in
  let word := ascii_upper (string_of_list_ascii body) in
  if bool_decide (word = "INF") || bool_decide (word = "INFINITY") then Some (negb neg)
  else if bool_decide (word = "NAN") then Some false
  else '(m, e) ← read_number body; Some (negb neg && rounds_above_zero m e).

Definition ascii_builtins : Builtins :=
  {| upper := ascii_upper; float_positive := ascii_float_positive |}.

(** Truth value of a scalar. *)
Definition py_truthy (v : PyVal) : bool :=
  match v with
  | VNone => false
  | VBool b => b
  | VInt n => negb (n =? 0)
  | VStr s => str_truthy s
  end.

(** [str.lower] and [str.strip], whose definition lies outside the
    repository as well. *)
Class StrMethods := {
  lower : string → string;
  str_strip : string → string;
}.

Definition ascii_lower_char (c : ascii) : ascii :=
  let n := nat_of_ascii c in
  if ((65 <=? n) && (n <=? 90))%nat then ascii_of_nat (n + 32) else c.

Fixpoint ascii_lower (s : string) : string :=
  match s with
  | EmptyString => EmptyString
  | String c s' => String (ascii_lower_char c) (ascii_lower s')
  end.

Definition ascii_strip (s : string) : string :=
  string_of_list_ascii (strip (list_ascii_of_string s)).

Definition ascii_str_methods : StrMethods :=
  {| lower := ascii_lower; str_strip := ascii_strip |}.

End py.

(** ** [config.py] *)

Module config.

Definition CACHE_TTL_MIN : Z := 60.
Definition CACHE_TTL_NORMAL : Z := 90.
Definition CACHE_TTL_MAX : Z := 120.
Definition BURST_MODE_DURATION : Z := 60.
Definition CSRF_TOKEN_TTL : Z := 1200.

Definition TRANSITIONAL_STATUSES : list string :=
  ["LOGGING"; "LOGGED"; "LOGGED IN"; "WAITING"; "NEW ACCOUNT"].

Definition FINAL_STATUSES : list string :=
  ["AVAILABLE"; "ACTIVE"; "WRONG DETAILS"; "BACKUP CODE WRONG"; "CODE SENT";
   "DISABLED"; "NO TRANSFER ACCESS"; "TRANSFER LIST IS FULL"; "NO CLUB";
   "GENERAL LOGIN ERROR"; "ERROR"; "BLOCKED"; "AMOUNT TAKEN"].

End config.

(** ** [stats.py] *)

Module stats.

Record RequestStats := {
  total_requests : Z;
  csrf_refreshes : Z;
  batch_fetches : Z;
  cache_hits : Z;
  errors : Z;
  fast_detections : Z;
  burst_activations : Z;
  adaptive_adjustments : Z;
}.

Definition bump_burst_activations (s : RequestStats) : RequestStats :=
  {| total_requests := total_requests s; csrf_refreshes := csrf_refreshes s;
     batch_fetches := batch_fetches s; cache_hits := cache_hits s;
     errors := errors s; fast_detections := fast_detections s;
     burst_activations := burst_activations s + 1;
     adaptive_adjustments := adaptive_adjustments s |}.

Definition bump_adaptive_adjustments (s : RequestStats) : RequestStats :=
  {| total_requests := total_requests s; csrf_refreshes := csrf_refreshes s;
     batch_fetches := batch_fetches s; cache_hits := cache_hits s;
     errors := errors s; fast_detections := fast_detections s;
     burst_activations := burst_activations s;
     adaptive_adjustments := adaptive_adjustments s + 1 |}.

Definition bump_fast_detections (s : RequestStats) : RequestStats :=
  {| total_requests := total_requests s; csrf_refreshes := csrf_refreshes s;
     batch_fetches := batch_fetches s; cache_hits := cache_hits s;
     errors := errors s; fast_detections := fast_detections s + 1;
     burst_activations := burst_activations s;
     adaptive_adjustments := adaptive_adjustments s |}.

Definition zero : RequestStats :=
  {| total_requests := 0; csrf_refreshes := 0; batch_fetches := 0;
     cache_hits := 0; errors := 0; fast_detections := 0;
     burst_activations := 0; adaptive_adjustments := 0 |}.

Definition bump_total_requests (s : RequestStats) : RequestStats :=
  {| total_requests := total_requests s + 1; csrf_refreshes := csrf_refreshes s;
     batch_fetches := batch_fetches s; cache_hits := cache_hits s;
     errors := errors s; fast_detections := fast_detections s;
     burst_activations := burst_activations s;
     adaptive_adjustments := adaptive_adjustments s |}.

Definition bump_csrf_refreshes (s : RequestStats) : RequestStats :=
  {| total_requests := total_requests s; csrf_refreshes := csrf_refreshes s + 1;
     batch_fetches := batch_fetches s; cache_hits := cache_hits s;
     errors := errors s; fast_detections := fast_detections s;
     burst_activations := burst_activations s;
     adaptive_adjustments := adaptive_adjustments s |}.

Definition bump_batch_fetches (s : RequestStats) : RequestStats :=
  {| total_requests := total_requests s; csrf_refreshes := csrf_refreshes s;
     batch_fetches := batch_fetches s + 1; cache_hits := cache_hits s;
     errors := errors s; fast_detections := fast_detections s;
     burst_activations := burst_activations s;
     adaptive_adjustments := adaptive_adjustments s |}.

Definition bump_cache_hits (s : RequestStats) : RequestStats :=
  {| total_requests := total_requests s; csrf_refreshes := csrf_refreshes s;
     batch_fetches := batch_fetches s; cache_hits := cache_hits s + 1;
     errors := errors s; fast_detections := fast_detections s;
     burst_activations := burst_activations s;
     adaptive_adjustments := adaptive_adjustments s |}.

Definition bump_errors (s : RequestStats) : RequestStats :=
  {| total_requests := total_requests s; csrf_refreshes := csrf_refreshes s;
     batch_fetches := batch_fetches s; cache_hits := cache_hits s;
     errors := errors s + 1; fast_detections := fast_detections s;
     burst_activations := burst_activations s;
     adaptive_adjustments := adaptive_adjustments s |}.

End stats.

(** ** [api_manager.py]: [SmartCacheManager] *)

Module api_manager.
Import py config stats.

Definition Time := Z.

(** [(d).total_seconds() < s] and [>= s] for a difference [d] of two
    clock readings and a whole number of seconds [s]. *)
Definition seconds_lt (d : Z) (s : Z) : bool := d <? s * 1000000.
Definition seconds_ge (d : Z) (s : Z) : bool := s * 1000000 <=? d.

Abbreviation Account := (gmap string PyVal).

Record SmartCacheManager := {
  cache : option (list Account);
  cache_timestamp : option Time;
  cache_ttl : Z;
  burst_mode_active : bool;
  burst_mode_started : option Time;
  last_changes_count : Z;
  consecutive_quiet_cycles : Z;
  last_successful_cache : option (list Account);
  last_successful_timestamp : option Time;
  burst_targets : gset string;
}.

(** [SmartCacheManager.__init__]. *)
Definition init : SmartCacheManager :=
  {| cache := None; cache_timestamp := None; cache_ttl := CACHE_TTL_NORMAL;
     burst_mode_active := false; burst_mode_started := None;
     last_changes_count := 0; consecutive_quiet_cycles := 0;
     last_successful_cache := None; last_successful_timestamp := None;
     burst_targets := ∅ |}.

Definition set_snapshot (c : option (list Account)) (t : option Time)
    (self : SmartCacheManager) : SmartCacheManager :=
  {| cache := c; cache_timestamp := t; cache_ttl := cache_ttl self;
     burst_mode_active := burst_mode_active self;
     burst_mode_started := burst_mode_started self;
     last_changes_count := last_changes_count self;
     consecutive_quiet_cycles := consecutive_quiet_cycles self;
     last_successful_cache := last_successful_cache self;
     last_successful_timestamp := last_successful_timestamp self;
     burst_targets := burst_targets self |}.

Definition set_last_successful (c : option (list Account)) (t : option Time)
    (self : SmartCacheManager) : SmartCacheManager :=
  {| cache := cache self; cache_timestamp := cache_timestamp self;
     cache_ttl := cache_ttl self;
     burst_mode_active := burst_mode_active self;
     burst_mode_started := burst_mode_started self;
     last_changes_count := last_changes_count self;
     consecutive_quiet_cycles := consecutive_quiet_cycles self;
     last_successful_cache := c; last_successful_timestamp := t;
     burst_targets := burst_targets self |}.

Definition set_burst (active : bool) (started : option Time) (targets : gset string)
    (self : SmartCacheManager) : SmartCacheManager :=
  {| cache := cache self; cache_timestamp := cache_timestamp self;
     cache_ttl := cache_ttl self;
     burst_mode_active := active; burst_mode_started := started;
     last_changes_count := last_changes_count self;
     consecutive_quiet_cycles := consecutive_quiet_cycles self;
     last_successful_cache := last_successful_cache self;
     last_successful_timestamp := last_successful_timestamp self;
     burst_targets := targets |}.

Definition set_ttl (ttl : Z) (quiet : Z) (self : SmartCacheManager) : SmartCacheManager :=
  {| cache := cache self; cache_timestamp := cache_timestamp self;
     cache_ttl := ttl;
     burst_mode_active := burst_mode_active self;
     burst_mode_started := burst_mode_started self;
     last_changes_count := last_changes_count self;
     consecutive_quiet_cycles := quiet;
     last_successful_cache := last_successful_cache self;
     last_successful_timestamp := last_successful_timestamp self;
     burst_targets := burst_targets self |}.

(** [is_cache_valid], with the reading [now] of the clock. *)
Definition is_cache_valid (now : Time) (self : SmartCacheManager) : bool :=
  match cache self, cache_timestamp self with
  | Some _, Some ts =>
      if burst_mode_active self then false
      else seconds_lt (now - ts) (cache_ttl self)
  | _, _ => false
  end.

(** [activate_burst_mode]; the global [stats] is threaded through. *)
Definition activate_burst_mode (now : Time) (account_id : string)
    (self : SmartCacheManager) (st : RequestStats) : SmartCacheManager * RequestStats :=
  let '(self1, st1) :=
    if negb (burst_mode_active self)
    then (set_burst true (Some now) (burst_targets self) self, bump_burst_activations st)
    else (self, st) in
  (set_burst (burst_mode_active self1) (burst_mode_started self1)
     ({[account_id]} ∪ burst_targets self1) self1, st1).

(** [check_burst_mode]; [None] is the [TypeError] of subtracting [None]
    from a [datetime], when the flag is set without a start time. *)
Definition check_burst_mode (now : Time) (self : SmartCacheManager)
    : option SmartCacheManager :=
  if negb (burst_mode_active self) then Some self
  else match burst_mode_started self with
       | None => None
       | Some started =>
           if seconds_ge (now - started) BURST_MODE_DURATION
           then Some (set_burst false None ∅ self)
           else Some self
       end.

(** [adjust_ttl]. *)
Definition adjust_ttl (changes_detected : Z) (self : SmartCacheManager)
    (st : RequestStats) : SmartCacheManager * RequestStats :=
  let old_ttl := cache_ttl self in
  let self1 :=
    if 5 <=? changes_detected then set_ttl CACHE_TTL_MIN 0 self
    else if 2 <=? changes_detected then set_ttl CACHE_TTL_NORMAL 0 self
    else
      let quiet := consecutive_quiet_cycles self + 1 in
      if 3 <=? quiet then set_ttl CACHE_TTL_MAX quiet self
      else set_ttl (cache_ttl self) quiet self in
  (self1, if bool_decide (old_ttl ≠ cache_ttl self1)
          then bump_adaptive_adjustments st else st).

(** Successive calls of [adjust_ttl], one per cycle. *)
Fixpoint adjust_ttl_run (changes : list Z) (self : SmartCacheManager)
    (st : RequestStats) : SmartCacheManager * RequestStats :=
  match changes with
  | [] => (self, st)
  | c :: rest =>
      let '(self', st') := adjust_ttl c self st in adjust_ttl_run rest self' st'
  end.

(** Truth value of an optional list: [None] and [[]] are false. *)
Definition list_truthy {A} (l : option (list A)) : bool :=
  match l with Some (_ :: _) => true | _ => false end.

(** [update_cache]; [now1] and [now2] are the two successive clock
    readings of the successful branch. *)
Definition update_cache (new_data : list Account) (success : bool)
    (now1 now2 : Time) (self : SmartCacheManager) : SmartCacheManager :=
  if success then
    set_last_successful (Some new_data) (Some now2)
      (set_snapshot (Some new_data) (Some now1) self)
  else if list_truthy (last_successful_cache self) then
    set_snapshot (last_successful_cache self) (last_successful_timestamp self) self
  else self.

Definition get_cache (self : SmartCacheManager) : option (list Account) :=
  cache self.

(** The text the scan compares: [str(account.get("idAccount", ""))]. *)
Definition id_text (account : Account) : string :=
  py_str (get account "idAccount" (VStr "")).

(** [get_account_by_id]: the [for] loop returning at the first match. *)
Fixpoint scan_by_id (account_id : PyVal) (accounts : list Account) : option Account :=
  match accounts with
  | [] => None
  | account :: rest =>
      if bool_decide (id_text account = py_str account_id) then Some account
      else scan_by_id account_id rest
  end.

Definition get_account_by_id (account_id : PyVal) (self : SmartCacheManager)
    : option Account :=
  if negb (list_truthy (cache self)) then None
  else match cache self with
       | Some accounts => scan_by_id account_id accounts
       | None => None
       end.

(** The cache invalidation of [OptimizedAPIManager.add_sender] on success:
    [smart_cache.cache = None; smart_cache.cache_timestamp = None]. *)
Definition invalidate (self : SmartCacheManager) : SmartCacheManager :=
  set_snapshot None None self.

Section ByEmail.
Context {methods : StrMethods}.

(** [account.get("Sender", "").lower()]; [None] is the [AttributeError]
    of a value that is not a [str]. *)
Definition sender_lower (account : Account) : option string :=
  match get account "Sender" (VStr "") with
  | VStr s => Some (lower s)
  | _ => None
  end.

(** The loop of [get_account_by_email], returning at the first match;
    [None] when it raises. *)
Fixpoint scan_by_email (email : string) (accounts : list Account)
    : option (option Account) :=
  match accounts with
  | [] => Some None
  | account :: rest =>
      match sender_lower account with
      | None => None
      | Some sender =>
          if bool_decide (sender = email) then Some (Some account)
          else scan_by_email email rest
      end
  end.

(** [get_account_by_email]; the outer [None] is the exception. *)
Definition get_account_by_email (email : string) (self : SmartCacheManager)
    : option (option Account) :=
  if negb (list_truthy (cache self)) then Some None
  else
    let email := str_strip (lower email) in
    match cache self with
    | Some accounts => scan_by_email email accounts
    | None => Some None
    end.

(** The record has a [Sender] that is a [str] and whose lower-cased text
    is not the one looked for. *)
Definition other_sender (wanted : string) (account : Account) : Prop :=
  ∃ s, get account "Sender" (VStr "") = VStr s ∧ lower s ≠ wanted.

End ByEmail.

(** *** Notions used in the statements *)

(** The flag is never set without a start time: [__init__] establishes it
    and every method keeps it. *)
Definition burst_consistent (self : SmartCacheManager) : Prop :=
  burst_mode_active self = true → is_Some (burst_mode_started self).

(** The burst state once the expiry check has fired. *)
Definition expired (self : SmartCacheManager) : SmartCacheManager :=
  set_burst false None ∅ self.

(** The burst state once a session has ended on [account_id]: the flag is
    off and the identifier is out of the targets. *)
Definition cancelled (account_id : string) (self : SmartCacheManager)
    : SmartCacheManager :=
  set_burst false (burst_mode_started self) (burst_targets self ∖ {[account_id]}) self.

End api_manager.

(** ** [logging]: the records the modelled code emits *)

Module logging.

Inductive Level := INFO | WARNING | ERROR.

(** One constructor per [logger] call of [sheets/taken.py] and [core.py]
    that the model takes, with the values the message interpolates. *)
Inductive Message :=
| TakenQueued (email account_id status taken : string)
| AccountAdded (email account_id source : string)
| AccountIdNotFound (account_id : string)
| PendingAdded (email account_id : string)
| AutoMonitored (email : string)
| NotInBatch (account_id : string)
| StatusChanged (email last_status current_status : string)
| TakenDetected (current_status email taken : string)
| InvalidTaken (email taken : string)
| NeedsAttention (email current_status : string)
| TransferListFull (email : string)
| ErrorChecking
| SkipNotification (email : string)
| NotificationFailed
| LookingFor (email : string)
| FoundAccount (email account_id : string)
| StartingBurst (email account_id : string)
| Disappeared (account_id : string)
| StatusSeen (email status : string)
| FastDetection (last_status status : string)
| Stable (email status : string)
| MonitoringError (attempt : nat)
| TimedOut (email : string) (last_status : option string).

Definition LogRecord : Type := Level * Message.

End logging.

(** ** [sheets/taken.py]: the extraction queue *)

Module taken.
Import logging.

(** An item of [data/Taken.json], as [add_to_taken_queue] writes it. *)
Record TakenItem := {
  id : string;
  email : string;
  status : string;
  taken : string;
  added_at : Z;
}.

#[export] Instance TakenItem_eq_dec : EqDecision TakenItem.
Proof. solve_decision. Defined.

(** [add_to_taken_queue] on the content [items] of the file, with the
    clock reading [now]: the new content, the record logged and the value
    returned. *)
Definition add_to_taken_queue (now : Z) (account_id email status taken_value : string)
    (items : list TakenItem) : list TakenItem * LogRecord * bool :=
  let items := filter (λ item, id item ≠ account_id) items in
  let new_item :=
    {| id := account_id; email := email; status := status;
       taken := taken_value; added_at := now |} in
  (items ++ [new_item], (INFO, TakenQueued email account_id status taken_value), true).

(** [clear_taken_entry]. *)
Definition clear_taken_entry (account_id : string) (items : list TakenItem)
    : list TakenItem * bool :=
  let items' := filter (λ item, id item ≠ account_id) items in
  if (length items' <? length items)%nat then (items', true) else (items, false).

(** The identifiers queued, in order. *)
Definition ids (items : list TakenItem) : list string := map id items.

End taken.

(** ** [core.py] *)

Module core.
Import py config stats logging.

Abbreviation Time := Z (only parsing).

(** A record as [fetch_all_accounts_batch] hands it to [core.py]: its
    parsing step stores [str(cell)] or [""] under each field name, so every
    value is a [str]. *)
Abbreviation AccountInfo := (gmap string string).

(** An entry of [monitored_accounts.json], as [add_monitored_account]
    writes it. *)
Record Tracked := {
  email : string;
  account_id : string;
  last_known_status : string;
  chat_id : Z;
  source : string;
  added_at : Time;
  last_check : Time;
}.

#[export] Instance Tracked_eq_dec : EqDecision Tracked.
Proof. solve_decision. Defined.

(** A Python [dict] with [str] keys, in insertion order. *)
Abbreviation Dict V := (list (string * V)).

(** [d[k] = v]: the value is replaced where the key stands, or the pair
    is appended. *)
Fixpoint dict_set {V} (k : string) (v : V) (d : Dict V) : Dict V :=
  match d with
  | [] => [(k, v)]
  | (k', v') :: d' =>
      if bool_decide (k' = k) then (k, v) :: d' else (k', v') :: dict_set k v d'
  end.

(** [d.get(k)]. *)
Fixpoint dict_get {V} (k : string) (d : Dict V) : option V :=
  match d with
  | [] => None
  | (k', v') :: d' => if bool_decide (k' = k) then Some v' else dict_get k d'
  end.

(** An item of [data/pending.json]. *)
Record PendingItem := {
  p_email : string;
  p_id : string;
  p_added_at : Time;
}.

(** What [send_status_notification] hands to [telegram_bot.send_message]. *)
Record Notification := {
  n_chat_id : Z;
  n_email : string;
  n_account_id : string;
  n_old_status : string;
  n_new_status : string;
  n_source : string;
}.

#[export] Instance Notification_eq_dec : EqDecision Notification.
Proof. solve_decision. Defined.

(** The state the functions of [core.py] act on: the global [smart_cache]
    and [stats], the three JSON files, the log, the messages delivered by
    Telegram, and the number of clock readings taken so far. *)
Record World := {
  smart_cache : api_manager.SmartCacheManager;
  request_stats : RequestStats;
  monitored_accounts : Dict Tracked;
  taken_queue : list taken.TakenItem;
  pending_queue : list PendingItem;
  log : list LogRecord;
  outbox : list Notification;
  ticks : nat;
}.

(** What the code does not decide: the successive readings of the clock,
    and whether the [n]-th [send_message] raises. *)
Class Environment := {
  clock : nat → Time;
  send_message_fails : nat → bool;
}.

Definition set_smart_cache (c : api_manager.SmartCacheManager) (st : RequestStats)
    (w : World) : World :=
  {| smart_cache := c; request_stats := st;
     monitored_accounts := monitored_accounts w; taken_queue := taken_queue w;
     pending_queue := pending_queue w; log := log w; outbox := outbox w;
     ticks := ticks w |}.

Definition save_monitored_accounts (accounts : Dict Tracked) (w : World) : World :=
  {| smart_cache := smart_cache w; request_stats := request_stats w;
     monitored_accounts := accounts; taken_queue := taken_queue w;
     pending_queue := pending_queue w; log := log w; outbox := outbox w;
     ticks := ticks w |}.

Definition load_monitored_accounts (w : World) : Dict Tracked :=
  monitored_accounts w.

Definition save_taken_queue (items : list taken.TakenItem) (w : World) : World :=
  {| smart_cache := smart_cache w; request_stats := request_stats w;
     monitored_accounts := monitored_accounts w; taken_queue := items;
     pending_queue := pending_queue w; log := log w; outbox := outbox w;
     ticks := ticks w |}.

Definition save_pending_queue (items : list PendingItem) (w : World) : World :=
  {| smart_cache := smart_cache w; request_stats := request_stats w;
     monitored_accounts := monitored_accounts w; taken_queue := taken_queue w;
     pending_queue := items; log := log w; outbox := outbox w;
     ticks := ticks w |}.

(** [logger.<level>(...)]: the record is appended to the log. *)
Definition logger (l : Level) (m : Message) (w : World) : World :=
  {| smart_cache := smart_cache w; request_stats := request_stats w;
     monitored_accounts := monitored_accounts w; taken_queue := taken_queue w;
     pending_queue := pending_queue w; log := log w ++ [(l, m)];
     outbox := outbox w; ticks := ticks w |}.

Definition deliver (n : Notification) (w : World) : World :=
  {| smart_cache := smart_cache w; request_stats := request_stats w;
     monitored_accounts := monitored_accounts w; taken_queue := taken_queue w;
     pending_queue := pending_queue w; log := log w;
     outbox := outbox w ++ [n]; ticks := ticks w |}.

Definition tick (w : World) : World :=
  {| smart_cache := smart_cache w; request_stats := request_stats w;
     monitored_accounts := monitored_accounts w; taken_queue := taken_queue w;
     pending_queue := pending_queue w; log := log w; outbox := outbox w;
     ticks := S (ticks w) |}.

(** What a call to a collaborator ends with. *)
Inductive Outcome (A : Type) :=
| Raises
| Returns (a : A).
Arguments Raises {A}.
Arguments Returns {A} a.

Section Core.
Context {builtins : Builtins} {env : Environment}.

(** [datetime.now()]. *)
Definition now (w : World) : Time * World := (clock (ticks w), tick w).

(** [add_monitored_account]. *)
Definition add_monitored_account (email account_id status : string) (chat_id : Z)
    (source : string) (w : World) : World :=
  let accounts := load_monitored_accounts w in
  let key := account_id +:+ "_" +:+ email in
  let '(t1, w) := now w in
  let '(t2, w) := now w in
  let accounts :=
    dict_set key
      {| email := email; account_id := account_id; last_known_status := status;
         chat_id := chat_id; source := source; added_at := t1; last_check := t2 |}
      accounts in
  let w := save_monitored_accounts accounts w in
  logger INFO (AccountAdded email account_id source) w.

(** The loop of [update_monitored_account_status]: the first entry whose
    [account_id] is the one looked for gets the status and the check time;
    [None] when no entry has it. *)
Fixpoint update_first (account_id new_status : string) (t : Time)
    (accounts : Dict Tracked) : option (Dict Tracked) :=
  match accounts with
  | [] => None
  | (key, data) :: rest =>
      if bool_decide (core.account_id data = account_id) then
        Some ((key, {| email := email data; account_id := core.account_id data;
                       last_known_status := new_status; chat_id := chat_id data;
                       source := source data; added_at := added_at data;
                       last_check := t |}) :: rest)
      else cons (key, data) <$> update_first account_id new_status t rest
  end.

(** [update_monitored_account_status]. *)
Definition update_monitored_account_status (account_id new_status : string)
    (w : World) : World :=
  let accounts := load_monitored_accounts w in
  match update_first account_id new_status (clock (ticks w)) accounts with
  | Some accounts' => save_monitored_accounts accounts' (tick w)
  | None => logger WARNING (AccountIdNotFound account_id) w
  end.

(** [add_to_pending_queue_immediately]. *)
Definition add_to_pending_queue_immediately (email account_id : string)
    (w : World) : World :=
  let data := pending_queue w in
  let '(t, w) := now w in
  let w := save_pending_queue
             (data ++ [{| p_email := email; p_id := account_id; p_added_at := t |}]) w in
  logger INFO (PendingAdded email account_id) w.

(** [sheets.taken.add_to_taken_queue], on the file of the world. *)
Definition add_to_taken_queue (account_id email status taken_value : string)
    (w : World) : bool * World :=
  let items := taken_queue w in
  let '(t, w) := now w in
  let '(items', record, result) :=
    taken.add_to_taken_queue t account_id email status taken_value items in
  (result, logger record.1 record.2 (save_taken_queue items' w)).

(** [send_status_notification]; of the text only the values it is built
    from are kept. *)
Definition send_status_notification (email account_id old_status new_status : string)
    (chat_id : Z) (source : string) (w : World) : World :=
  if chat_id =? 0 then logger INFO (SkipNotification email) w
  else
    if send_message_fails (length (outbox w)) then logger ERROR NotificationFailed w
    else deliver {| n_chat_id := chat_id; n_email := email;
                    n_account_id := account_id; n_old_status := old_status;
                    n_new_status := new_status; n_source := source |} w.

(** *** [continuous_monitor]: one turn of the loop *)

Inductive Exn := ValueError | TypeError | OtherError.

(** Computations over a state [S] that may raise; the state reached when
    the exception is raised is kept, as Python keeps mutations and locals. *)
Definition M (S A : Type) : Type := S → (Exn + A) * S.

#[export] Instance M_ret {S} : MRet (M S) := λ A a s, (inr a, s).

#[export] Instance M_bind {S} : MBind (M S) := λ A B f m s,
  match m s with
  | (inl e, s') => (inl e, s')
  | (inr a, s') => f a s'
  end.

Definition raise {S A} (e : Exn) : M S A := λ s, (inl e, s).

(** [try: body except (ValueError, TypeError): handler]. *)
Definition try_except_value_type {S A} (body handler : M S A) : M S A := λ s,
  match body s with
  | (inl ValueError, s') | (inl TypeError, s') => handler s'
  | r => r
  end.

(** [try: body except Exception: handler]. *)
Definition try_except {S A} (body handler : M S A) : M S A := λ s,
  match body s with
  | (inl _, s') => handler s'
  | r => r
  end.

(** The state of the loop over the tracked entries: the local
    [changes_detected] and the world. *)
Abbreviation Loop := (Z * World)%type.

Definition on_world (f : World → World) : M Loop unit :=
  λ '(changes, w), (inr (), (changes, f w)).

Definition count_change : M Loop unit :=
  λ '(changes, w), (inr (), (changes + 1, w)).

(** [float(taken_value) > 0]. *)
Definition float_gt_zero {S} (taken_value : string) : M S bool :=
  match float_positive taken_value with
  | Some b => mret b
  | None => raise ValueError
  end.

(** The dictionary comprehension [accounts_by_id]. *)
Definition index_by_id (all_accounts : list AccountInfo) : gmap string AccountInfo :=
  foldl (λ m acc,
           match acc !! "idAccount" with
           | Some i => if str_truthy i then <[i := acc]> m else m
           | None => m
           end) ∅ all_accounts.

(** The set comprehension [existing_ids]. *)
Definition existing_ids (accounts : Dict Tracked) : gset string :=
  list_to_set (filter (λ i, str_truthy i = true) (map (λ kd, account_id kd.2) accounts)).

(** [default_chat_id or 0]. *)
Definition chat_or_zero (default_chat_id : option Z) : Z :=
  match default_chat_id with Some c => c | None => 0 end.

(** The body of the auto-discovery loop, on its locals [existing_ids] and
    [auto_added] and the world. *)
Definition discover_step (default_group_name : string) (default_chat_id : option Z)
    (st : gset string * bool * World) (account : AccountInfo)
    : gset string * bool * World :=
  let '(existing, auto_added, w) := st in
  match account !! "idAccount" with
  | None => st
  | Some account_id =>
      if negb (str_truthy account_id)
         || bool_decide (account_id ∈ existing)
         || bool_decide (upper (get account "Status" "") ≠ "AVAILABLE")
         || bool_decide (get account "Group" "" ≠ default_group_name)
      then st
      else
        let email := get account "Sender" "" in
        let chat_id := chat_or_zero default_chat_id in
        let w := add_monitored_account email account_id "AVAILABLE" chat_id "manual" w in
        ({[account_id]} ∪ existing, true, logger INFO (AutoMonitored email) w)
  end.

Definition auto_discovery (default_group_name : string) (default_chat_id : option Z)
    (all_accounts : list AccountInfo) (w : World) : gset string * bool * World :=
  foldl (discover_step default_group_name default_chat_id)
        (existing_ids (load_monitored_accounts w), false, w) all_accounts.

(** The [try] block around [float(taken_value)]. *)
Definition enqueue_taken (current_status email account_id : string)
    (account_info : AccountInfo) : M Loop unit :=
  if bool_decide (current_status ∈ ["AMOUNT TAKEN"; "DISABLED"]) then
    let taken_value := get account_info "Taken" "0" in
    try_except_value_type
      (positive ← float_gt_zero taken_value;
       if positive : bool then
         on_world (logger INFO (TakenDetected current_status email taken_value));;
         let status_normalized := replace_char " " "_" current_status in
         on_world (λ w, (add_to_taken_queue account_id email status_normalized
                           taken_value w).2)
       else mret ())
      (on_world (logger WARNING (InvalidTaken email taken_value)))
  else mret ().

(** The body of the [try] of the loop over [accounts.items()]. *)
Definition check_account (accounts_by_id : gmap string AccountInfo)
    (data : Tracked) : M Loop unit :=
  let account_id := account_id data in
  if negb (str_truthy account_id) then mret ()
  else
    match accounts_by_id !! account_id with
    | None => on_world (logger WARNING (NotInBatch account_id))
    | Some account_info =>
        if negb (dict_truthy account_info)
        then on_world (logger WARNING (NotInBatch account_id))
        else
          let current_status := upper (get account_info "Status" "غير محدد") in
          let last_status := upper (last_known_status data) in
          if bool_decide (current_status ≠ last_status) then
            count_change;;
            let email := email data in
            on_world (logger INFO (StatusChanged email last_status current_status));;
            enqueue_taken current_status email account_id account_info;;
            (if bool_decide (current_status ∈ ["BACKUP CODE WRONG"; "WRONG DETAILS"])
             then on_world (logger WARNING (NeedsAttention email current_status))
             else if bool_decide (current_status = "TRANSFER LIST IS FULL")
             then on_world (logger INFO (TransferListFull email))
             else mret ());;
            on_world (update_monitored_account_status account_id current_status);;
            on_world (send_status_notification email account_id last_status
                        current_status (chat_id data) (source data))
          else
            on_world (update_monitored_account_status account_id current_status)
    end.

(** One iteration of the loop over the tracked entries, with its
    [except Exception]. *)
Definition check_step (accounts_by_id : gmap string AccountInfo) (st : Loop)
    (kd : string * Tracked) : Loop :=
  (try_except (check_account accounts_by_id kd.2)
              (on_world (logger ERROR ErrorChecking)) st).2.

(** One turn of the [while True] of [continuous_monitor], given the batch
    [all_accounts] that [fetch_all_accounts_batch] returned; the sleep that
    ends the turn is not modelled. *)
Definition monitor_cycle (default_group_name : string) (default_chat_id : option Z)
    (all_accounts : list AccountInfo) (w : World) : World :=
  let accounts := load_monitored_accounts w in
  let accounts_by_id := index_by_id all_accounts in
  let '(_, auto_added, w) :=
    auto_discovery default_group_name default_chat_id all_accounts w in
  let accounts := if auto_added : bool then load_monitored_accounts w else accounts in
  match accounts with
  | [] => w
  | _ =>
      let '(changes_detected, w) := foldl (check_step accounts_by_id) (0, w) accounts in
      let '(c, st) :=
        api_manager.adjust_ttl changes_detected (smart_cache w) (request_stats w) in
      set_smart_cache c st w
  end.

(** *** [wait_for_status_change] *)

(** The collaborators handed to a session, by attempt number: the answers
    of [api_manager.search_sender_by_email] in the initial search and of
    [api_manager.search_sender_by_id] in the burst monitoring, and whether
    the [message_obj.edit_text] of that attempt raises.  A lookup is taken
    by its answer only: the snapshot of the cache and the request counters
    that it may rewrite on the way, which [OptimizedAPIManager] below
    follows, are not followed through a session.  The burst flag, the start
    time and the targets, the tracked accounts and the queues, which are
    what the statements on sessions read, are written by no lookup. *)
Record Collaborators := {
  search_sender_by_email : nat → Outcome (option AccountInfo);
  search_sender_by_id : nat → Outcome (option AccountInfo);
  edit_text_initial : nat → Outcome unit;
  edit_text : nat → Outcome unit;
}.

(** Truth value of an [Optional[Dict]]. *)
Definition info_truthy (account_info : option AccountInfo) : bool :=
  match account_info with
  | Some info => dict_truthy info
  | None => false
  end.

Definition with_cache (f : api_manager.SmartCacheManager → api_manager.SmartCacheManager)
    (w : World) : World :=
  set_smart_cache (f (smart_cache w)) (request_stats w) w.

(** [smart_cache.activate_burst_mode(account_id)]; the clock is read only
    when the burst is not active yet. *)
Definition activate_burst_mode (account_id : string) (w : World) : World :=
  let '(t, w) :=
    if api_manager.burst_mode_active (smart_cache w) then (0, w) else now w in
  let '(c, st) :=
    api_manager.activate_burst_mode t account_id (smart_cache w) (request_stats w) in
  set_smart_cache c st w.

(** [smart_cache.check_burst_mode()]; [None] when it raises. *)
Definition check_burst_mode (w : World) : option World :=
  if negb (api_manager.burst_mode_active (smart_cache w)) then Some w
  else
    let '(t, w) := now w in
    c ← api_manager.check_burst_mode t (smart_cache w);
    Some (set_smart_cache c (request_stats w) w).

(** [smart_cache.burst_mode_active = False]. *)
Definition deactivate_burst (w : World) : World :=
  with_cache (λ c, api_manager.set_burst false (api_manager.burst_mode_started c)
                     (api_manager.burst_targets c) c) w.

(** [smart_cache.burst_targets.discard(account_id)]. *)
Definition discard_target (account_id : string) (w : World) : World :=
  with_cache (λ c, api_manager.set_burst (api_manager.burst_mode_active c)
                     (api_manager.burst_mode_started c)
                     (api_manager.burst_targets c ∖ {[account_id]}) c) w.

Definition count_fast_detection (w : World) : World :=
  set_smart_cache (smart_cache w) (bump_fast_detections (request_stats w)) w.

(** What the initial search ends with. *)
Inductive Search :=
| SearchRaised
| NotFound
| Found (account_id : string) (account_info : AccountInfo).

(** The loop [for initial_attempt in range(1, 15)], from attempt
    [attempt] on with [fuel] attempts left. *)
Fixpoint initial_search (c : Collaborators) (email : string) (fuel attempt : nat)
    (w : World) : Search * World :=
  match fuel with
  | O => (NotFound, w)
  | S fuel' =>
      match search_sender_by_email c attempt with
      | Raises => (SearchRaised, w)
      | Returns account_info =>
          let account_id :=
            if info_truthy account_info
            then info ← account_info; info !! "idAccount"
            else None in
          match account_info, account_id with
          | Some info, Some account_id =>
              if str_truthy account_id then
                let w := logger INFO (FoundAccount email account_id) w in
                let w := activate_burst_mode account_id w in
                let w := add_to_pending_queue_immediately email account_id w in
                (Found account_id info, w)
              else
                match edit_text_initial c attempt with
                | Raises => (SearchRaised, w)
                | Returns _ => initial_search c email fuel' (S attempt) w
                end
          | _, _ =>
              match edit_text_initial c attempt with
              | Raises => (SearchRaised, w)
              | Returns _ => initial_search c email fuel' (S attempt) w
              end
          end
      end
  end.

(** The locals of the burst monitoring that outlive an attempt. *)
Record Locals := {
  last_status : option string;
  account_info : option AccountInfo;
}.

(** The admission to the monitoring that ends a session: only an
    [AVAILABLE] account of the default group is added. *)
Definition monitor_if_admissible (email account_id status : string) (info : AccountInfo)
    (chat_id : Z) (default_group_name : string) (w : World) : World :=
  if bool_decide (status = "AVAILABLE") then
    if bool_decide (get info "Group" "" = default_group_name)
    then add_monitored_account email account_id status chat_id "bot" w
    else w
  else w.

(** The body of [for attempt in range(1, max_attempts + 1)]: the value
    returned, if the attempt returns, the locals and the world. *)
Definition burst_attempt (c : Collaborators) (email account_id : string)
    (chat_id : Z) (default_group_name : string) (attempt : nat)
    (loc : Locals) (w : World)
    : option (bool * option AccountInfo) * Locals * World :=
  match check_burst_mode w with
  | None => (None, loc, logger ERROR (MonitoringError attempt) w)
  | Some w =>
      match search_sender_by_id c attempt with
      | Raises => (None, loc, logger ERROR (MonitoringError attempt) w)
      | Returns account_info =>
          let loc := {| last_status := last_status loc; account_info := account_info |} in
          match account_info with
          | Some info =>
              if negb (dict_truthy info)
              then (None, loc, logger WARNING (Disappeared account_id) w)
              else
                let status := upper (get info "Status" "غير محدد") in
                let '(loc, w) :=
                  if bool_decide (Some status ≠ last_status loc) then
                    let w := logger INFO (StatusSeen email status) w in
                    let w :=
                      match last_status loc with
                      | Some last =>
                          if str_truthy last && bool_decide (status ∈ FINAL_STATUSES)
                          then logger INFO (FastDetection last status)
                                 (count_fast_detection w)
                          else w
                      | None => w
                      end in
                    ({| last_status := Some status; account_info := account_info |}, w)
                  else (loc, w) in
                let is_final := bool_decide (status ∈ FINAL_STATUSES) in
                match edit_text c attempt with
                | Raises => (None, loc, logger ERROR (MonitoringError attempt) w)
                | Returns _ =>
                    if is_final then
                      let w := logger INFO (Stable email status) w in
                      let w := monitor_if_admissible email account_id status info chat_id
                                 default_group_name w in
                      let w := deactivate_burst w in
                      let w := discard_target account_id w in
                      (Some (true, Some info), loc, w)
                    else (None, loc, w)
                end
          | None => (None, loc, logger WARNING (Disappeared account_id) w)
          end
      end
  end.

(** The loop over the attempts, from [attempt] on with [fuel] attempts
    left; [None] when the attempts run out. *)
Fixpoint burst_loop (c : Collaborators) (email account_id : string)
    (chat_id : Z) (default_group_name : string) (fuel attempt : nat)
    (loc : Locals) (w : World)
    : option (bool * option AccountInfo) * Locals * World :=
  match fuel with
  | O => (None, loc, w)
  | S fuel' =>
      match burst_attempt c email account_id chat_id default_group_name attempt loc w with
      | (Some r, loc, w) => (Some r, loc, w)
      | (None, loc, w) =>
          burst_loop c email account_id chat_id default_group_name fuel' (S attempt) loc w
      end
  end.

(** The code after the loop. *)
Definition timed_out (email account_id : string) (chat_id : Z)
    (default_group_name : string) (loc : Locals) (w : World)
    : (bool * option AccountInfo) * World :=
  let w := logger WARNING (TimedOut email (last_status loc)) w in
  let w := deactivate_burst w in
  let w := if str_truthy account_id then discard_target account_id w else w in
  match account_info loc with
  | Some info =>
      if dict_truthy info then
        let status := upper (get info "Status" "") in
        ((true, Some info),
         monitor_if_admissible email account_id status info chat_id default_group_name w)
      else ((false, None), w)
  | None => ((false, None), w)
  end.

Definition max_attempts : nat := 40.

(** The second step of [wait_for_status_change], entered with the
    identifier and the record that the initial search found. *)
Definition burst_monitoring (c : Collaborators) (email account_id : string)
    (chat_id : Z) (default_group_name : string) (found : AccountInfo) (w : World)
    : (bool * option AccountInfo) * World :=
  let w := logger INFO (StartingBurst email account_id) w in
  let loc := {| last_status := None; account_info := Some found |} in
  match burst_loop c email account_id chat_id default_group_name max_attempts 1 loc w with
  | (Some r, _, w) => (r, w)
  | (None, loc, w) => timed_out email account_id chat_id default_group_name loc w
  end.

(** [wait_for_status_change]; [Raises] when an exception leaves it. *)
Definition wait_for_status_change (c : Collaborators) (email : string)
    (chat_id : Z) (default_group_name : string) (w : World)
    : Outcome (bool * option AccountInfo) * World :=
  let w := logger INFO (LookingFor email) w in
  match initial_search c email 14 1 w with
  | (SearchRaised, w) => (Raises, w)
  | (NotFound, w) => (Returns (false, None), w)
  | (Found account_id found, w) =>
      let '(r, w) := burst_monitoring c email account_id chat_id
                       default_group_name found w in
      (Returns r, w)
  end.

(** *** Notions used in the statements *)

(** The identifier of a record of the batch, and the key that
    [add_monitored_account] stores it under. *)
Definition record_id (account : AccountInfo) : string := get account "idAccount" "".

Definition record_key (account : AccountInfo) : string :=
  record_id account +:+ "_" +:+ get account "Sender" "".

(** Some entry of the tracked accounts carries the identifier. *)
Definition tracked_id (accounts : Dict Tracked) (i : string) : Prop :=
  ∃ k d, (k, d) ∈ accounts ∧ account_id d = i.

(** The record passes the tests of the auto-discovery that do not depend
    on what is tracked: it has an identifier, its upper-cased status is
    AVAILABLE and its group is the default one. *)
Definition admissible (default_group_name : string) (account : AccountInfo) : Prop :=
  record_id account ≠ ""
  ∧ upper (get account "Status" "") = "AVAILABLE"
  ∧ get account "Group" "" = default_group_name.

(** The entry that the auto-discovery writes for a record. *)
Definition discovered (default_chat_id : option Z) (account : AccountInfo)
    (d : Tracked) : Prop :=
  account_id d = record_id account
  ∧ email d = get account "Sender" ""
  ∧ last_known_status d = "AVAILABLE"
  ∧ chat_id d = chat_or_zero default_chat_id
  ∧ source d = "manual".

(** The two records that an addition by the auto-discovery logs. *)
Definition discovery_log (account : AccountInfo) : list LogRecord :=
  [(INFO, AccountAdded (get account "Sender" "") (record_id account) "manual");
   (INFO, AutoMonitored (get account "Sender" ""))].

(** The record passes the tests, and no record before it in the batch
    passes them with the same identifier. *)
Definition first_admissible (default_group_name : string)
    (all_accounts : list AccountInfo) (account : AccountInfo) : Prop :=
  admissible default_group_name account
  ∧ ∃ before after, all_accounts = before ++ account :: after
      ∧ ∀ a, a ∈ before → admissible default_group_name a →
             record_id a ≠ record_id account.

(** No two records of the batch with different identifiers are stored
    under the same key. *)
Definition key_injective (all_accounts : list AccountInfo) : Prop :=
  ∀ a1 a2, a1 ∈ all_accounts → a2 ∈ all_accounts →
    record_key a1 = record_key a2 → record_id a1 = record_id a2.

(** What [send_status_notification] adds to the log. *)
Definition notification_log (email : string) (chat_id : Z) (w : World)
    : list LogRecord :=
  if chat_id =? 0 then [(INFO, SkipNotification email)]
  else if send_message_fails (length (outbox w)) then [(ERROR, NotificationFailed)]
  else [].

(** The attempt does not end the session: its lookup raises or finds
    nothing, or the status found is not final, or [edit_text] raises
    before the test of the status. *)
Definition keeps_going (c : Collaborators) (attempt : nat) : bool :=
  match search_sender_by_id c attempt with
  | Raises => true
  | Returns None => true
  | Returns (Some info) =>
      negb (dict_truthy info)
      || negb (bool_decide (upper (get info "Status" "غير محدد") ∈ FINAL_STATUSES))
      || match edit_text c attempt with Raises => true | Returns _ => false end
  end.

(** The value of the local [account_info] after [fuel] attempts from
    [attempt] on: the answer of the latest lookup that returned, or
    [current] when they all raised. *)
Fixpoint last_answer (c : Collaborators) (fuel attempt : nat)
    (current : option AccountInfo) : option AccountInfo :=
  match fuel with
  | O => current
  | S fuel' =>
      last_answer c fuel' (S attempt)
        match search_sender_by_id c attempt with
        | Returns answer => answer
        | Raises => current
        end
  end.

(** The admission test of the code after the loop. *)
Definition admission_passes (default_group_name : string) (info : AccountInfo) : Prop :=
  upper (get info "Status" "") = "AVAILABLE"
  ∧ get info "Group" "" = default_group_name.

(** The entry that a session writes when the admission passes. *)
Definition session_entry (email account_id : string) (chat_id : Z) (d : Tracked) : Prop :=
  core.email d = email ∧ core.account_id d = account_id
  ∧ last_known_status d = "AVAILABLE" ∧ core.chat_id d = chat_id
  ∧ source d = "bot".

(** An expiry check made between [w0] and [w] read the clock
    [BURST_MODE_DURATION] seconds or more after the start of the burst of
    [w0]. *)
Definition expiry_fired (w0 w : World) : Prop :=
  ∃ started n, api_manager.burst_mode_active (smart_cache w0) = true
    ∧ api_manager.burst_mode_started (smart_cache w0) = Some started
    ∧ (ticks w0 ≤ n < ticks w)%nat
    ∧ api_manager.seconds_ge (clock n - started) BURST_MODE_DURATION = true.

(** The burst state of [w] is that of [w0], or that of [w0] expired by a
    check that fired in between. *)
Definition untouched_or_fired (w0 w : World) : Prop :=
  (ticks w0 ≤ ticks w)%nat
  ∧ (smart_cache w = smart_cache w0
     ∨ (smart_cache w = api_manager.expired (smart_cache w0) ∧ expiry_fired w0 w)).


(** What the [try] block around [float(taken_value)] leaves of the world:
    the item queued, the warning logged, or nothing. *)
Definition taken_effect (current_status email account_id : string)
    (account_info : AccountInfo) (w : World) : World :=
  if bool_decide (current_status ∈ ["AMOUNT TAKEN"; "DISABLED"]) then
    let taken_value := get account_info "Taken" "0" in
    match float_positive taken_value with
    | Some true =>
        (add_to_taken_queue account_id email (replace_char " " "_" current_status)
           taken_value
           (logger INFO (TakenDetected current_status email taken_value) w)).2
    | Some false => w
    | None => logger WARNING (InvalidTaken email taken_value) w
    end
  else w.

(** The log line of the statuses that need attention. *)
Definition attention_effect (current_status email : string) (w : World) : World :=
  if bool_decide (current_status ∈ ["BACKUP CODE WRONG"; "WRONG DETAILS"])
  then logger WARNING (NeedsAttention email current_status) w
  else if bool_decide (current_status = "TRANSFER LIST IS FULL")
  then logger INFO (TransferListFull email) w
  else w.

(** The state that one iteration over a tracked entry ends in, written
    out branch by branch. *)
Definition check_result (accounts_by_id : gmap string AccountInfo) (data : Tracked)
    (st : Loop) : Loop :=
  let account_id := account_id data in
  if negb (str_truthy account_id) then st
  else
    match accounts_by_id !! account_id with
    | None => (st.1, logger WARNING (NotInBatch account_id) st.2)
    | Some account_info =>
        if negb (dict_truthy account_info)
        then (st.1, logger WARNING (NotInBatch account_id) st.2)
        else
          let current_status := upper (get account_info "Status" "غير محدد") in
          let last_status := upper (last_known_status data) in
          if bool_decide (current_status ≠ last_status) then
            (st.1 + 1,
             send_status_notification (email data) account_id last_status
               current_status (chat_id data) (source data)
               (update_monitored_account_status account_id current_status
                  (attention_effect current_status (email data)
                     (taken_effect current_status (email data) account_id account_info
                        (logger INFO
                           (StatusChanged (email data) last_status current_status)
                           st.2)))))
          else (st.1, update_monitored_account_status account_id current_status st.2)
    end.

(** The loop over the tracked entries of the file, from a count of 0. *)
Definition reconcile (accounts_by_id : gmap string AccountInfo) (w : World) : Loop :=
  foldl (check_step accounts_by_id) (0, w) (load_monitored_accounts w).

(** The status that the loop leaves an entry with: the upper-cased status
    of its record in the batch, when it has an identifier and a record. *)
Definition reconciled_status (accounts_by_id : gmap string AccountInfo)
    (data : Tracked) : string :=
  if negb (str_truthy (account_id data)) then last_known_status data
  else
    match accounts_by_id !! account_id data with
    | Some account_info =>
        if dict_truthy account_info
        then upper (get account_info "Status" "غير محدد")
        else last_known_status data
    | None => last_known_status data
    end.

(** The identifiers of the tracked entries, in the order of the file. *)
Definition tracked_ids (accounts : Dict Tracked) : list string :=
  account_id <$> accounts.*2.

(** From [w] to [w'] the cache, the counters and the pending queue are
    the same, and the file of the tracked accounts has the same keys and
    identifiers in the same order. *)
Definition monitor_frame (w w' : World) : Prop :=
  smart_cache w' = smart_cache w ∧ request_stats w' = request_stats w
  ∧ pending_queue w' = pending_queue w
  ∧ (monitored_accounts w').*1 = (monitored_accounts w).*1
  ∧ tracked_ids (monitored_accounts w') = tracked_ids (monitored_accounts w).

(** The log of [w'] is the log of [w] with records appended, none of them
    the error of the [except Exception] of the loop. *)
Definition log_extends (w w' : World) : Prop :=
  ∃ added, log w' = log w ++ added ∧ (ERROR, ErrorChecking) ∉ added.

(** [data'] is [data] after its turn in the loop: the same entry but for
    the check time, with the status that the loop leaves. *)
Definition settled (accounts_by_id : gmap string AccountInfo)
    (data data' : Tracked) : Prop :=
  email data' = email data ∧ account_id data' = account_id data
  ∧ chat_id data' = chat_id data ∧ source data' = source data
  ∧ added_at data' = added_at data
  ∧ last_known_status data' = reconciled_status accounts_by_id data.

(** The entry has an identifier and the batch a non-empty record for
    it. *)
Definition in_batch (accounts_by_id : gmap string AccountInfo) (data : Tracked)
    : bool :=
  str_truthy (account_id data)
  && match accounts_by_id !! account_id data with
     | Some account_info => dict_truthy account_info
     | None => false
     end.

(** The loop detects no change on the entry. *)
Definition quiet_entry (accounts_by_id : gmap string AccountInfo)
    (data : Tracked) : Prop :=
  in_batch accounts_by_id data = true →
  reconciled_status accounts_by_id data = upper (last_known_status data).

(** The message that a change of the entry sends. *)
Definition change_message (accounts_by_id : gmap string AccountInfo)
    (data : Tracked) : Notification :=
  {| n_chat_id := chat_id data; n_email := email data;
     n_account_id := account_id data;
     n_old_status := upper (last_known_status data);
     n_new_status := reconciled_status accounts_by_id data;
     n_source := source data |}.

(** The entry with the status and the check time replaced, as
    [update_monitored_account_status] rewrites it. *)
Definition checked (new_status : string) (t : Time) (data : Tracked) : Tracked :=
  {| email := email data; account_id := account_id data;
     last_known_status := new_status; chat_id := chat_id data;
     source := source data; added_at := added_at data; last_check := t |}.

End Core.
End core.

(** ** [api_manager.py]: [OptimizedAPIManager] *)

Module OptimizedAPIManager.
Import py config stats.
Import api_manager (Time, Account, SmartCacheManager, list_truthy).

(** The columns of a row of the remote table, [INDEX_MAP]. *)
Definition INDEX_MAP : list (string * nat) :=
  [("idAccount", 0); ("image", 1); ("Sender", 2); ("Start", 3);
   ("Last Update", 4); ("Taken", 5); ("Status", 6); ("Available", 7);
   ("password", 8); ("backupCodes", 9); ("Group", 10); ("groupNameId", 11);
   ("Take", 12); ("Keep", 13)]%nat.

(** [str(account[idx]) if idx < len(account) and account[idx] else ""]. *)
Definition cell_text (account : list PyVal) (idx : nat) : string :=
  match account !! idx with
  | Some cell => if py_truthy cell then py_str cell else ""
  | None => ""
  end.

(** The inner loop over [INDEX_MAP.items()], filling [acc]. *)
Definition parse_row (account : list PyVal) : gmap string string :=
  foldl (λ acc '(key, idx), <[key := cell_text account idx]> acc) ∅ INDEX_MAP.

(** The loop over the rows: a row with no [Sender] column is left out. *)
Definition parse_rows (accounts : list (list PyVal)) : list (gmap string string) :=
  parse_row <$> filter (λ account, (2 < length account)%nat) accounts.

(** A parsed record as the cache holds it. *)
Definition as_account (acc : gmap string string) : Account := VStr <$> acc.

(** *** The CSRF token of the sender page *)

Definition quote : ascii := "034"%char.

(** The literal text that the pattern of [get_csrf_token] starts with: the
    [meta] tag named [csrf-token], up to the quote that opens its
    [content]. *)
Definition meta_prefix : string :=
  "<meta name=" +:+ String quote "csrf-token" +:+ String quote " content="
  +:+ String quote "".

Fixpoint strip_prefix (prefix s : string) : option string :=
  match prefix, s with
  | EmptyString, _ => Some s
  | String a prefix', String b s' =>
      if Ascii.eqb a b then strip_prefix prefix' s' else None
  | String _ _, EmptyString => None
  end.

(** The longest run of characters other than the quote at the head of
    [s], when a quote ends it. *)
Fixpoint until_quote (s : string) : option string :=
  match s with
  | EmptyString => None
  | String c s' =>
      if Ascii.eqb c quote then Some EmptyString
      else String c <$> until_quote s'
  end.

(** A match of the pattern at the head of [s]: the prefix, then the
    group of one or more characters other than the quote, then the quote;
    the group is answered. *)
Definition match_here (s : string) : option string :=
  rest ← strip_prefix meta_prefix s;
  group ← until_quote rest;
  if str_truthy group then Some group else None.

(** [re.search(pattern, html)] and [match.group(1)]: the leftmost match. *)
Fixpoint csrf_search (html : string) : option string :=
  match match_here html with
  | Some group => Some group
  | None =>
      match html with
      | EmptyString => None
      | String _ html' => csrf_search html'
      end
  end.

(** *** The manager and what it talks to *)

(** The fields of the manager that the requests read and write, the
    globals [smart_cache] and [stats], the number of clock readings taken
    and the number of HTTP requests sent. *)
Record Manager := {
  csrf_token : option string;
  csrf_expires_at : option Time;
  smart_cache : SmartCacheManager;
  request_stats : RequestStats;
  ticks : nat;
  sent : nat;
}.

(** What the code does not decide: the readings of the clock and, when
    the [n]-th request sent is a GET of the sender page, its status and
    text, when it is the POST of the update, its status and the rows under
    the key [data] of its JSON body, if it has that key.  [Raises] stands
    for an exception of the request or of the decoding of its response. *)
Class Remote := {
  clock : nat → Time;
  get_sender_page : nat → core.Outcome (Z * string);
  post_update_sender_page : nat → core.Outcome (Z * option (list (list PyVal)));
}.

Definition set_csrf (token : option string) (expires : option Time) (m : Manager)
    : Manager :=
  {| csrf_token := token; csrf_expires_at := expires;
     smart_cache := smart_cache m; request_stats := request_stats m;
     ticks := ticks m; sent := sent m |}.

Definition with_cache (f : SmartCacheManager → SmartCacheManager) (m : Manager)
    : Manager :=
  {| csrf_token := csrf_token m; csrf_expires_at := csrf_expires_at m;
     smart_cache := f (smart_cache m); request_stats := request_stats m;
     ticks := ticks m; sent := sent m |}.

Definition with_stats (f : RequestStats → RequestStats) (m : Manager) : Manager :=
  {| csrf_token := csrf_token m; csrf_expires_at := csrf_expires_at m;
     smart_cache := smart_cache m; request_stats := f (request_stats m);
     ticks := ticks m; sent := sent m |}.

Definition tick (m : Manager) : Manager :=
  {| csrf_token := csrf_token m; csrf_expires_at := csrf_expires_at m;
     smart_cache := smart_cache m; request_stats := request_stats m;
     ticks := S (ticks m); sent := sent m |}.

Definition count_request (m : Manager) : Manager :=
  {| csrf_token := csrf_token m; csrf_expires_at := csrf_expires_at m;
     smart_cache := smart_cache m; request_stats := request_stats m;
     ticks := ticks m; sent := S (sent m) |}.

Section Requests.
Context {remote : Remote}.

(** [datetime.now()]. *)
Definition now (m : Manager) : Time * Manager := (clock (ticks m), tick m).

(** [smart_cache.is_cache_valid()]: the clock is read only when the age of
    the snapshot is computed. *)
Definition is_cache_valid (m : Manager) : bool * Manager :=
  match api_manager.cache (smart_cache m),
        api_manager.cache_timestamp (smart_cache m) with
  | Some _, Some _ =>
      if api_manager.burst_mode_active (smart_cache m) then (false, m)
      else
        let '(t, m') := now m in
        (api_manager.is_cache_valid t (smart_cache m), m')
  | _, _ => (false, m)
  end.

(** [smart_cache.update_cache(new_data, success)]: the successful branch
    reads the clock twice. *)
Definition update_cache (new_data : list Account) (success : bool) (m : Manager)
    : Manager :=
  if success then
    let '(t1, m) := now m in
    let '(t2, m) := now m in
    with_cache (api_manager.update_cache new_data true t1 t2) m
  else with_cache (api_manager.update_cache new_data false 0 0) m.

(** [smart_cache.get_cache() or []]. *)
Definition cache_or_empty (m : Manager) : list Account :=
  match api_manager.get_cache (smart_cache m) with
  | Some accounts => accounts
  | None => []
  end.

(** [get_csrf_token]. *)
Definition get_csrf_token (force_refresh : bool) (m : Manager)
    : option string * Manager :=
  let '(cached, m) :=
    match csrf_token m, csrf_expires_at m with
    | Some token, Some expires =>
        if negb force_refresh && str_truthy token then
          let '(t, m) := now m in
          (if t <? expires then Some token else None, m)
        else (None, m)
    | _, _ => (None, m)
    end in
  match cached with
  | Some token => (Some token, with_stats bump_cache_hits m)
  | None =>
      let m := with_stats bump_total_requests (with_stats bump_csrf_refreshes m) in
      let response := get_sender_page (sent m) in
      let m := count_request m in
      match response with
      | core.Raises => (None, with_stats bump_errors m)
      | core.Returns (status, html) =>
          if status =? 200 then
            match csrf_search html with
            | Some token =>
                let '(t, m) := now m in
                (Some token,
                 set_csrf (Some token) (Some (t + CSRF_TOKEN_TTL * 1000000)) m)
            | None => (None, m)
            end
          else (None, m)
      end
  end.

(** Truth value of an [Optional[str]]. *)
Definition token_truthy (csrf : option string) : bool :=
  match csrf with Some token => str_truthy token | None => false end.

(** [fetch_all_accounts_batch]; the call made on a status 403 or 419 is
    the recursive one, and [fuel] bounds the depth of the recursion: the
    answer is [None] when it is not enough. *)
Fixpoint fetch_all_accounts_batch (fuel : nat) (force_refresh : bool) (m : Manager)
    : option (list Account) * Manager :=
  match fuel with
  | O => (None, m)
  | S fuel' =>
      let '(valid, m) := if force_refresh then (false, m) else is_cache_valid m in
      let m := if valid then with_stats bump_cache_hits m else m in
      if valid && list_truthy (api_manager.get_cache (smart_cache m))
      then (Some (cache_or_empty m), m)
      else
        let m := with_stats bump_total_requests (with_stats bump_batch_fetches m) in
        let '(csrf, m) := get_csrf_token false m in
        if negb (token_truthy csrf) then
          let m := update_cache [] false m in
          (Some (cache_or_empty m), m)
        else
          let response := post_update_sender_page (sent m) in
          let m := count_request m in
          match response with
          | core.Raises =>
              let m := with_stats bump_errors m in
              let m := update_cache [] false m in
              (Some (cache_or_empty m), m)
          | core.Returns (status, body) =>
              if status =? 200 then
                match body with
                | Some rows =>
                    let parsed := as_account <$> parse_rows rows in
                    (Some parsed, update_cache parsed true m)
                | None => (Some (cache_or_empty m), m)
                end
              else if bool_decide (status ∈ [403; 419]) then
                fetch_all_accounts_batch fuel' true
                  (set_csrf None (csrf_expires_at m) m)
              else (Some (cache_or_empty m), m)
          end
  end.

(** [search_sender_by_id]; [None] when the fuel of the fetch is not
    enough. *)
Definition search_sender_by_id (fuel : nat) (account_id : PyVal) (m : Manager)
    : option (option Account) * Manager :=
  let '(valid, m) := is_cache_valid m in
  if valid then (Some (api_manager.get_account_by_id account_id (smart_cache m)), m)
  else
    let '(fetched, m) := fetch_all_accounts_batch fuel false m in
    (_ ← fetched; Some (api_manager.get_account_by_id account_id (smart_cache m)), m).

End Requests.

(** *** Notions used in the statements *)

(** The text holds a quote. *)
Fixpoint has_quote (s : string) : bool :=
  match s with
  | EmptyString => false
  | String c s' => Ascii.eqb c quote || has_quote s'
  end.

(** No counter of [after] is below that of [before]; the counters that the
    requests do not touch are the same. *)
Definition counters_grow (before after : RequestStats) : Prop :=
  total_requests before ≤ total_requests after
  ∧ csrf_refreshes before ≤ csrf_refreshes after
  ∧ batch_fetches before ≤ batch_fetches after
  ∧ cache_hits before ≤ cache_hits after
  ∧ errors before ≤ errors after
  ∧ fast_detections before = fast_detections after
  ∧ burst_activations before = burst_activations after
  ∧ adaptive_adjustments before = adaptive_adjustments after.

(** From [m] to [m'] the counters, the clock readings and the requests
    sent have only grown. *)
Definition advances (m m' : Manager) : Prop :=
  counters_grow (request_stats m) (request_stats m')
  ∧ (ticks m ≤ ticks m')%nat ∧ (sent m ≤ sent m')%nat.

Section Answers.
Context {remote : Remote}.

(** The [n]-th request, sent as a GET of the sender page, yields no token:
    it raises, is answered with a status other than 200, or its page does
    not match the pattern. *)
Definition no_token (n : nat) : Prop :=
  ∀ html, get_sender_page n = core.Returns (200, html) → csrf_search html = None.

(** The [n]-th request, sent as the POST of the update, is answered with
    nothing to store and no call for a new token: a status 200 without the
    key [data], or a status other than 200, 403 and 419. *)
Definition no_rows (n : nat) : Prop :=
  ∃ status body, post_update_sender_page n = core.Returns (status, body)
    ∧ ((status = 200 ∧ body = None) ∨ status ∉ [200; 403; 419]).

End Answers.

End OptimizedAPIManager.

(** ** [sheets/taken.py]: the worker of the extraction queue *)

Module sheets_taken.
Import py taken.

(** A cell written by [update_sheet_cell]. *)
Record CellUpdate := {
  column : string;
  row : nat;
  value : string;
}.

(** What a turn of the worker works on: the content of [data/Taken.json],
    the cells written so far and the number of requests sent to the Sheets
    API.  The log lines of the worker are not taken. *)
Record Desk := {
  queue : list TakenItem;
  written : list CellUpdate;
  requests : nat;
}.

(** What the worker does not decide: the [id] of each entry of
    [id_history.json] ([None] for an entry without one), or [None] when
    the file is missing or cannot be read; the rows that the [n]-th
    request returns when it reads the column Z, or [None] when it raises;
    whether the [n]-th request succeeds when it updates a cell; and the
    text that [convert_coins_to_thousands], which goes through [float],
    returns. *)
Class Sheets := {
  id_history : option (list PyVal);
  get_column_z : nat → option (list (list PyVal));
  update_succeeds : nat → bool;
  convert_coins_to_thousands : string → string;
}.

Definition count_request (d : Desk) : Desk :=
  {| queue := queue d; written := written d; requests := S (requests d) |}.

Definition write (u : CellUpdate) (d : Desk) : Desk :=
  {| queue := queue d; written := written d ++ [u]; requests := requests d |}.

(** [clear_taken_entry], on the file of the desk; the value returned is
    not used by the worker. *)
Definition clear_taken_entry (account_id : string) (d : Desk) : Desk :=
  {| queue := (taken.clear_taken_entry account_id (queue d)).1;
     written := written d; requests := requests d |}.

Section Worker.
Context {builtins : Builtins} {methods : StrMethods} {sheets : Sheets}.

(** [check_id_in_history]: the loop returns [True] at the first entry
    whose [str(entry.get("id"))] is the identifier. *)
Definition check_id_in_history (account_id : string) : bool :=
  match id_history with
  | None => false
  | Some ids_list => existsb (λ entry, bool_decide (py_str entry = account_id)) ids_list
  end.

(** The loop of [find_row_by_id] over [enumerate(values, start=1)], from
    the index [idx] on; [wanted] is [str(account_id).strip()]. *)
Fixpoint scan_rows (wanted : string) (idx : nat) (values : list (list PyVal))
    : option nat :=
  match values with
  | [] => None
  | cells :: rest =>
      match cells with
      | cell :: _ =>
          if bool_decide (str_strip (py_str cell) = wanted) then Some idx
          else scan_rows wanted (S idx) rest
      | [] => scan_rows wanted (S idx) rest
      end
  end.

(** [find_row_by_id]: one request; [None] when it raises, when the column
    is empty and when no row matches. *)
Definition find_row_by_id (account_id : string) (d : Desk) : option nat * Desk :=
  let response := get_column_z (requests d) in
  let d := count_request d in
  match response with
  | None => (None, d)
  | Some [] => (None, d)
  | Some values => (scan_rows (str_strip account_id) 1 values, d)
  end.

(** [update_sheet_cell]: one request; the cell is written when it
    succeeds. *)
Definition update_sheet_cell (row_number : nat) (column_letter value : string)
    (d : Desk) : bool * Desk :=
  let ok := update_succeeds (requests d) in
  let d := count_request d in
  if ok then
    (true, write {| column := column_letter; row := row_number; value := value |} d)
  else (false, d).

(** The body of [for item in items]; none of the calls it makes lets an
    exception out, so its own handler is never reached. *)
Definition process_item (amount_taken_col disabled_col : string) (d : Desk)
    (item : TakenItem) : Desk :=
  let account_id := id item in
  let status := upper (status item) in
  let taken_value := taken item in
  if negb (check_id_in_history account_id) then clear_taken_entry account_id d
  else
    let '(row_number, d) := find_row_by_id account_id d in
    match row_number with
    | None => clear_taken_entry account_id d
    | Some row_number =>
        if (row_number =? 0)%nat then clear_taken_entry account_id d
        else
          let converted_value := convert_coins_to_thousands taken_value in
          let target_column :=
            if bool_decide (status = "AMOUNT_TAKEN") then Some amount_taken_col
            else if bool_decide (status = "DISABLED") then Some disabled_col
            else None in
          match target_column with
          | None => clear_taken_entry account_id d
          | Some target_column =>
              let '(_, d) :=
                update_sheet_cell row_number target_column converted_value d in
              clear_taken_entry account_id d
          end
    end.

(** One turn of the [while True] of [taken_worker]; the sleep that ends
    it is not modelled. *)
Definition taken_worker_turn (amount_taken_col disabled_col : string) (d : Desk)
    : Desk :=
  let items := queue d in
  match items with
  | [] => d
  | _ => foldl (process_item amount_taken_col disabled_col) d items
  end.

(** *** Notions used in the statements *)

(** The column that the worker writes for a status. *)
Definition target_of (amount_taken_col disabled_col status : string) : option string :=
  if bool_decide (upper status = "AMOUNT_TAKEN") then Some amount_taken_col
  else if bool_decide (upper status = "DISABLED") then Some disabled_col
  else None.

(** The row is the first of [values], counted from 1, whose first cell
    reads as the identifier once both are stripped. *)
Definition first_row_of (account_id : string) (values : list (list PyVal))
    (r : nat) : Prop :=
  ∃ before cells cell after,
    values = before ++ (cell :: cells) :: after
    ∧ r = S (length before)
    ∧ str_strip (py_str cell) = str_strip account_id
    ∧ Forall (λ cs, match cs with
                    | c :: _ => str_strip (py_str c) ≠ str_strip account_id
                    | [] => True
                    end) before.

(** The cell that a turn writes for an item when the column Z reads
    [values] and the update succeeds. *)
Definition update_for (amount_taken_col disabled_col : string)
    (values : list (list PyVal)) (item : TakenItem) : option CellUpdate :=
  if check_id_in_history (id item) then
    r ← scan_rows (str_strip (id item)) 1 values;
    c ← target_of amount_taken_col disabled_col (status item);
    Some {| column := c; row := r; value := convert_coins_to_thousands (taken item) |}
  else None.

End Worker.

End sheets_taken.

(** ** [sheets/queue_manager.py], [sheets/id_history.py] and
    [sheets/worker.py]: the queues of addresses and their workers *)

Module sheets_worker.
Import py.

(** An item of a queue file: a JSON object. *)
Definition Item : Type := gmap string PyVal.

(** An entry of [id_history.json]: its [id] and the time that
    [datetime.fromisoformat] reads in its [added_at], [None] when it reads
    none; it reads the time of a date that [isoformat] has written. *)
Definition HistoryEntry : Type := (string * option Z)%type.

(** The three queue files, the history of identifiers, the rows that
    [append_emails] has written (the cell of the column A and the cell of
    the column Z), and the numbers of clock readings and of calls of
    [append_emails] made so far.  Reading and writing the files is assumed
    to succeed; the log lines are not taken. *)
Record Queues := {
  pending : list Item;
  retry : list Item;
  failed : list Item;
  history : list HistoryEntry;
  appended : list (PyVal * string);
  ticks : nat;
  calls : nat;
}.

(** What the workers do not decide: the readings of the clock, the text
    of a reading in ISO format, and whether the [n]-th call of
    [append_emails] on a batch succeeds. *)
Class Sheet := {
  clock : nat → Z;
  isoformat : Z → string;
  append_succeeds : nat → bool;
}.

Definition RETENTION_DAYS : Z := 7.

Definition set_pending (l : list Item) (q : Queues) : Queues :=
  {| pending := l; retry := retry q; failed := failed q; history := history q;
     appended := appended q; ticks := ticks q; calls := calls q |}.

Definition set_retry (l : list Item) (q : Queues) : Queues :=
  {| pending := pending q; retry := l; failed := failed q; history := history q;
     appended := appended q; ticks := ticks q; calls := calls q |}.

Definition set_failed (l : list Item) (q : Queues) : Queues :=
  {| pending := pending q; retry := retry q; failed := l; history := history q;
     appended := appended q; ticks := ticks q; calls := calls q |}.

Definition set_history (l : list HistoryEntry) (q : Queues) : Queues :=
  {| pending := pending q; retry := retry q; failed := failed q; history := l;
     appended := appended q; ticks := ticks q; calls := calls q |}.

Definition tick (q : Queues) : Queues :=
  {| pending := pending q; retry := retry q; failed := failed q;
     history := history q; appended := appended q; ticks := S (ticks q);
     calls := calls q |}.

(** The integer that [+] and [<] take a value for; [None] is their
    [TypeError]. *)
Definition as_int (v : PyVal) : option Z :=
  match v with
  | VInt n => Some n
  | VBool b => Some (if b then 1 else 0)
  | _ => None
  end.

(** [item.get("attempts", 0)]. *)
Definition get_attempts (item : Item) : PyVal := get item "attempts" (VInt 0).

(** [item_id and item_id not in ["N/A", "pending", "api", "", None]], the
    test of [add_ids_to_history]; the test of [append_emails], whose list
    has no [None], holds of the same values, [None] being false. *)
Definition valid_id (item_id : PyVal) : bool :=
  py_truthy item_id
  && negb (bool_decide (item_id ∈ [VStr "N/A"; VStr "pending"; VStr "api";
                                    VStr ""; VNone])).

(** [item.get("id") and item.get("id") not in ["N/A", "", None]], the test
    of the workers. *)
Definition recordable (item : Item) : bool :=
  py_truthy (get item "id" VNone)
  && negb (bool_decide (get item "id" VNone ∈ [VStr "N/A"; VStr ""; VNone])).

Section Workers.
Context {sheet : Sheet}.

Definition now (q : Queues) : Z * Queues := (clock (ticks q), tick q).

(** [move_to_retry]; the flag is [false] when it raises: on the
    [TypeError] of the addition, before anything is written, or on the
    [KeyError] of the log line, after the file is written. *)
Definition move_to_retry (email_data : Item) (q : Queues) : bool * Queues :=
  match as_int (get_attempts email_data) with
  | None => (false, q)
  | Some attempts =>
      let email_data := <["attempts" := VInt (attempts + 1)]> email_data in
      let '(t, q) := now q in
      let email_data := <["last_attempt" := VStr (isoformat t)]> email_data in
      let q := set_retry (retry q ++ [email_data]) q in
      (bool_decide (is_Some (email_data !! "email")), q)
  end.

(** [move_to_failed]; the flag as above. *)
Definition move_to_failed (email_data : Item) (q : Queues) : bool * Queues :=
  let '(t, q) := now q in
  let email_data := <["failed_at" := VStr (isoformat t)]> email_data in
  let q := set_failed (failed q ++ [email_data]) q in
  (bool_decide (is_Some (email_data !! "email")), q).

(** The list comprehension of [clear_batch]. *)
Definition clear_batch (processed_emails : list PyVal) (emails : list Item)
    : list Item :=
  filter (λ item, get item "email" VNone ∉ processed_emails) emails.

(** [append_emails] on a batch that is not empty: the rows are written
    when the call succeeds, one per item, with the identifier in the
    column Z when it is a valid one. *)
Definition append_emails (emails_data : list (PyVal * PyVal)) (q : Queues)
    : bool * Queues :=
  let ok := append_succeeds (calls q) in
  let q := {| pending := pending q; retry := retry q; failed := failed q;
              history := history q; appended := appended q; ticks := ticks q;
              calls := S (calls q) |} in
  if ok then
    (true,
     {| pending := pending q; retry := retry q; failed := failed q;
        history := history q;
        appended := appended q
                    ++ map (λ '(email, item_id),
                              (email, if valid_id item_id then py_str item_id
                                      else ""))
                         emails_data;
        ticks := ticks q; calls := calls q |})
  else (false, q).

(** [_cleanup_old_ids], with the reading [t] of the clock: an entry whose
    date cannot be read is kept. *)
Definition recent (t : Z) (entry : HistoryEntry) : bool :=
  match entry.2 with
  | Some added_at => t - RETENTION_DAYS * 86400 * 1000000 <? added_at
  | None => true
  end.

Definition cleanup_old_ids (t : Z) (entries : list HistoryEntry)
    : list HistoryEntry :=
  filter (λ entry, recent t entry = true) entries.

(** [add_ids_to_history]. *)
Definition add_ids_to_history (ids_list : list PyVal) (q : Queues) : Queues :=
  match ids_list with
  | [] => q
  | _ =>
      let data := history q in
      let '(t, q) := now q in
      let data := cleanup_old_ids t data in
      let '(t, q) := now q in
      let data := data ++ map (λ item_id, (py_str item_id, Some t))
                            (filter (λ item_id, valid_id item_id = true) ids_list) in
      set_history data q
  end.

(** The two comprehensions over the batch at the head of a turn; [None]
    is the [KeyError] of an item without [email]. *)
Definition emails_of (batch : list Item) : option (list PyVal) :=
  mapM (λ item : Item, item !! "email") batch.

Definition ids_to_record (batch : list Item) : list PyVal :=
  map (λ item, get item "id" (VStr "")) (filter (λ item, recordable item = true) batch).

(** What both workers do when the batch is in the sheet. *)
Definition record_ids (batch : list Item) (q : Queues) : Queues :=
  match ids_to_record batch with
  | [] => q
  | ids => add_ids_to_history ids q
  end.

(** The loop of [pending_worker] over a batch that was refused, from the
    items [todo] on; the flag is [false] when an item raises, and the
    items after it are then not looked at. *)
Fixpoint refuse_pending (max_retries : Z) (todo : list Item) (q : Queues)
    : bool * Queues :=
  match todo with
  | [] => (true, q)
  | item :: rest =>
      match as_int (get_attempts item) with
      | None => (false, q)
      | Some attempts =>
          let '(ok, q) :=
            if attempts <? max_retries then move_to_retry item q
            else move_to_failed item q in
          if ok then refuse_pending max_retries rest q else (false, q)
      end
  end.

(** One turn of the [while True] of [pending_worker]; the flag is [false]
    when the turn ends in its [except Exception]. *)
Definition pending_worker_turn (max_retries : Z) (q : Queues) : bool * Queues :=
  let batch := pending q in
  match batch with
  | [] => (true, q)
  | _ =>
      match emails_of batch with
      | None => (false, q)
      | Some emails =>
          let emails_data := map (λ item : Item, (get item "email" VNone,
                                                   get item "id" (VStr ""))) batch in
          let '(success, q) := append_emails emails_data q in
          if success then
            let q := record_ids batch q in
            (true, set_pending (clear_batch emails (pending q)) q)
          else
            let '(ok, q) := refuse_pending max_retries batch q in
            if ok then (true, set_pending (clear_batch emails (pending q)) q)
            else (false, q)
      end
  end.

(** The loop of [retry_worker] over a batch that was refused: the locals
    [updated_batch] and the queues; the flag as above. *)
Fixpoint refuse_retry (max_retries : Z) (todo : list Item)
    (updated_batch : list Item) (q : Queues) : bool * list Item * Queues :=
  match todo with
  | [] => (true, updated_batch, q)
  | item :: rest =>
      match as_int (get_attempts item) with
      | None => (false, updated_batch, q)
      | Some n =>
          let attempts := n + 1 in
          let item := <["attempts" := VInt attempts]> item in
          if attempts <? max_retries
          then refuse_retry max_retries rest (updated_batch ++ [item]) q
          else
            let '(ok, q) := move_to_failed item q in
            if ok then refuse_retry max_retries rest updated_batch q
            else (false, updated_batch, q)
      end
  end.

(** One turn of the [while True] of [retry_worker]. *)
Definition retry_worker_turn (max_retries : Z) (q : Queues) : bool * Queues :=
  let batch := retry q in
  match batch with
  | [] => (true, q)
  | _ =>
      match emails_of batch with
      | None => (false, q)
      | Some emails =>
          let emails_data := map (λ item : Item, (get item "email" VNone,
                                                   get item "id" (VStr ""))) batch in
          let '(success, q) := append_emails emails_data q in
          if success then
            let q := record_ids batch q in
            (true, set_retry (clear_batch emails (retry q)) q)
          else
            let '(ok, updated_batch, q) := refuse_retry max_retries batch [] q in
            if ok then (true, set_retry updated_batch q) else (false, q)
      end
  end.

(** Turns of [retry_worker], one after the other. *)
Fixpoint retry_worker_turns (max_retries : Z) (n : nat) (q : Queues) : Queues :=
  match n with
  | O => q
  | S n' => retry_worker_turns max_retries n' (retry_worker_turn max_retries q).2
  end.

End Workers.

(** *** Notions used in the statements *)

(** The item has an address, and a number of attempts, if any, that is an
    integer. *)
Definition well_formed (item : Item) : Prop :=
  is_Some (item !! "email") ∧ is_Some (as_int (get_attempts item)).

(** The number of attempts that the item counts. *)
Definition attempts_of (item : Item) : Z := default 0 (as_int (get_attempts item)).

(** The item as [move_to_retry] files it: one more attempt, and the date
    of it. *)
Definition retried (stamp : string) (item : Item) : Item :=
  <["last_attempt" := VStr stamp]>
    (<["attempts" := VInt (attempts_of item + 1)]> item).

(** The item as [move_to_failed] files it. *)
Definition given_up (stamp : string) (item : Item) : Item :=
  <["failed_at" := VStr stamp]> item.

(** The item with one more attempt counted. *)
Definition bumped (item : Item) : Item :=
  <["attempts" := VInt (attempts_of item + 1)]> item.

(** The row that [append_emails] writes for an item: its address for the
    column A and, for the column Z, its identifier when it is a valid one
    and nothing otherwise. *)
Definition sheet_row (item : Item) : PyVal * string :=
  (get item "email" VNone,
   if valid_id (get item "id" (VStr "")) then py_str (get item "id" (VStr ""))
   else "").

Section Stamps.
Context {sheet : Sheet}.

(** The items with the text of the clock readings from the [base]-th on,
    one reading per item. *)
Fixpoint stamped (base : nat) (items : list Item) : list (string * Item) :=
  match items with
  | [] => []
  | item :: rest => (isoformat (clock base), item) :: stamped (S base) rest
  end.

(** The history after the identifiers of a batch were recorded with the
    clock readings [t1] and [t2]: the old entries are dropped first. *)
Definition recorded (t1 t2 : Z) (batch : list Item) (entries : list HistoryEntry)
    : list HistoryEntry :=
  match ids_to_record batch with
  | [] => entries
  | ids =>
      cleanup_old_ids t1 entries
      ++ map (λ item_id, (py_str item_id, Some t2))
           (filter (λ item_id, valid_id item_id = true) ids)
  end.

End Stamps.

End sheets_worker.

(** ** Concrete worlds and collaborators, for the examples *)

Module examples.
Import py config stats logging core.

(** A clock that advances by one second per reading, and a Telegram that
    delivers. *)
Definition env : Environment :=
  {| clock := λ n, Z.of_nat n * 1000000; send_message_fails := λ _, false |}.

Definition world0 : World :=
  {| smart_cache := api_manager.init; request_stats := stats.zero;
     monitored_accounts := []; taken_queue := []; pending_queue := [];
     log := []; outbox := []; ticks := 0 |}.

Definition account7 : api_manager.Account := {[ "idAccount" := VStr "7" ]}.

Definition numbered7 : api_manager.Account := {[ "idAccount" := VInt 7 ]}.

(** The cache after one successful fetch at time 100. *)
Definition fetched : api_manager.SmartCacheManager :=
  api_manager.update_cache [account7] true 100 100 api_manager.init.

(** The cache after a successful fetch and a successful [add_sender]. *)
Definition invalidated : api_manager.SmartCacheManager :=
  api_manager.invalidate fetched.

(** The same, when the fetch returned an empty batch. *)
Definition emptied : api_manager.SmartCacheManager :=
  api_manager.invalidate (api_manager.update_cache [] true 100 100 api_manager.init).

Definition record (i sender status group taken : string) : AccountInfo :=
  <["idAccount" := i]> (<["Sender" := sender]> (<["Status" := status]>
    (<["Group" := group]> {["Taken" := taken]}))).

Definition record9 : AccountInfo := record "9" "nine@x.com" "AVAILABLE" "OTHER" "0".
Definition record10 : AccountInfo := record "10" "ten@x.com" "AVAILABLE" "G" "0".
Definition nameless : AccountInfo := record "" "a@x.com" "AVAILABLE" "G" "0".

(** Two records with different identifiers and the same storage key
    [1_2_x@y.com]. *)
Definition short_id : AccountInfo := record "1" "2_x@y.com" "AVAILABLE" "G" "0".
Definition long_id : AccountInfo := record "1_2" "x@y.com" "AVAILABLE" "G" "0".

Definition tracked7 : Tracked :=
  {| email := "a@x.com"; account_id := "7"; last_known_status := "AVAILABLE";
     chat_id := 5; source := "bot"; added_at := 0; last_check := 0 |}.

(** The same entry with no chat to notify, as the discovery writes it
    when no default chat is configured. *)
Definition silent7 : Tracked :=
  {| email := "a@x.com"; account_id := "7"; last_known_status := "AVAILABLE";
     chat_id := 0; source := "manual"; added_at := 0; last_check := 0 |}.

(** A world in which account 7 is tracked. *)
Definition world7 : World :=
  save_monitored_accounts [("7_a@x.com", tracked7)] world0.

Definition taken1500 : AccountInfo := record "7" "a@x.com" "AMOUNT TAKEN" "G" "1500".
Definition taken0 : AccountInfo := record "7" "a@x.com" "DISABLED" "G" "0".

Definition logging7 : AccountInfo := record "7" "a@x.com" "LOGGING" "G" "0".
Definition available7 : AccountInfo := record "7" "a@x.com" "AVAILABLE" "G" "0".

(** The account stays in a transitional status for the whole session. *)
Definition always_logging : Collaborators :=
  {| search_sender_by_email := λ _, Returns (Some logging7);
     search_sender_by_id := λ _, Returns (Some logging7);
     edit_text_initial := λ _, Returns ();
     edit_text := λ _, Returns () |}.

(** The account is seen in a transitional status 39 times and is missing
    from the batch at the last attempt. *)
Definition lost_at_the_end : Collaborators :=
  {| search_sender_by_email := λ _, Returns (Some logging7);
     search_sender_by_id :=
       λ n, if (n =? 40)%nat then Returns None else Returns (Some logging7);
     edit_text_initial := λ _, Returns ();
     edit_text := λ _, Returns () |}.

(** The account is AVAILABLE at the first attempt of the burst monitoring. *)
Definition available_at_once : Collaborators :=
  {| search_sender_by_email := λ _, Returns (Some logging7);
     search_sender_by_id := λ _, Returns (Some available7);
     edit_text_initial := λ _, Returns ();
     edit_text := λ _, Returns () |}.

(** A world in which another session has activated the burst mode for
    account 8. *)
Definition world8 : World :=
  activate_burst_mode (env := env) "8" world0.

(** A sender page that carries the token [tok123]. *)
Definition page : string :=
  "<html><head>" +:+ OptimizedAPIManager.meta_prefix +:+ "tok123"
  +:+ String OptimizedAPIManager.quote "></head></html>".

(** A remote side that always answers: the page above to a GET, and to a
    POST one full row for account 7 and one row too short to be kept. *)
Definition remote : OptimizedAPIManager.Remote :=
  {| OptimizedAPIManager.clock := λ n, Z.of_nat n * 1000000;
     OptimizedAPIManager.get_sender_page := λ _, Returns (200, page);
     OptimizedAPIManager.post_update_sender_page := λ _,
       Returns (200, Some [[VInt 7; VNone; VStr "a@x.com"; VNone; VNone;
                            VInt 0; VStr "AVAILABLE"; VNone; VNone; VNone;
                            VStr "G"];
                           [VInt 8; VNone]]) |}.

(** The manager as [OptimizedAPIManager.__init__] and the module leave
    it. *)
Definition manager0 : OptimizedAPIManager.Manager :=
  {| OptimizedAPIManager.csrf_token := None;
     OptimizedAPIManager.csrf_expires_at := None;
     OptimizedAPIManager.smart_cache := api_manager.init;
     OptimizedAPIManager.request_stats := stats.zero;
     OptimizedAPIManager.ticks := 0; OptimizedAPIManager.sent := 0 |}.

(** The same with the burst mode active for account 7 since time 0. *)
Definition manager_in_burst : OptimizedAPIManager.Manager :=
  OptimizedAPIManager.with_cache
    (λ c, (api_manager.activate_burst_mode 0 "7" c stats.zero).1) manager0.

(** A sheet whose column Z holds a header and the identifier 7, padded
    with blanks, in its second row; every request succeeds, the history
    knows account 7, and amounts are shown with their last three digits
    cut. *)
Definition sheets : sheets_taken.Sheets :=
  {| sheets_taken.id_history := Some [VStr "5"; VInt 7];
     sheets_taken.get_column_z := λ _, Some [[VStr "ID"]; [VStr " 7 "]; [VStr "7"]];
     sheets_taken.update_succeeds := λ _, true;
     sheets_taken.convert_coins_to_thousands :=
       λ s, String.substring 0 (String.length s - 3) s |}.

(** The extraction queue holds the item of account 7 and one of account
    9, which is not in the history. *)
Definition desk79 : sheets_taken.Desk :=
  {| sheets_taken.queue :=
       [{| taken.id := "7"; taken.email := "a@x.com"; taken.status := "AMOUNT_TAKEN";
           taken.taken := "1500"; taken.added_at := 0 |};
        {| taken.id := "9"; taken.email := "nine@x.com"; taken.status := "DISABLED";
           taken.taken := "2000"; taken.added_at := 0 |}];
     sheets_taken.written := []; sheets_taken.requests := 0 |}.

(** The address of account 7, as [add_to_pending_queue_immediately]
    queues it, but for the date. *)
Definition address7 : sheets_worker.Item :=
  <["email" := VStr "a@x.com"]> {["id" := VStr "7"]}.

(** A sheet that takes every batch, and one that refuses every batch;
    the clock advances by one second per reading. *)
Definition sheet_up : sheets_worker.Sheet :=
  {| sheets_worker.clock := λ n, Z.of_nat n * 1000000;
     sheets_worker.isoformat := pretty;
     sheets_worker.append_succeeds := λ _, true |}.

Definition sheet_down : sheets_worker.Sheet :=
  {| sheets_worker.clock := λ n, Z.of_nat n * 1000000;
     sheets_worker.isoformat := pretty;
     sheets_worker.append_succeeds := λ _, false |}.

(** The address of account 7 waits in [pending.json], and in
    [retry.json] after one attempt. *)
Definition queues7 : sheets_worker.Queues :=
  {| sheets_worker.pending := [address7];
     sheets_worker.retry := [<["attempts" := VInt 1]> address7];
     sheets_worker.failed := []; sheets_worker.history := [];
     sheets_worker.appended := []; sheets_worker.ticks := 0;
     sheets_worker.calls := 0 |}.

End examples.

(** * Properties *)

(** ** The snapshot cache, the TTL controller and the burst controller *)

Section CacheProperties.
Import py config stats api_manager.

Lemma seconds_lt_spec d s : seconds_lt d s = true ↔ d < s * 1000000.
Proof. unfold seconds_lt. apply Z.ltb_lt. Qed.

(** C1.  [is_cache_valid] answers false when the snapshot or its timestamp
    is absent, false whenever the burst mode is active, whatever the age of
    the snapshot, and otherwise true exactly when the age [now - fetched_at]
    is below the TTL (in microseconds on both sides). *)
Theorem is_cache_valid_spec (now : Z) (self : SmartCacheManager) :
  (cache self = None ∨ cache_timestamp self = None → is_cache_valid now self = false)
  ∧ (burst_mode_active self = true → is_cache_valid now self = false)
  ∧ (∀ snapshot fetched_at,
       cache self = Some snapshot → cache_timestamp self = Some fetched_at →
       burst_mode_active self = false →
       (is_cache_valid now self = true ↔ now - fetched_at < cache_ttl self * 1000000)).
Proof.
  unfold is_cache_valid. split; [|split].
  - intros [-> | ->]; [done|]. by destruct (cache self).
  - intros ->. by destruct (cache self), (cache_timestamp self).
  - intros snapshot fetched_at -> -> ->. apply seconds_lt_spec.
Qed.

(** One second before the TTL of 90 seconds runs out the snapshot fetched
    at time 100 is valid, at the TTL it is not, and in burst mode it never
    is. *)
Lemma is_cache_valid_spec_witness :
  is_cache_valid (100 + 89 * 1000000) examples.fetched = true
  ∧ is_cache_valid (100 + 90 * 1000000) examples.fetched = false
  ∧ is_cache_valid 100 (set_burst true (Some 100) {["7"]} examples.fetched) = false.
Proof.
  destruct (is_cache_valid_spec (100 + 89 * 1000000) examples.fetched) as (_ & _ & Hage).
  destruct (is_cache_valid_spec 100 (set_burst true (Some 100) {["7"]} examples.fetched))
    as (_ & Hburst & _).
  split; [|split].
  - apply (Hage [examples.account7] 100); [reflexivity|reflexivity|reflexivity|].
    vm_compute. reflexivity.
  - reflexivity.
  - apply Hburst. reflexivity.
Defined.

(** [__init__] establishes [burst_consistent] and the methods keep it. *)
Lemma burst_consistent_kept :
  burst_consistent init
  ∧ ∀ self, burst_consistent self →
      (∀ now account_id st,
         burst_consistent (activate_burst_mode now account_id self st).1)
      ∧ (∀ now, ∃ self', check_burst_mode now self = Some self'
                         ∧ burst_consistent self')
      ∧ (∀ changes st, burst_consistent (adjust_ttl changes self st).1)
      ∧ (∀ new_data success now1 now2,
           burst_consistent (update_cache new_data success now1 now2 self))
      ∧ burst_consistent (invalidate self)
      ∧ (∀ account_id, burst_consistent (cancelled account_id self)).
Proof.
  unfold burst_consistent. split; [done|]. intros self Hc. split_and!.
  - intros now account_id st. unfold activate_burst_mode.
    destruct (burst_mode_active self) eqn:Ea; simpl; rewrite ?Ea; simpl; auto.
  - intros now. unfold check_burst_mode.
    destruct (burst_mode_active self) eqn:Ea; simpl.
    2:{ eexists. split; [reflexivity|]. by rewrite Ea. }
    destruct (Hc eq_refl) as [started Hs]. rewrite Hs.
    destruct (seconds_ge _ _); eexists; (split; [reflexivity|]); simpl; [done|].
    intros _. by rewrite Hs.
  - intros changes st. unfold adjust_ttl. simpl.
    repeat (case_match; simpl); done.
  - intros new_data success now1 now2. unfold update_cache.
    repeat (case_match; simpl); done.
  - done.
  - done.
Qed.

Lemma adjust_ttl_quiet changes self st :
  changes ≤ 1 →
  consecutive_quiet_cycles (adjust_ttl changes self st).1
    = consecutive_quiet_cycles self + 1
  ∧ (consecutive_quiet_cycles self + 1 < 3 →
       cache_ttl (adjust_ttl changes self st).1 = cache_ttl self)
  ∧ (3 ≤ consecutive_quiet_cycles self + 1 →
       cache_ttl (adjust_ttl changes self st).1 = CACHE_TTL_MAX).
Proof.
  intros Hc. unfold adjust_ttl. simpl.
  destruct (Z.leb_spec 5 changes); [lia|].
  destruct (Z.leb_spec 2 changes); [lia|].
  destruct (Z.leb_spec 3 (consecutive_quiet_cycles self + 1)); simpl;
    repeat split; auto; lia.
Qed.

Lemma adjust_ttl_busy changes self st :
  2 ≤ changes →
  consecutive_quiet_cycles (adjust_ttl changes self st).1 = 0
  ∧ cache_ttl (adjust_ttl changes self st).1
    = if 5 <=? changes then CACHE_TTL_MIN else CACHE_TTL_NORMAL.
Proof.
  intros Hc. unfold adjust_ttl. simpl.
  destruct (Z.leb_spec 5 changes); [done|].
  destruct (Z.leb_spec 2 changes); [done|lia].
Qed.

Lemma adjust_ttl_run_quiet changes : ∀ self st,
  Forall (λ c, c ≤ 1) changes →
  consecutive_quiet_cycles (adjust_ttl_run changes self st).1
    = consecutive_quiet_cycles self + Z.of_nat (length changes)
  ∧ (consecutive_quiet_cycles self + Z.of_nat (length changes) < 3 →
       cache_ttl (adjust_ttl_run changes self st).1 = cache_ttl self)
  ∧ (changes ≠ [] →
     3 ≤ consecutive_quiet_cycles self + Z.of_nat (length changes) →
       cache_ttl (adjust_ttl_run changes self st).1 = CACHE_TTL_MAX).
Proof.
  induction changes as [|c rest IH]; intros self st Hall.
  - simpl. repeat split; auto; try lia. congruence.
  - inversion Hall as [|? ? Hc Hrest]; subst.
    cbn [adjust_ttl_run]. destruct (adjust_ttl c self st) as [self1 st1] eqn:E.
    pose proof (adjust_ttl_quiet c self st Hc) as (Hq & Hlt & Hge).
    rewrite E in Hq, Hlt, Hge. simpl in Hq, Hlt, Hge.
    destruct (IH self1 st1 Hrest) as (IHq & IHlt & IHge).
    rewrite length_cons, Nat2Z.inj_succ.
    split; [lia|]. split.
    + intros. rewrite IHlt by lia. apply Hlt. lia.
    + intros _ Hthree. destruct rest as [|c2 rest'].
      * simpl in *. apply Hge. lia.
      * apply IHge; [done|lia].
Qed.

(** C2.  [adjust_ttl]: with 5 changes or more the TTL becomes the minimum
    and the quiet counter 0; with 2 to 4 changes the TTL becomes the normal
    one and the counter 0; with at most 1 change the counter grows by one
    and the TTL keeps its value unless the counter has reached 3, in which
    case it becomes the maximum.  Hence, counting from a reset counter, the
    TTL is untouched by one or two quiet cycles in a row and is the maximum
    from the third on. *)
Theorem adjust_ttl_hysteresis (changes_detected : Z) (self : SmartCacheManager)
    (st : RequestStats) :
  let self' := (adjust_ttl changes_detected self st).1 in
  (5 ≤ changes_detected →
     cache_ttl self' = CACHE_TTL_MIN ∧ consecutive_quiet_cycles self' = 0)
  ∧ (2 ≤ changes_detected ≤ 4 →
     cache_ttl self' = CACHE_TTL_NORMAL ∧ consecutive_quiet_cycles self' = 0)
  ∧ (changes_detected ≤ 1 →
     consecutive_quiet_cycles self' = consecutive_quiet_cycles self + 1
     ∧ (consecutive_quiet_cycles self' < 3 → cache_ttl self' = cache_ttl self)
     ∧ (3 ≤ consecutive_quiet_cycles self' → cache_ttl self' = CACHE_TTL_MAX))
  ∧ (∀ quiet : list Z,
       Forall (λ c, c ≤ 1) quiet → consecutive_quiet_cycles self = 0 →
       let after := (adjust_ttl_run quiet self st).1 in
       consecutive_quiet_cycles after = Z.of_nat (length quiet)
       ∧ (length quiet < 3 → cache_ttl after = cache_ttl self)%nat
       ∧ (3 ≤ length quiet → cache_ttl after = CACHE_TTL_MAX)%nat).
Proof.
  cbn zeta. split_and!.
  - intros Hc. destruct (adjust_ttl_busy changes_detected self st) as [Hq Ht]; [lia|].
    rewrite Hq, Ht. by destruct (Z.leb_spec 5 changes_detected); [|lia].
  - intros Hc. destruct (adjust_ttl_busy changes_detected self st) as [Hq Ht]; [lia|].
    rewrite Hq, Ht. by destruct (Z.leb_spec 5 changes_detected); [lia|].
  - intros Hc. destruct (adjust_ttl_quiet changes_detected self st Hc) as (Hq & Hlt & Hge).
    rewrite Hq. auto.
  - intros quiet Hall Hzero.
    destruct (adjust_ttl_run_quiet quiet self st Hall) as (Hq & Hlt & Hge).
    rewrite Hzero in *. split_and!.
    + lia.
    + intros. apply Hlt. lia.
    + intros. apply Hge; [|lia]. intros ->. simpl in *. lia.
Qed.

(** From the initial TTL of 90 seconds, two quiet cycles leave the TTL
    alone, the third sets it to 120 seconds, and a cycle with 2 changes
    after them resets the counter. *)
Lemma adjust_ttl_hysteresis_witness :
  cache_ttl (adjust_ttl_run [0; 1] init stats.zero).1 = 90
  ∧ cache_ttl (adjust_ttl_run [0; 1; 0] init stats.zero).1 = 120
  ∧ consecutive_quiet_cycles
      (adjust_ttl 2 (adjust_ttl_run [0; 1; 0] init stats.zero).1 stats.zero).1 = 0.
Proof.
  destruct (adjust_ttl_hysteresis 0 init stats.zero) as (_ & _ & _ & Hrun).
  destruct (adjust_ttl_hysteresis 2 (adjust_ttl_run [0; 1; 0] init stats.zero).1 stats.zero)
    as (_ & Hnormal & _).
  split_and!.
  - destruct (Hrun [0; 1]) as (_ & Hlt & _); [repeat constructor; lia|reflexivity|].
    apply Hlt. simpl. lia.
  - destruct (Hrun [0; 1; 0]) as (_ & _ & Hge); [repeat constructor; lia|reflexivity|].
    apply Hge. simpl. lia.
  - apply Hnormal. lia.
Defined.

(** C3, as the code has it.  A failed [update_cache] with a non-empty last
    good snapshot makes that snapshot the current one and gives the cache
    the timestamp of the last good snapshot, whatever the timestamp was;
    with an absent or empty last good snapshot it changes nothing.  It never
    modifies the last good snapshot or its timestamp, nor the TTL and burst
    state. *)
Theorem update_cache_failure_fallback (new_data : list Account) (now1 now2 : Z)
    (self : SmartCacheManager) :
  let self' := update_cache new_data false now1 now2 self in
  (∀ good, last_successful_cache self = Some good → good ≠ [] →
     cache self' = Some good
     ∧ cache_timestamp self' = last_successful_timestamp self)
  ∧ (list_truthy (last_successful_cache self) = false → self' = self)
  ∧ last_successful_cache self' = last_successful_cache self
  ∧ last_successful_timestamp self' = last_successful_timestamp self
  ∧ cache_ttl self' = cache_ttl self
  ∧ consecutive_quiet_cycles self' = consecutive_quiet_cycles self
  ∧ burst_mode_active self' = burst_mode_active self
  ∧ burst_mode_started self' = burst_mode_started self
  ∧ burst_targets self' = burst_targets self.
Proof.
  cbn zeta. unfold update_cache. split; [|split].
  - intros good Hgood Hne. rewrite Hgood. by destruct good.
  - by intros ->.
  - by destruct (list_truthy (last_successful_cache self)).
Qed.

(** After a fetch at time 100 and an invalidation, a failed update brings
    the snapshot of time 100 back. *)
Lemma update_cache_failure_fallback_witness :
  cache (update_cache [] false 200 200 examples.invalidated) = Some [examples.account7]
  ∧ cache_timestamp (update_cache [] false 200 200 examples.invalidated) = Some 100.
Proof.
  destruct (update_cache_failure_fallback [] 200 200 examples.invalidated) as (Hgood & _).
  apply (Hgood [examples.account7]); [reflexivity|discriminate].
Defined.

(** C3, as the claim states it, fails: once [add_sender] has invalidated
    the cache, a last good snapshot exists and the cache has no timestamp;
    the failed update does not leave the timestamp at that prior value.
    And when the last good snapshot is the empty batch, the failed update
    does not make it the current snapshot. *)
Lemma update_cache_failure_moves_timestamp :
  (last_successful_cache examples.invalidated = Some [examples.account7]
   ∧ cache_timestamp examples.invalidated = None
   ∧ cache_timestamp (update_cache [] false 200 200 examples.invalidated) = Some 100)
  ∧ (last_successful_cache examples.emptied = Some []
     ∧ cache (update_cache [] false 200 200 examples.emptied) = None).
Proof. split_and!; reflexivity. Qed.

(** C4.  [activate_burst_mode] on an active burst keeps the flag and the
    start time (and counts no activation); on an inactive burst it sets the
    flag and stamps the start time with the clock reading; in both cases the
    identifier joins the targets, and activating again for the same
    identifier changes nothing. *)
Theorem activate_burst_mode_idempotent (now : Z) (account_id : string)
    (self : SmartCacheManager) (st : RequestStats) :
  let self' := (activate_burst_mode now account_id self st).1 in
  let st' := (activate_burst_mode now account_id self st).2 in
  (burst_mode_active self = true →
     burst_mode_active self' = true
     ∧ burst_mode_started self' = burst_mode_started self
     ∧ st' = st)
  ∧ (burst_mode_active self = false →
     burst_mode_active self' = true
     ∧ burst_mode_started self' = Some now
     ∧ burst_activations st' = burst_activations st + 1)
  ∧ burst_targets self' = {[account_id]} ∪ burst_targets self
  ∧ account_id ∈ burst_targets self'
  ∧ (∀ later, activate_burst_mode later account_id self' st' = (self', st')).
Proof.
  cbn zeta. unfold activate_burst_mode.
  assert (∀ T : gset string, {[account_id]} ∪ ({[account_id]} ∪ T) = {[account_id]} ∪ T)
    as Hidem.
  { intros T. apply set_eq. intros x. rewrite !elem_of_union. tauto. }
  assert (∀ T : gset string, account_id ∈ {[account_id]} ∪ T) as Hin.
  { intros T. apply elem_of_union_l. by apply elem_of_singleton. }
  destruct (burst_mode_active self) eqn:E; simpl; rewrite ?E; simpl.
  - split_and!; try done. intros _. unfold set_burst; simpl. by rewrite Hidem.
  - split_and!; try done. intros _. unfold set_burst; simpl. by rewrite Hidem.
Qed.

(** Activated for 7 at time 5 and then for 8 at time 9, the burst keeps
    the start time 5 and targets both. *)
Lemma activate_burst_mode_idempotent_witness :
  let first := activate_burst_mode 5 "7" init stats.zero in
  let second := activate_burst_mode 9 "8" first.1 first.2 in
  burst_mode_started first.1 = Some 5
  ∧ burst_mode_started second.1 = Some 5
  ∧ "8" ∈ burst_targets second.1.
Proof.
  destruct (activate_burst_mode_idempotent 5 "7" init stats.zero) as (_ & Hoff & _).
  destruct (activate_burst_mode_idempotent 9 "8"
              (activate_burst_mode 5 "7" init stats.zero).1
              (activate_burst_mode 5 "7" init stats.zero).2) as (Hon & _ & _ & Hin & _).
  cbn zeta. split_and!.
  - apply Hoff. reflexivity.
  - destruct Hon as (_ & -> & _); [reflexivity|]. apply Hoff. reflexivity.
  - exact Hin.
Defined.

Lemma scan_by_id_first account_id : ∀ pre account post,
  id_text account = py_str account_id →
  Forall (λ other, id_text other ≠ py_str account_id) pre →
  scan_by_id account_id (pre ++ account :: post) = Some account.
Proof.
  induction pre as [|b pre IH]; intros account post Heq Hpre; simpl.
  - by rewrite bool_decide_eq_true_2.
  - inversion Hpre; subst. rewrite bool_decide_eq_false_2 by done. by apply IH.
Qed.

Lemma scan_by_id_none account_id : ∀ accounts,
  Forall (λ other, id_text other ≠ py_str account_id) accounts →
  scan_by_id account_id accounts = None.
Proof.
  induction accounts as [|b l IH]; intros Hl; simpl; [done|].
  inversion Hl; subst. rewrite bool_decide_eq_false_2 by done. by apply IH.
Qed.

Lemma scan_by_id_ext a b accounts :
  py_str a = py_str b → scan_by_id a accounts = scan_by_id b accounts.
Proof. intros E. induction accounts as [|x l IH]; simpl; [done|]. by rewrite E, IH. Qed.

(** C10.  [get_account_by_id] returns the first record of the cache whose
    [idAccount], turned into text, is the text of the identifier asked for;
    it returns [None] when the cache is absent or empty or holds no such
    record; identifiers with the same text, such as an integer and its
    decimal string, get the same answer.  Being a total function it never
    raises. *)
Theorem get_account_by_id_spec (account_id : PyVal) (self : SmartCacheManager) :
  (∀ pre account post,
     cache self = Some (pre ++ account :: post) →
     id_text account = py_str account_id →
     Forall (λ other, id_text other ≠ py_str account_id) pre →
     get_account_by_id account_id self = Some account)
  ∧ (cache self = None ∨ cache self = Some []
     ∨ (∃ accounts, cache self = Some accounts
          ∧ Forall (λ other, id_text other ≠ py_str account_id) accounts) →
     get_account_by_id account_id self = None)
  ∧ (∀ other_id, py_str other_id = py_str account_id →
       get_account_by_id other_id self = get_account_by_id account_id self)
  ∧ (∀ n : Z, get_account_by_id (VInt n) self = get_account_by_id (VStr (pretty n)) self).
Proof.
  unfold get_account_by_id. split_and!.
  - intros pre account post -> Heq Hpre.
    replace (list_truthy (Some (pre ++ account :: post))) with true by by destruct pre.
    by apply scan_by_id_first.
  - intros [-> | [-> | (accounts & -> & Hall)]]; [done|done|].
    destruct (list_truthy (Some accounts)); [|done]. by apply scan_by_id_none.
  - intros other_id E. destruct (cache self) as [l|]; [|done].
    destruct (negb _); [done|]. by apply scan_by_id_ext.
  - intros n. destruct (cache self) as [l|]; [|done].
    destruct (negb _); [done|]. by apply scan_by_id_ext.
Qed.

(** In a cache holding a record with the integer identifier 7 and then one
    with the string identifier "7", both 7 and "7" find the first, and 8
    finds nothing. *)
Lemma get_account_by_id_spec_witness :
  let self := update_cache [examples.numbered7; examples.account7] true 0 0 init in
  get_account_by_id (VStr "7") self = Some examples.numbered7
  ∧ get_account_by_id (VInt 7) self = Some examples.numbered7
  ∧ get_account_by_id (VInt 8) self = None.
Proof.
  cbn zeta.
  set (self := update_cache [examples.numbered7; examples.account7] true 0 0 init).
  destruct (get_account_by_id_spec (VStr "7") self) as (Hfirst & _ & Hsame & _).
  destruct (get_account_by_id_spec (VInt 8) self) as (_ & Hnone & _).
  assert (get_account_by_id (VStr "7") self = Some examples.numbered7) as H7.
  { apply (Hfirst [] examples.numbered7 [examples.account7]);
      [reflexivity|reflexivity|constructor]. }
  split_and!.
  - exact H7.
  - rewrite (Hsame (VInt 7)); [exact H7|reflexivity].
  - apply Hnone. right. right. eexists. split; [reflexivity|].
    repeat constructor; vm_compute; discriminate.
Defined.

End CacheProperties.

(** ** The extraction queue *)

Section TakenQueue.
Import taken.

Lemma filter_keep_all {A} (P : A → Prop) `{∀ x, Decision (P x)} (l : list A) :
  Forall P l → filter P l = l.
Proof.
  induction 1 as [|x l Hx Hl IH]; [done|].
  rewrite filter_cons_True by done. by rewrite IH.
Qed.

Lemma filter_drop_all {A} (P : A → Prop) `{∀ x, Decision (P x)} (l : list A) :
  Forall (λ x, ¬ P x) l → filter P l = [].
Proof.
  induction 1 as [|x l Hx Hl IH]; [done|].
  by rewrite filter_cons_False.
Qed.

Lemma Forall_filter_self {A} (P : A → Prop) `{∀ x, Decision (P x)} (l : list A) :
  Forall P (filter P l).
Proof.
  induction l as [|x l IH]; [constructor|].
  destruct (decide (P x)).
  - rewrite filter_cons_True by done. by constructor.
  - by rewrite filter_cons_False.
Qed.

Lemma ids_filter_other account_id (items : list TakenItem) :
  account_id ∉ ids (filter (λ item, id item ≠ account_id) items).
Proof.
  unfold ids. intros Hin. apply list_elem_of_fmap in Hin as (item & Heq & Hitem).
  apply list_elem_of_filter in Hitem as [Hne _]. by apply Hne.
Qed.

Lemma NoDup_ids_filter (P : TakenItem → Prop) `{∀ x, Decision (P x)} items :
  NoDup (ids items) → NoDup (ids (filter P items)).
Proof.
  unfold ids. induction items as [|x l IH]; [done|].
  simpl. rewrite NoDup_cons. intros [Hx Hl].
  destruct (decide (P x)).
  - rewrite filter_cons_True by done. simpl. apply NoDup_cons. split; [|by apply IH].
    intros Hin. apply Hx. apply list_elem_of_fmap in Hin as (y & -> & Hy).
    apply list_elem_of_fmap. exists y. split; [done|].
    by apply list_elem_of_filter in Hy as [_ ?].
  - rewrite filter_cons_False by done. by apply IH.
Qed.

(** [clear_taken_entry] leaves no entry for the identifier and keeps a
    queue without repeated identifiers so. *)
Lemma clear_taken_entry_unique account_id (items : list TakenItem) :
  (account_id ∉ ids (clear_taken_entry account_id items).1)
  ∧ (NoDup (ids items) → NoDup (ids (clear_taken_entry account_id items).1)).
Proof.
  unfold clear_taken_entry.
  destruct (Nat.ltb_spec (length (filter (λ item, id item ≠ account_id) items))
              (length items)) as [Hlt|Hge]; simpl.
  - split; [apply ids_filter_other|by apply NoDup_ids_filter].
  - split; [|done].
    assert (filter (λ item, id item ≠ account_id) items = items) as <-.
    { clear -Hge. induction items as [|x l IH]; [done|].
      destruct (decide (id x ≠ account_id)).
      - rewrite filter_cons_True in * by done. simpl in Hge. f_equal. apply IH. lia.
      - rewrite filter_cons_False in Hge by done. simpl in Hge.
        pose proof (length_filter (λ item, id item ≠ account_id) l). lia. }
    apply ids_filter_other.
Qed.

(** C7.  After [add_to_taken_queue] the queue holds exactly one entry for
    the identifier enqueued, the new one, last in the queue; the entries of
    the other identifiers are the same, in the same order; and a queue
    without two entries for one identifier stays so. *)
Theorem add_to_taken_queue_one_entry (now : Z)
    (account_id email status taken_value : string) (items : list TakenItem) :
  let items' := (add_to_taken_queue now account_id email status taken_value items).1.1 in
  let new_item := {| id := account_id; email := email; status := status;
                     taken := taken_value; added_at := now |} in
  filter (λ item, id item = account_id) items' = [new_item]
  ∧ last items' = Some new_item
  ∧ filter (λ item, id item ≠ account_id) items'
    = filter (λ item, id item ≠ account_id) items
  ∧ (∀ other, other ≠ account_id →
       filter (λ item, id item = other) items' = filter (λ item, id item = other) items)
  ∧ (NoDup (ids items) → NoDup (ids items'))
  ∧ (add_to_taken_queue now account_id email status taken_value items).2 = true.
Proof.
  cbn zeta. simpl. split_and!.
  - rewrite filter_app. rewrite filter_drop_all.
    + by rewrite filter_cons_True.
    + eapply Forall_impl; [apply Forall_filter_self|]. intros x Hx. exact Hx.
  - apply last_snoc.
  - rewrite filter_app, filter_keep_all by apply Forall_filter_self.
    rewrite filter_cons_False by (simpl; tauto).
    by rewrite app_nil_r.
  - intros other Hother. rewrite filter_app, list_filter_filter.
    rewrite filter_cons_False by (simpl; congruence).
    rewrite app_nil_r. apply list_filter_iff. intros x. split; [tauto|].
    intros Hx. split; [done|congruence].
  - intros Hnd. unfold ids. rewrite fmap_app. simpl.
    apply NoDup_app. split; [by apply NoDup_ids_filter|]. split.
    + intros x Hx Hin. apply list_elem_of_singleton in Hin. subst x.
      by apply ids_filter_other in Hx.
    + apply NoDup_singleton.
  - done.
Qed.

(** Account 7 is enqueued with 1500, account 8 with 20, then account 7
    again with 1700: the queue holds 8 and then 7 with 1700. *)
Lemma add_to_taken_queue_one_entry_witness :
  let q1 := (add_to_taken_queue 1 "7" "a@x.com" "AMOUNT_TAKEN" "1500" []).1.1 in
  let q2 := (add_to_taken_queue 2 "8" "b@x.com" "DISABLED" "20" q1).1.1 in
  let q3 := (add_to_taken_queue 3 "7" "a@x.com" "AMOUNT_TAKEN" "1700" q2).1.1 in
  NoDup (ids q3)
  ∧ filter (λ item, id item = "7") q3
    = [{| id := "7"; email := "a@x.com"; status := "AMOUNT_TAKEN";
          taken := "1700"; added_at := 3 |}]
  ∧ ids q3 = ["8"; "7"].
Proof.
  cbn zeta.
  set (q2 := (add_to_taken_queue 2 "8" "b@x.com" "DISABLED" "20"
                (add_to_taken_queue 1 "7" "a@x.com" "AMOUNT_TAKEN" "1500" []).1.1).1.1).
  destruct (add_to_taken_queue_one_entry 3 "7" "a@x.com" "AMOUNT_TAKEN" "1700" q2)
    as (Hone & _ & _ & _ & Hnodup & _).
  split_and!.
  - apply Hnodup. vm_compute. repeat constructor; set_unfold; intuition discriminate.
  - exact Hone.
  - reflexivity.
Defined.

End TakenQueue.

(** ** The reconciliation loop: auto-discovery *)

Section Discovery.
Import py config stats logging core.
Context {builtins : Builtins} {env : Environment}.

Lemma str_truthy_ne s : str_truthy s = true ↔ s ≠ "".
Proof.
  unfold str_truthy. destruct (String.eqb_spec s ""); simpl; split; congruence.
Qed.

Lemma dict_get_set_eq {V} (k : string) (v : V) (d : Dict V) :
  dict_get k (dict_set k v d) = Some v.
Proof.
  induction d as [|[k' v'] d IH]; simpl.
  - by rewrite bool_decide_eq_true_2.
  - destruct (decide (k' = k)) as [->|Hne].
    + rewrite bool_decide_eq_true_2 by done. simpl. by rewrite bool_decide_eq_true_2.
    + rewrite bool_decide_eq_false_2 by done. simpl. by rewrite bool_decide_eq_false_2.
Qed.

Lemma dict_get_set_ne {V} (k k' : string) (v : V) (d : Dict V) :
  k ≠ k' → dict_get k' (dict_set k v d) = dict_get k' d.
Proof.
  intros Hne. induction d as [|[k0 v0] d IH]; simpl.
  - by rewrite bool_decide_eq_false_2.
  - destruct (decide (k0 = k)) as [->|Hne0].
    + rewrite bool_decide_eq_true_2 by done. simpl. by rewrite !bool_decide_eq_false_2.
    + rewrite bool_decide_eq_false_2 by done. simpl. by rewrite IH.
Qed.

Lemma monitored_add_monitored_account e i s c src w :
  ∃ t1 t2, monitored_accounts (add_monitored_account e i s c src w)
  = dict_set (i +:+ "_" +:+ e)
      {| email := e; account_id := i; last_known_status := s; chat_id := c;
         source := src; added_at := t1; last_check := t2 |} (monitored_accounts w).
Proof. unfold add_monitored_account. simpl. eauto. Qed.

Lemma elem_of_existing_ids accounts i :
  i ∈ existing_ids accounts ↔ i ≠ "" ∧ tracked_id accounts i.
Proof.
  unfold existing_ids, tracked_id. rewrite elem_of_list_to_set, list_elem_of_filter.
  rewrite str_truthy_ne, list_elem_of_fmap. split.
  - intros [Hne ([k d] & -> & Hin)]. eauto.
  - intros [Hne (k & d & Hin & <-)]. split; [done|]. by exists (k, d).
Qed.

(** A step of the discovery either skips the record, which then fails one
    of the tests, or adds it. *)
Lemma discover_step_cases G chat ex b w a :
  (discover_step G chat (ex, b, w) a = (ex, b, w)
   ∧ ¬ (admissible G a ∧ record_id a ∉ ex))
  ∨ (admissible G a ∧ (record_id a ∉ ex)
     ∧ ∃ w' d, (discover_step G chat (ex, b, w) a = ({[record_id a]} ∪ ex, true, w'))
        ∧ discovered chat a d
        ∧ monitored_accounts w' = dict_set (record_key a) d (monitored_accounts w)
        ∧ log w' = log w ++ discovery_log a).
Proof.
  unfold discover_step, admissible, record_id, get.
  destruct (a !! "idAccount") as [i|] eqn:Ei.
  2:{ left. split; [done|]. intros [[? _] _]. done. }
  destruct (str_truthy i) eqn:Et; simpl.
  2:{ left. split; [done|]. intros [[Hi _] _]. apply str_truthy_ne in Hi. congruence. }
  destruct (decide (i ∈ ex)).
  { rewrite bool_decide_eq_true_2 by done. simpl. left. split; [done|]. tauto. }
  rewrite bool_decide_eq_false_2 by done. simpl.
  destruct (decide (upper (match a !! "Status" with Some v => v | None => "" end)
                    = "AVAILABLE")) as [Hs|Hs].
  2:{ rewrite bool_decide_eq_true_2 by done. simpl. left. split; [done|]. tauto. }
  rewrite bool_decide_eq_false_2 by tauto. simpl.
  destruct (decide (match a !! "Group" with Some v => v | None => "" end = G)) as [Hg|Hg].
  2:{ rewrite bool_decide_eq_true_2 by done. left. split; [done|]. tauto. }
  rewrite bool_decide_eq_false_2 by tauto.
  right. apply str_truthy_ne in Et. split; [done|]. split; [done|].
  destruct (monitored_add_monitored_account
              (match a !! "Sender" with Some v => v | None => "" end) i "AVAILABLE"
              (chat_or_zero chat) "manual" w) as (t1 & t2 & Hm).
  eexists _, _. split; [reflexivity|]. split_and!.
  2:{ simpl. unfold record_key, record_id, get. rewrite Ei. exact Hm. }
  - unfold discovered, record_id, get. rewrite Ei. done.
  - unfold discovery_log, record_id, get. rewrite Ei. simpl.
    by rewrite <- app_assoc.
Qed.

Lemma discovery_keeps G chat all : ∀ ex b w k d,
  dict_get k (monitored_accounts w) = Some d →
  account_id d ∈ ex →
  (∀ a, a ∈ all → record_key a = k → record_id a = account_id d) →
  dict_get k (monitored_accounts (foldl (discover_step G chat) (ex, b, w) all).2) = Some d.
Proof.
  induction all as [|a rest IH]; intros ex b w k d Hget Hin Hkey; [done|].
  cbn [foldl]. destruct (discover_step_cases G chat ex b w a)
    as [[-> _]|(Ha & Hnew & w' & d' & -> & Hd & Hm & _)].
  - apply IH; [done|done|]. intros. apply Hkey; [by right|done].
  - apply IH.
    + rewrite Hm. rewrite dict_get_set_ne; [done|].
      intros Heq. apply Hnew. rewrite (Hkey a); [done|by left|done].
    + apply elem_of_union. by right.
    + intros. apply Hkey; [by right|done].
Qed.

(** The additions of the discovery, in the order of the batch: one record
    per identifier, the first of the batch that passes the tests with it;
    the log grows by the records of these additions and nothing else. *)
Lemma discovery_trace G chat all : ∀ ex b w,
  ∃ added,
    added `sublist_of` all
    ∧ NoDup (record_id <$> added)
    ∧ log (foldl (discover_step G chat) (ex, b, w) all).2
      = log w ++ concat (discovery_log <$> added)
    ∧ (∀ r', r' ∈ added → first_admissible G all r' ∧ record_id r' ∉ ex)
    ∧ (∀ r, r ∈ all → admissible G r → record_id r ∉ ex →
         ∃ r', r' ∈ added ∧ record_id r' = record_id r
           ∧ (key_injective all →
              ∃ d, discovered chat r' d
                ∧ dict_get (record_key r')
                    (monitored_accounts
                       (foldl (discover_step G chat) (ex, b, w) all).2) = Some d)).
Proof.
  induction all as [|a rest IH]; intros ex b w.
  { exists []. split_and!; [constructor|constructor|by rewrite app_nil_r| |].
    - intros r' Hr'. by apply elem_of_nil in Hr'.
    - intros r Hr. by apply elem_of_nil in Hr. }
  assert (key_injective (a :: rest) → key_injective rest) as Hinj'.
  { intros Hinj a1 a2 H1 H2. apply Hinj; by right. }
  cbn [foldl]. destruct (discover_step_cases G chat ex b w a)
    as [[-> Hno]|(Ha & Hanew & w' & d' & -> & Hd & Hm & Hl)].
  - (* the record is skipped *)
    destruct (IH ex b w) as (added & Hsub & Hnd & Hlog & Hfirst & Hadds).
    exists added. split_and!; [by apply sublist_cons|done|done| |].
    + intros r' Hr'. destruct (Hfirst r' Hr') as [(Hadm & before & after & -> & Hbefore) Hnew].
      split; [|done]. split; [done|]. exists (a :: before), after. split; [done|].
      intros x [->|Hx]%elem_of_cons Hx'; [|by apply Hbefore].
      intros Heq. apply Hno. split; [done|]. by rewrite Heq.
    + intros r [->|Hr]%elem_of_cons Hadm Hnew; [tauto|].
      destruct (Hadds r Hr Hadm Hnew) as (r' & ? & ? & Hstore).
      exists r'. split_and!; [done|done|]. intros Hinj. apply Hstore. by apply Hinj'.
  - (* the record is added *)
    destruct (IH ({[record_id a]} ∪ ex) true w')
      as (added & Hsub & Hnd & Hlog & Hfirst & Hadds).
    exists (a :: added). split_and!.
    + by apply sublist_skip.
    + rewrite fmap_cons. apply NoDup_cons. split; [|done].
      intros (r' & Heq & Hr')%list_elem_of_fmap. destruct (Hfirst r' Hr') as [_ Hout].
      apply Hout. rewrite <- Heq. apply elem_of_union_l. by apply elem_of_singleton.
    + rewrite Hlog, Hl, fmap_cons. cbn [concat]. by rewrite <- app_assoc.
    + intros r' [->|Hr']%elem_of_cons.
      * split; [|done]. split; [done|]. exists [], rest. split; [done|].
        intros x Hx. by apply elem_of_nil in Hx.
      * destruct (Hfirst r' Hr') as [(Hadm & before & after & -> & Hbefore) Hnew].
        split.
        -- split; [done|]. exists (a :: before), after. split; [done|].
           intros x [->|Hx]%elem_of_cons Hx'; [|by apply Hbefore].
           intros Heq. apply Hnew. rewrite <- Heq. apply elem_of_union_l.
           by apply elem_of_singleton.
        -- intros Hin. apply Hnew. by apply elem_of_union_r.
    + intros r Hr Hadm Hnew.
      destruct (decide (record_id r = record_id a)) as [Heq|Hne].
      * exists a. split_and!; [by left|done|].
        intros Hinj. exists d'. split; [done|].
        apply discovery_keeps.
        -- rewrite Hm. apply dict_get_set_eq.
        -- destruct Hd as [-> _]. apply elem_of_union. left. by apply elem_of_singleton.
        -- intros a2 H2 Hk. destruct Hd as [-> _]. apply Hinj; [by right|by left|done].
      * apply elem_of_cons in Hr as [->|Hr]; [done|].
        destruct (Hadds r Hr Hadm) as (r' & ? & ? & Hstore).
        { intros [Hin|Hin]%elem_of_union; [|done]. by apply elem_of_singleton in Hin. }
        exists r'. split_and!; [by right|done|].
        intros Hinj. apply Hstore. by apply Hinj'.
Qed.

(** Every entry found after the discovery was there before or was written
    for an admissible record of the batch. *)
Lemma discovery_sound G chat all : ∀ ex b w k d,
  dict_get k (monitored_accounts (foldl (discover_step G chat) (ex, b, w) all).2) = Some d →
  dict_get k (monitored_accounts w) = Some d
  ∨ ∃ r, r ∈ all ∧ admissible G r ∧ (record_id r ∉ ex) ∧ discovered chat r d
         ∧ k = record_key r.
Proof.
  induction all as [|a rest IH]; intros ex b w k d Hget; [by left|].
  cbn [foldl] in Hget. destruct (discover_step_cases G chat ex b w a)
    as [[E _]|(Ha & Hanew & w' & d' & E & Hd & Hm & _)];
    rewrite E in Hget; apply IH in Hget as [Hget|(r & Hr & Hadm & Hnew & Hdisc & ->)].
  - by left.
  - right. exists r. split; [by right|done].
  - rewrite Hm in Hget. destruct (decide (record_key a = k)) as [<-|Hne].
    + rewrite dict_get_set_eq in Hget. injection Hget as <-.
      right. exists a. split; [by left|done].
    + rewrite dict_get_set_ne in Hget by done. by left.
  - right. exists r. split; [by right|]. split; [done|]. split; [|done].
    intros Hin. apply Hnew. apply elem_of_union. by right.
Qed.

(** C5, as the code has it.  In the discovery step of a cycle, the
    records handed to [add_monitored_account], with the source "manual",
    are a selection [added] of the batch, in its order: the log grows by
    the two records of each of these additions and by nothing else.  No
    two of the selected records share an identifier; each of them has a
    non-empty identifier that no tracked entry carries, an upper-cased
    status AVAILABLE and exactly the default group, and is the first record
    of the batch that passes these tests with its identifier.  Every record
    of the batch that passes them with an untracked identifier has its
    identifier selected, once; when no two records with different
    identifiers share a storage key, the entry of the selected record is
    in the store after the step.  Every entry of the store after the step
    was there before or was written for such a record, and the step of a
    record whose group differs from the default group changes nothing. *)
Theorem auto_discovery_admits (default_group_name : string)
    (default_chat_id : option Z) (all_accounts : list AccountInfo) (w : World) :
  let w' := (auto_discovery default_group_name default_chat_id all_accounts w).2 in
  (∃ added,
      added `sublist_of` all_accounts
      ∧ NoDup (record_id <$> added)
      ∧ log w' = log w ++ concat (discovery_log <$> added)
      ∧ (∀ r', r' ∈ added →
           first_admissible default_group_name all_accounts r'
           ∧ ¬ tracked_id (monitored_accounts w) (record_id r'))
      ∧ (∀ r, r ∈ all_accounts → admissible default_group_name r →
              ¬ tracked_id (monitored_accounts w) (record_id r) →
           ∃ r', r' ∈ added ∧ record_id r' = record_id r
             ∧ (key_injective all_accounts →
                ∃ d, discovered default_chat_id r' d
                     ∧ dict_get (record_key r') (monitored_accounts w') = Some d)))
  ∧ (∀ k d, dict_get k (monitored_accounts w') = Some d →
       dict_get k (monitored_accounts w) = Some d
       ∨ ∃ r, r ∈ all_accounts ∧ admissible default_group_name r
              ∧ ¬ tracked_id (monitored_accounts w) (record_id r)
              ∧ discovered default_chat_id r d ∧ k = record_key r)
  ∧ (∀ st account, get account "Group" "" ≠ default_group_name →
       discover_step default_group_name default_chat_id st account = st).
Proof.
  cbn zeta. unfold auto_discovery, load_monitored_accounts. split_and!.
  - destruct (discovery_trace default_group_name default_chat_id all_accounts
                (existing_ids (monitored_accounts w)) false w)
      as (added & Hsub & Hnd & Hlog & Hfirst & Hadds).
    exists added. split_and!; try done.
    + intros r' Hr'. destruct (Hfirst r' Hr') as [Hf Hnew]. split; [done|].
      intros Htr. apply Hnew. apply elem_of_existing_ids. split; [|done].
      by destruct Hf as [[? _] _].
    + intros r Hr Hadm Hnew. apply Hadds; [done|done|].
      rewrite elem_of_existing_ids. tauto.
  - intros k d Hget. apply discovery_sound in Hget
      as [Hget|(r & Hr & Hadm & Hnew & Hdisc & ->)]; [by left|].
    right. exists r. split_and!; try done.
    intros Htr. apply Hnew. apply elem_of_existing_ids. split; [|done]. by destruct Hadm.
  - intros [[ex b] w0] account Hg.
    destruct (discover_step_cases default_group_name default_chat_id ex b w0 account)
      as [[-> _]|(Ha & _)]; [done|].
    destruct Ha as (_ & _ & Hgrp). done.
Qed.

End Discovery.

(** With the default group "G", the untracked AVAILABLE account 10 of
    group "G" is tracked after the discovery, with the source "manual";
    the AVAILABLE account 9 of the group "OTHER" is not. *)
Lemma auto_discovery_admits_witness :
  let w' := (core.auto_discovery (builtins := py.ascii_builtins) (env := examples.env)
               "G" None [examples.record9; examples.record10] examples.world0).2 in
  (∃ d, core.dict_get "10_ten@x.com" (core.monitored_accounts w') = Some d
        ∧ core.source d = "manual")
  ∧ core.dict_get "9_nine@x.com" (core.monitored_accounts w') = None.
Proof.
  cbn zeta.
  destruct (auto_discovery_admits (builtins := py.ascii_builtins) (env := examples.env)
              "G" None [examples.record9; examples.record10] examples.world0)
    as ((added & Hsub & _ & _ & _ & Hadds) & _ & _).
  split; [|reflexivity].
  destruct (Hadds examples.record10) as (r' & Hr' & Hid & Hstore).
  - apply elem_of_cons. right. by apply elem_of_cons; left.
  - split_and!; [discriminate|reflexivity|reflexivity].
  - intros (k & d & Hin & _). by apply elem_of_nil in Hin.
  - destruct Hstore as (d & (_ & _ & _ & _ & Hsrc) & Hget).
    + intros a1 a2 H1 H2 Hk.
      apply elem_of_cons in H1 as [->|H1]; [|apply list_elem_of_singleton in H1 as ->];
        (apply elem_of_cons in H2 as [->|H2]; [|apply list_elem_of_singleton in H2 as ->]);
        first [reflexivity | vm_compute in Hk; discriminate].
    + exists d. split; [|exact Hsrc].
      pose proof (elem_of_sublist _ _ _ Hr' Hsub) as Hin.
      apply elem_of_cons in Hin as [->|Hin].
      { vm_compute in Hid. discriminate. }
      apply list_elem_of_singleton in Hin as ->. exact Hget.
Defined.

(** C5, as the claim states it, fails twice.  The untracked record
    without an identifier is AVAILABLE in the default group, and the
    discovery tracks nothing.  And of two untracked AVAILABLE records of
    the default group whose identifiers 1 and 1_2 differ and whose storage
    keys coincide, the store holds one entry after the step, that of the
    second: no tracked record carries the identifier 1. *)
Lemma auto_discovery_skips_empty_id :
  (py.upper (Builtins := py.ascii_builtins) (py.get examples.nameless "Status" "")
     = "AVAILABLE"
   ∧ py.get examples.nameless "Group" "" = "G"
   ∧ core.monitored_accounts
       (core.auto_discovery (builtins := py.ascii_builtins) (env := examples.env)
          "G" None [examples.nameless] examples.world0).2 = [])
  ∧ (core.record_id examples.short_id = "1"
     ∧ core.record_id examples.long_id = "1_2"
     ∧ core.record_key examples.short_id = core.record_key examples.long_id
     ∧ py.upper (Builtins := py.ascii_builtins) (py.get examples.short_id "Status" "")
       = "AVAILABLE"
     ∧ py.get examples.short_id "Group" "" = "G"
     ∧ core.account_id <$>
         (core.monitored_accounts
            (core.auto_discovery (builtins := py.ascii_builtins) (env := examples.env)
               "G" None [examples.short_id; examples.long_id] examples.world0).2).*2
       = ["1_2"]).
Proof. split; split_and!; reflexivity. Qed.

(** ** The reconciliation loop: a status change to an extraction status *)

Section Reconcile.
Import py config stats logging core.
Context {builtins : Builtins} {env : Environment}.

Lemma update_first_found i s t accounts :
  tracked_id accounts i →
  ∃ accounts', update_first i s t accounts = Some accounts'
    ∧ ∃ k d, (k, d) ∈ accounts' ∧ account_id d = i ∧ last_known_status d = s.
Proof.
  intros (k & d & Hin & Hid). induction accounts as [|[k0 d0] rest IH].
  { by apply elem_of_nil in Hin. }
  simpl. destruct (decide (account_id d0 = i)) as [E|E].
  - rewrite bool_decide_eq_true_2 by done. eexists. split; [done|].
    eexists k0, _. split; [by left|]. done.
  - rewrite bool_decide_eq_false_2 by done.
    apply elem_of_cons in Hin as [Heq|Hin]; [congruence|].
    destruct (IH Hin) as (acc' & -> & k1 & d1 & Hin1 & ? & ?).
    eexists. split; [done|]. exists k1, d1. split; [by right|done].
Qed.

Lemma update_status_tracked i s w :
  tracked_id (monitored_accounts w) i →
  let w' := update_monitored_account_status i s w in
  (∃ k d, (k, d) ∈ monitored_accounts w' ∧ account_id d = i ∧ last_known_status d = s)
  ∧ log w' = log w ∧ outbox w' = outbox w ∧ taken_queue w' = taken_queue w.
Proof.
  intros Htr. cbn zeta. unfold update_monitored_account_status, load_monitored_accounts.
  destruct (update_first_found i s (clock (ticks w)) _ Htr) as (acc' & -> & Hex).
  done.
Qed.

Lemma send_status_notification_effect e i old new c src w :
  let w' := send_status_notification e i old new c src w in
  log w' = log w ++ notification_log e c w
  ∧ monitored_accounts w' = monitored_accounts w
  ∧ taken_queue w' = taken_queue w
  ∧ (c ≠ 0 → send_message_fails (length (outbox w)) = false →
       outbox w' = outbox w ++ [{| n_chat_id := c; n_email := e; n_account_id := i;
                                   n_old_status := old; n_new_status := new;
                                   n_source := src |}]).
Proof.
  cbn zeta. unfold send_status_notification, notification_log.
  destruct (Z.eqb_spec c 0) as [->|Hc]; [done|].
  destruct (send_message_fails (length (outbox w))); simpl; [done|].
  by rewrite app_nil_r.
Qed.

(** The end of the branch of a changed status: the new status is stored
    and the notification is sent. *)
Lemma persist_and_notify (data : Tracked) old new w :
  tracked_id (monitored_accounts w) (account_id data) →
  let w' := send_status_notification (email data) (account_id data) old new
              (chat_id data) (source data)
              (update_monitored_account_status (account_id data) new w) in
  (∃ k d, (k, d) ∈ monitored_accounts w'
     ∧ account_id d = account_id data ∧ last_known_status d = new)
  ∧ log w' = log w ++ notification_log (email data) (chat_id data) w
  ∧ taken_queue w' = taken_queue w
  ∧ (chat_id data ≠ 0 → send_message_fails (length (outbox w)) = false →
       outbox w' = outbox w
         ++ [{| n_chat_id := chat_id data; n_email := email data;
                n_account_id := account_id data; n_old_status := old;
                n_new_status := new; n_source := source data |}]).
Proof.
  intros Htr. cbn zeta.
  destruct (update_status_tracked (account_id data) new w Htr)
    as ((k & d & Hin & Hd1 & Hd2) & Hl & Ho & Ht).
  destruct (send_status_notification_effect (email data) (account_id data) old new
              (chat_id data) (source data)
              (update_monitored_account_status (account_id data) new w))
    as (Hl' & Hm' & Ht' & Ho').
  split_and!.
  - exists k, d. by rewrite Hm'.
  - rewrite Hl', Hl. unfold notification_log. by rewrite Ho.
  - by rewrite Ht', Ht.
  - intros Hc Hs. rewrite Ho' by (done || by rewrite Ho). by rewrite Ho.
Qed.

(** A turn of the loop whose body ends without an exception does not
    enter the handler of [except Exception]. *)
Lemma check_step_of_run accounts_by_id data key st st' :
  check_account accounts_by_id data st = (inr (), st') →
  check_step accounts_by_id st (key, data) = st'.
Proof. unfold check_step, try_except. simpl. by intros ->. Qed.

Lemma ex_and_insert {A} (P Q R : A → Prop) :
  (∀ x, P x → Q x) → (∃ x, P x ∧ R x) → ∃ x, P x ∧ Q x ∧ R x.
Proof. intros HPQ (x & HP & HR). exists x. auto. Qed.

(** C6, as the code has it.  When the status of a tracked record changes
    to AMOUNT TAKEN or DISABLED, the body of the loop ends without an
    exception, so that the turn does not enter the handler of the loop, and
    counts the change.  The item carrying the Taken value is
    enqueued exactly when [float] of that value is positive.  When [float]
    raises, the enqueue is skipped and a warning is logged; when the value
    is a number that is not positive, the enqueue is skipped and nothing is
    logged about it.  In all three cases the new status is stored in the
    tracked entry of that identifier and the notification is sent (logged
    as skipped for a record without chat, as failed when Telegram raises). *)
Theorem check_account_extraction (accounts_by_id : gmap string AccountInfo)
    (data : Tracked) (info : AccountInfo) (changes : Z) (w : World) :
  let current_status := upper (get info "Status" "غير محدد") in
  let last_status := upper (last_known_status data) in
  let taken_value := get info "Taken" "0" in
  let changed := (INFO, StatusChanged (email data) last_status current_status) in
  account_id data ≠ "" →
  accounts_by_id !! account_id data = Some info →
  info ≠ ∅ →
  current_status ≠ last_status →
  current_status = "AMOUNT TAKEN" ∨ current_status = "DISABLED" →
  tracked_id (monitored_accounts w) (account_id data) →
  ∃ w', check_account accounts_by_id data (changes, w) = (inr (), (changes + 1, w'))
    ∧ (∀ key, check_step accounts_by_id (changes, w) (key, data) = (changes + 1, w'))
    ∧ (float_positive taken_value = Some true →
         (∃ t, taken_queue w'
           = filter (λ item, taken.id item ≠ account_id data) (taken_queue w)
             ++ [{| taken.id := account_id data; taken.email := email data;
                    taken.status := replace_char " " "_" current_status;
                    taken.taken := taken_value; taken.added_at := t |}])
         ∧ log w' = log w
             ++ [changed;
                 (INFO, TakenDetected current_status (email data) taken_value);
                 (INFO, TakenQueued (email data) (account_id data)
                          (replace_char " " "_" current_status) taken_value)]
             ++ notification_log (email data) (chat_id data) w)
    ∧ (float_positive taken_value = Some false →
         taken_queue w' = taken_queue w
         ∧ log w' = log w ++ [changed] ++ notification_log (email data) (chat_id data) w)
    ∧ (float_positive taken_value = None →
         taken_queue w' = taken_queue w
         ∧ log w' = log w
             ++ [changed; (WARNING, InvalidTaken (email data) taken_value)]
             ++ notification_log (email data) (chat_id data) w)
    ∧ (∃ k d, (k, d) ∈ monitored_accounts w'
         ∧ account_id d = account_id data ∧ last_known_status d = current_status)
    ∧ (chat_id data ≠ 0 → send_message_fails (length (outbox w)) = false →
         outbox w' = outbox w
           ++ [{| n_chat_id := chat_id data; n_email := email data;
                  n_account_id := account_id data; n_old_status := last_status;
                  n_new_status := current_status; n_source := source data |}]).
Proof.
  intros current_status last_status taken_value changed Hid Hinfo Hne Hchg Hext Htr.
  apply (ex_and_insert
           (λ w', check_account accounts_by_id data (changes, w)
                  = (inr (), (changes + 1, w')))
           (λ w', ∀ key, check_step accounts_by_id (changes, w) (key, data)
                         = (changes + 1, w'))).
  { intros w' Hrun key. by apply check_step_of_run. }
  unfold check_account.
  rewrite (proj2 (str_truthy_ne _) Hid).
  rewrite Hinfo. unfold dict_truthy. rewrite bool_decide_eq_true_2 by done.
  fold current_status last_status.
  rewrite bool_decide_eq_true_2 by done.
  assert (bool_decide (current_status ∈ ["BACKUP CODE WRONG"; "WRONG DETAILS"]) = false)
    as Hb1 by (destruct Hext as [-> | ->]; reflexivity).
  assert (bool_decide (current_status = "TRANSFER LIST IS FULL") = false)
    as Hb2 by (destruct Hext as [-> | ->]; reflexivity).
  assert (bool_decide (current_status ∈ ["AMOUNT TAKEN"; "DISABLED"]) = true)
    as Hb3 by (destruct Hext as [-> | ->]; reflexivity).
  rewrite Hb1, Hb2. unfold enqueue_taken. rewrite Hb3.
  fold taken_value. unfold float_gt_zero.
  destruct (float_positive taken_value) as [[|]|] eqn:Hf;
    unfold mbind, M_bind, mret, M_ret, count_change, on_world, try_except_value_type, raise;
    cbn -[logger add_to_taken_queue update_monitored_account_status send_status_notification].
  all: match goal with
       | |- ∃ w', (inr (), (_, send_status_notification _ _ ?old ?new _ _
                              (update_monitored_account_status _ _ ?W))) = _ ∧ _ =>
           eexists; split; [reflexivity|];
           destruct (persist_and_notify data old new W Htr) as (Hp & Hl & Ht & Ho)
       end.
  all: split_and!; try (intros; congruence); try exact Hp; try exact Ho.
  all: intros _; rewrite Ht, Hl; simpl; rewrite <- ?app_assoc; eauto.
Qed.

End Reconcile.

(** Account 7, tracked as AVAILABLE, shows AMOUNT TAKEN with 1500 taken:
    the turn ends normally and the queue holds the item with 1500. *)
Lemma check_account_extraction_witness :
  let run := core.check_account (builtins := py.ascii_builtins) (env := examples.env)
               (core.index_by_id [examples.taken1500]) examples.tracked7
               (0, examples.world7) in
  run.1 = inr ()
  ∧ ∃ t, core.taken_queue run.2.2
         = [{| taken.id := "7"; taken.email := "a@x.com";
               taken.status := "AMOUNT_TAKEN"; taken.taken := "1500";
               taken.added_at := t |}].
Proof.
  cbn zeta.
  destruct (check_account_extraction (builtins := py.ascii_builtins) (env := examples.env)
              (core.index_by_id [examples.taken1500]) examples.tracked7
              examples.taken1500 0 examples.world7)
    as (w' & Hrun & _ & Hpos & _).
  - discriminate.
  - reflexivity.
  - intros E. apply (f_equal (λ m : gmap string string, m !! "Taken")) in E.
    vm_compute in E. discriminate.
  - vm_compute. discriminate.
  - left. reflexivity.
  - exists "7_a@x.com", examples.tracked7. split; [apply list_elem_of_here|reflexivity].
  - rewrite Hrun. split; [reflexivity|]. apply Hpos. reflexivity.
Defined.

(** C6, as the claim states it, fails: with the Taken value "0", which is
    a number and not positive, the enqueue is skipped and the only record
    logged in the turn is the one of the status change, which precedes the
    test; no record tells of the skip. *)
Lemma nonpositive_taken_skipped_silently :
  let run := core.check_account (builtins := py.ascii_builtins) (env := examples.env)
               (core.index_by_id [examples.taken0]) examples.tracked7
               (0, examples.world7) in
  py.float_positive (Builtins := py.ascii_builtins) "0" = Some false
  ∧ run.1 = inr ()
  ∧ core.taken_queue run.2.2 = []
  ∧ core.log run.2.2
    = [(logging.INFO, logging.StatusChanged "a@x.com" "AVAILABLE" "DISABLED")].
Proof. split_and!; reflexivity. Qed.

(** ** The watch session *)

Section Session.
Import py config stats logging core.
Context {builtins : Builtins} {env : Environment}.

Lemma expiry_fired_later w0 w w' :
  expiry_fired w0 w → (ticks w ≤ ticks w')%nat → expiry_fired w0 w'.
Proof.
  intros (started & n & Hon & Hst & Hn & Hge) Hle.
  exists started, n. split_and!; try done; lia.
Qed.

Lemma untouched_or_fired_trans w0 w1 w2 :
  untouched_or_fired w0 w1 → untouched_or_fired w1 w2 → untouched_or_fired w0 w2.
Proof.
  intros [Ht1 H1] [Ht2 H2]. split; [lia|].
  destruct H1 as [E1|[E1 F1]], H2 as [E2|[E2 (started & n & Hon & Hst & Hn & Hge)]].
  - left. congruence.
  - right. split; [congruence|]. exists started, n. rewrite <- E1.
    split_and!; try done; lia.
  - right. split; [congruence|]. by eapply expiry_fired_later.
  - rewrite E1 in Hon. done.
Qed.

Lemma check_burst_mode_fired w w1 :
  check_burst_mode w = Some w1 → untouched_or_fired w w1.
Proof.
  unfold check_burst_mode, untouched_or_fired, expiry_fired.
  destruct (api_manager.burst_mode_active (smart_cache w)) eqn:Ea; simpl.
  2:{ intros [= <-]. auto. }
  unfold api_manager.check_burst_mode. simpl. rewrite Ea. simpl.
  destruct (api_manager.burst_mode_started (smart_cache w)) as [st|]; simpl; [|done].
  destruct (api_manager.seconds_ge _ _) eqn:Ege; simpl; intros [= <-]; simpl.
  - split; [lia|]. right. split; [done|]. exists st, (ticks w).
    split_and!; try done; lia.
  - split; [lia|]. by left.
Qed.

Lemma check_burst_mode_consistent w :
  api_manager.burst_consistent (smart_cache w) →
  ∃ w1, check_burst_mode w = Some w1
    ∧ api_manager.burst_consistent (smart_cache w1)
    ∧ monitored_accounts w1 = monitored_accounts w.
Proof.
  unfold check_burst_mode, api_manager.burst_consistent. intros Hc.
  destruct (api_manager.burst_mode_active (smart_cache w)) eqn:Ea; simpl.
  2:{ eexists. split; [done|]. split; [|done]. by rewrite Ea. }
  destruct (Hc eq_refl) as [st Hst].
  unfold api_manager.check_burst_mode. simpl. rewrite Ea, Hst. simpl.
  destruct (api_manager.seconds_ge _ _); simpl; eexists; (split; [done|]);
    simpl; split; done.
Qed.

Lemma admission_keeps_cache e i s info chat G w :
  smart_cache (monitor_if_admissible e i s info chat G w) = smart_cache w.
Proof. unfold monitor_if_admissible. repeat case_bool_decide; done. Qed.

Lemma admission_ticks e i s info chat G w :
  (ticks w ≤ ticks (monitor_if_admissible e i s info chat G w))%nat.
Proof.
  unfold monitor_if_admissible, add_monitored_account.
  repeat case_bool_decide; simpl; lia.
Qed.

(** An attempt that does not return leaves the burst state alone, unless
    its expiry check fires; one that returns cancels the burst state that
    its expiry check left. *)
Lemma burst_attempt_fired c email i chat G n loc w r loc' w' :
  burst_attempt c email i chat G n loc w = (r, loc', w') →
  match r with
  | None => untouched_or_fired w w'
  | Some _ => ∃ w1, untouched_or_fired w w1 ∧ (ticks w1 ≤ ticks w')%nat
                    ∧ smart_cache w' = api_manager.cancelled i (smart_cache w1)
  end.
Proof.
  unfold burst_attempt.
  destruct (check_burst_mode w) as [w1|] eqn:Ec.
  2:{ intros [= <- <- <-]. split; [done|]. by left. }
  apply check_burst_mode_fired in Ec as Hr.
  destruct (search_sender_by_id c n) as [|[info|]].
  1,3: intros [= <- <- <-]; exact Hr.
  destruct (dict_truthy info); simpl.
  2:{ intros [= <- <- <-]; exact Hr. }
  set (status := upper (get info "Status" "غير محدد")).
  assert (∀ w2 : World, smart_cache w2 = smart_cache w1 → ticks w2 = ticks w1 →
            untouched_or_fired w w2) as Hsame.
  { intros w2 Hc Ht. destruct Hr as [Hle Hr]. split; [lia|].
    rewrite Hc. destruct Hr as [?|[? ?]]; [by left|right].
    split; [done|]. eapply expiry_fired_later; [done|lia]. }
  destruct (bool_decide (Some status ≠ last_status loc)); simpl.
  - destruct (edit_text c n).
    { intros [= <- <- <-]. destruct (last_status loc) as [l|]; [|by apply Hsame].
      destruct (_ && _); by apply Hsame. }
    destruct (bool_decide (status ∈ FINAL_STATUSES)).
    + intros [= <- <- <-].
      match goal with
      | |- ∃ _, _ ∧ _ ∧ smart_cache (discard_target _ (deactivate_burst
                           (monitor_if_admissible _ _ _ _ _ _ ?w0))) = _ => exists w0
      end.
      split; [|split; [apply admission_ticks|simpl; by rewrite admission_keeps_cache]].
      destruct (last_status loc) as [l|]; [|by apply Hsame].
      destruct (_ && _); by apply Hsame.
    + intros [= <- <- <-]. destruct (last_status loc) as [l|]; [|by apply Hsame].
      destruct (_ && _); by apply Hsame.
  - destruct (edit_text c n).
    { intros [= <- <- <-]. exact Hr. }
    destruct (bool_decide (status ∈ FINAL_STATUSES)).
    + intros [= <- <- <-].
      match goal with
      | |- ∃ _, _ ∧ _ ∧ smart_cache (discard_target _ (deactivate_burst
                           (monitor_if_admissible _ _ _ _ _ _ ?w0))) = _ => exists w0
      end.
      split; [|split; [apply admission_ticks|simpl; by rewrite admission_keeps_cache]].
      by apply Hsame.
    + intros [= <- <- <-]. exact Hr.
Qed.

Lemma burst_loop_fired c email i chat G fuel : ∀ n loc w r loc' w',
  burst_loop c email i chat G fuel n loc w = (r, loc', w') →
  match r with
  | None => untouched_or_fired w w'
  | Some _ => ∃ w1, untouched_or_fired w w1 ∧ (ticks w1 ≤ ticks w')%nat
                    ∧ smart_cache w' = api_manager.cancelled i (smart_cache w1)
  end.
Proof.
  induction fuel as [|fuel IH]; intros n loc w r loc' w'; simpl.
  { intros [= <- <- <-]. split; [done|]. by left. }
  destruct (burst_attempt c email i chat G n loc w) as [[[r1|] loc1] w1] eqn:Ea.
  - intros [= <- <- <-]. by apply burst_attempt_fired in Ea.
  - apply burst_attempt_fired in Ea. intros El. apply IH in El.
    destruct r.
    + destruct El as (w2 & Hr & Ht & Hc). exists w2. split; [|done].
      by eapply untouched_or_fired_trans.
    + by eapply untouched_or_fired_trans.
Qed.

Lemma timed_out_cache email i chat G loc w :
  i ≠ "" →
  smart_cache (timed_out email i chat G loc w).2
  = api_manager.cancelled i (smart_cache w).
Proof.
  intros Hi. unfold timed_out. rewrite (proj2 (str_truthy_ne i) Hi).
  destruct (account_info loc) as [info|]; [|done].
  destruct (dict_truthy info); [|done]. simpl. by rewrite admission_keeps_cache.
Qed.

Lemma timed_out_inactive email i chat G loc w :
  api_manager.burst_mode_active (smart_cache (timed_out email i chat G loc w).2) = false.
Proof.
  unfold timed_out.
  destruct (account_info loc) as [info|]; [destruct (dict_truthy info)|];
    simpl; rewrite ?admission_keeps_cache; by destruct (str_truthy i).
Qed.

Lemma timed_out_ticks email i chat G loc w :
  (ticks w ≤ ticks (timed_out email i chat G loc w).2)%nat.
Proof.
  unfold timed_out.
  assert (∀ w0 : World, ticks (if str_truthy i then discard_target i w0 else w0) = ticks w0)
    as Hd by (intros; by destruct (str_truthy i)).
  destruct (account_info loc) as [info|]; [destruct (dict_truthy info)|]; simpl.
  - etransitivity; [|apply admission_ticks]. by rewrite Hd.
  - by rewrite Hd.
  - by rewrite Hd.
Qed.

(** However the burst monitoring ends, it cancels the burst state that
    its expiry checks left. *)
Lemma burst_monitoring_fired (c : Collaborators) (email account_id : string)
    (chat_id : Z) (default_group_name : string) (found : AccountInfo) (w : World) :
  account_id ≠ "" →
  let w' := (burst_monitoring c email account_id chat_id default_group_name found w).2 in
  ∃ w1, untouched_or_fired w w1 ∧ (ticks w1 ≤ ticks w')%nat
    ∧ smart_cache w' = api_manager.cancelled account_id (smart_cache w1).
Proof.
  intros Hid. cbn zeta. unfold burst_monitoring.
  destruct (burst_loop _ _ _ _ _ _ _ _ _) as [[[r|] loc] w1] eqn:El;
    apply burst_loop_fired in El.
  - destruct El as (w2 & Hr & Ht & Hc). by exists w2.
  - exists w1. split; [done|]. split; [apply timed_out_ticks|by apply timed_out_cache].
Qed.

(** The burst state that ends a session: the flag is off and the
    identifier is out of the targets; the other targets and the start time
    are kept, unless an expiry check of the session fired. *)
Lemma burst_monitoring_ends (c : Collaborators) (email account_id : string)
    (chat_id : Z) (default_group_name : string) (found : AccountInfo) (w : World) :
  account_id ≠ "" →
  let w' := (burst_monitoring c email account_id chat_id default_group_name found w).2 in
  api_manager.burst_mode_active (smart_cache w') = false
  ∧ (account_id ∉ api_manager.burst_targets (smart_cache w'))
  ∧ ((api_manager.burst_targets (smart_cache w')
        = api_manager.burst_targets (smart_cache w) ∖ {[account_id]}
      ∧ api_manager.burst_mode_started (smart_cache w')
        = api_manager.burst_mode_started (smart_cache w))
     ∨ (api_manager.burst_targets (smart_cache w') = ∅
        ∧ api_manager.burst_mode_started (smart_cache w') = None
        ∧ expiry_fired w w')).
Proof.
  intros Hid. cbn zeta.
  destruct (burst_monitoring_fired c email account_id chat_id default_group_name found w Hid)
    as (w1 & [Hle Hr] & Ht & ->).
  assert (∀ T : gset string, account_id ∉ T ∖ {[account_id]}) as Hout.
  { intros T [_ Hn]%elem_of_difference. apply Hn. by apply elem_of_singleton. }
  split_and!; [done|apply Hout|].
  destruct Hr as [->|[-> Hf]]; [by left|right]. simpl. split_and!; [|done|].
  - apply set_eq. intros x. rewrite elem_of_difference.
    split; [intros [Hx _]|intros Hx]; by apply not_elem_of_empty in Hx.
  - by eapply expiry_fired_later.
Qed.

Lemma check_burst_mode_inactive w :
  api_manager.burst_mode_active (smart_cache w) = false → check_burst_mode w = Some w.
Proof. unfold check_burst_mode. by intros ->. Qed.

(** The first expiry check of the burst monitoring fires when it reads the
    clock [BURST_MODE_DURATION] seconds or more after the start. *)
Lemma check_burst_mode_fires w started :
  api_manager.burst_mode_active (smart_cache w) = true →
  api_manager.burst_mode_started (smart_cache w) = Some started →
  api_manager.seconds_ge (clock (ticks w) - started) BURST_MODE_DURATION = true →
  ∃ w1, check_burst_mode w = Some w1
    ∧ smart_cache w1 = api_manager.expired (smart_cache w).
Proof.
  intros Hon Hst Hge. unfold check_burst_mode, api_manager.check_burst_mode. simpl.
  rewrite Hon. simpl. rewrite Hst, Hge. simpl. by eexists.
Qed.

Lemma burst_attempt_checked c email i chat G n loc w w1 :
  check_burst_mode w = Some w1 →
  api_manager.burst_mode_active (smart_cache w1) = false →
  burst_attempt c email i chat G n loc w = burst_attempt c email i chat G n loc w1.
Proof.
  intros Hc Hoff. unfold burst_attempt.
  by rewrite Hc, (check_burst_mode_inactive w1 Hoff).
Qed.

Lemma untouched_inactive w0 w :
  api_manager.burst_mode_active (smart_cache w0) = false →
  untouched_or_fired w0 w → smart_cache w = smart_cache w0.
Proof.
  intros Hoff [_ [?|[_ (started & n & Hon & _)]]]; [done|]. congruence.
Qed.

(** When the first expiry check of the burst monitoring reads the clock
    [BURST_MODE_DURATION] seconds or more after the start, the session
    ends with no target and no start time. *)
Lemma burst_monitoring_first_check (c : Collaborators) (email account_id : string)
    (chat_id : Z) (default_group_name : string) (found : AccountInfo) (w : World)
    (started : Time) :
  account_id ≠ "" →
  api_manager.burst_mode_active (smart_cache w) = true →
  api_manager.burst_mode_started (smart_cache w) = Some started →
  api_manager.seconds_ge (clock (ticks w) - started) BURST_MODE_DURATION = true →
  let w' := (burst_monitoring c email account_id chat_id default_group_name found w).2 in
  api_manager.burst_targets (smart_cache w') = ∅
  ∧ api_manager.burst_mode_started (smart_cache w') = None.
Proof.
  intros Hid Hon Hst Hge. cbn zeta. unfold burst_monitoring.
  set (w0 := logger INFO (StartingBurst email account_id) w).
  set (loc := {| last_status := None; account_info := Some found |}).
  destruct (check_burst_mode_fires w0 started Hon Hst Hge) as (w1 & Hc & Hexp).
  assert (api_manager.burst_mode_active (smart_cache w1) = false) as Hoff
    by (by rewrite Hexp).
  assert (burst_loop c email account_id chat_id default_group_name max_attempts 1 loc w0
          = burst_loop c email account_id chat_id default_group_name max_attempts 1 loc w1)
    as ->.
  { change max_attempts with (S 39). cbn [burst_loop].
    by rewrite (burst_attempt_checked _ _ _ _ _ _ _ w0 w1 Hc Hoff). }
  assert (∀ c1, c1 = smart_cache w1 →
            api_manager.burst_targets (api_manager.cancelled account_id c1) = ∅
            ∧ api_manager.burst_mode_started (api_manager.cancelled account_id c1) = None)
    as Hend.
  { intros c1 ->. rewrite Hexp. simpl. split; [|done].
    apply set_eq. intros x. rewrite elem_of_difference.
    split; [intros [Hx _]|intros Hx]; by apply not_elem_of_empty in Hx. }
  destruct (burst_loop _ _ _ _ _ _ _ _ _) as [[[r|] loc'] w2] eqn:El;
    apply burst_loop_fired in El.
  - destruct El as (w3 & Hr & _ & Hc3). simpl. rewrite Hc3. apply Hend.
    by apply untouched_inactive.
  - rewrite timed_out_cache by done. apply Hend. by apply untouched_inactive.
Qed.

Lemma burst_attempt_keeps_going c email i chat G n loc w :
  api_manager.burst_consistent (smart_cache w) →
  keeps_going c n = true →
  ∃ loc' w', burst_attempt c email i chat G n loc w = (None, loc', w')
    ∧ account_info loc' = match search_sender_by_id c n with
                          | Returns answer => answer
                          | Raises => account_info loc
                          end
    ∧ api_manager.burst_consistent (smart_cache w')
    ∧ monitored_accounts w' = monitored_accounts w.
Proof.
  intros Hc Hk. unfold burst_attempt.
  destruct (check_burst_mode_consistent w Hc) as (w1 & -> & Hc1 & Hm1).
  unfold keeps_going in Hk.
  destruct (search_sender_by_id c n) as [|[info|]].
  1,3: by eexists _, _.
  destruct (dict_truthy info); simpl in *.
  2:{ by eexists _, _. }
  set (status := upper (get info "Status" "غير محدد")) in *.
  destruct (bool_decide (Some status ≠ last_status loc)); simpl.
  - destruct (edit_text c n).
    { eexists _, _. split; [done|]. split; [done|].
      destruct (last_status loc) as [l|]; [|done]. by destruct (_ && _). }
    destruct (bool_decide (status ∈ FINAL_STATUSES)); [done|].
    eexists _, _. split; [done|]. split; [done|].
    destruct (last_status loc) as [l|]; [|done]. by destruct (_ && _).
  - destruct (edit_text c n).
    { by eexists _, _. }
    destruct (bool_decide (status ∈ FINAL_STATUSES)); [done|].
    by eexists _, _.
Qed.

(** When no attempt ends the session, the loop runs out of attempts with
    the answer of the latest lookup in [account_info] and the tracked
    accounts untouched. *)
Lemma burst_loop_exhausted c email i chat G fuel : ∀ n loc w,
  api_manager.burst_consistent (smart_cache w) →
  (∀ k, (n ≤ k < n + fuel)%nat → keeps_going c k = true) →
  ∃ loc' w', burst_loop c email i chat G fuel n loc w = (None, loc', w')
    ∧ account_info loc' = last_answer c fuel n (account_info loc)
    ∧ monitored_accounts w' = monitored_accounts w.
Proof.
  induction fuel as [|fuel IH]; intros n loc w Hc Hk.
  { by eexists _, _. }
  cbn [burst_loop last_answer].
  destruct (burst_attempt_keeps_going c email i chat G n loc w Hc)
    as (loc1 & w1 & -> & Ha & Hc1 & Hm1).
  { apply Hk. lia. }
  destruct (IH (S n) loc1 w1 Hc1) as (loc2 & w2 & -> & Ha2 & Hm2).
  { intros k Hk'. apply Hk. lia. }
  eexists _, _. split; [done|]. rewrite Ha2, Ha, Hm2, Hm1. done.
Qed.

Lemma timed_out_result email i chat G loc w :
  let r := (timed_out email i chat G loc w).1 in
  let w' := (timed_out email i chat G loc w).2 in
  (info_truthy (account_info loc) = true → r = (true, account_info loc))
  ∧ (info_truthy (account_info loc) = false →
       r = (false, None) ∧ monitored_accounts w' = monitored_accounts w)
  ∧ (∀ info, account_info loc = Some info → info ≠ ∅ → admission_passes G info →
       ∃ d, dict_get (i +:+ "_" +:+ email) (monitored_accounts w') = Some d
            ∧ session_entry email i chat d)
  ∧ (∀ info, account_info loc = Some info → ¬ admission_passes G info →
       monitored_accounts w' = monitored_accounts w).
Proof.
  cbn zeta. unfold timed_out, info_truthy, admission_passes.
  set (w1 := if str_truthy i then _ else _).
  assert (monitored_accounts w1 = monitored_accounts w) as Hm1.
  { subst w1. by destruct (str_truthy i). }
  clearbody w1.
  destruct (account_info loc) as [info|]; [|by split_and!].
  unfold dict_truthy. destruct (decide (info ≠ ∅)) as [Hne|He].
  - rewrite bool_decide_eq_true_2 by done. simpl. split_and!; try done.
    + intros ? [= <-] _ [Hs Hg]. unfold monitor_if_admissible. rewrite Hs.
      rewrite !bool_decide_eq_true_2 by done.
      destruct (monitored_add_monitored_account email i "AVAILABLE" chat "bot" w1)
        as (t1 & t2 & ->).
      eexists. split; [apply dict_get_set_eq|]. done.
    + intros ? [= <-] Hno. unfold monitor_if_admissible. repeat case_bool_decide; try done. tauto.
  - rewrite bool_decide_eq_false_2 by done. simpl. split_and!; try done.
    intros ? [= <-] Hne. done.
Qed.

(** The burst monitoring whose attempts run out ends on the answer of the
    latest lookup. *)
Lemma burst_monitoring_exhausted (c : Collaborators)
    (email account_id : string) (chat_id : Z) (default_group_name : string)
    (found : AccountInfo) (w : World) :
  api_manager.burst_consistent (smart_cache w) →
  (∀ attempt, (1 ≤ attempt ≤ 40)%nat → keeps_going c attempt = true) →
  let last := last_answer c 40 1 (Some found) in
  let r := (burst_monitoring c email account_id chat_id default_group_name found w).1 in
  let w' := (burst_monitoring c email account_id chat_id default_group_name found w).2 in
  api_manager.burst_mode_active (smart_cache w') = false
  ∧ (info_truthy last = true → r = (true, last))
  ∧ (info_truthy last = false →
       r = (false, None) ∧ monitored_accounts w' = monitored_accounts w)
  ∧ (∀ info, last = Some info → info ≠ ∅ → admission_passes default_group_name info →
       ∃ d, dict_get (account_id +:+ "_" +:+ email) (monitored_accounts w') = Some d
            ∧ session_entry email account_id chat_id d)
  ∧ (∀ info, last = Some info → ¬ admission_passes default_group_name info →
       monitored_accounts w' = monitored_accounts w).
Proof.
  intros Hc Hk. cbn zeta. unfold burst_monitoring.
  destruct (burst_loop_exhausted c email account_id chat_id default_group_name 40 1
              {| last_status := None; account_info := Some found |}
              (logger INFO (StartingBurst email account_id) w) Hc)
    as (loc' & w1 & El & Ha & Hm).
  { intros k Hk'. apply Hk. lia. }
  unfold max_attempts. rewrite El. cbn [account_info] in Ha.
  change (monitored_accounts (logger INFO (StartingBurst email account_id) w))
    with (monitored_accounts w) in Hm.
  pose proof (timed_out_result email account_id chat_id default_group_name loc' w1) as Ht.
  cbn zeta in Ht. rewrite Ha, Hm in Ht. destruct Ht as (T1 & T2 & T3 & T4).
  split_and!; try done. apply timed_out_inactive.
Qed.

(** The initial search that finds the account ends with a non-empty
    identifier, the burst active and the identifier among the targets; it
    does not touch the tracked accounts. *)
Lemma initial_search_found c email fuel : ∀ n w account_id found w1,
  initial_search c email fuel n w = (Found account_id found, w1) →
  account_id ≠ ""
  ∧ api_manager.burst_mode_active (smart_cache w1) = true
  ∧ api_manager.burst_targets (smart_cache w1)
    = {[account_id]} ∪ api_manager.burst_targets (smart_cache w)
  ∧ (api_manager.burst_consistent (smart_cache w) →
     api_manager.burst_consistent (smart_cache w1))
  ∧ monitored_accounts w1 = monitored_accounts w.
Proof.
  induction fuel as [|fuel IH]; intros n w account_id found w1; simpl; [done|].
  destruct (search_sender_by_email c n) as [|answer]; [done|].
  assert (∀ r, match edit_text_initial c n with
               | Raises => (SearchRaised, w)
               | Returns _ => initial_search c email fuel (S n) w
               end = r → r = (Found account_id found, w1) →
          initial_search c email fuel (S n) w = (Found account_id found, w1)) as Hnext.
  { intros r <-. by destruct (edit_text_initial c n). }
  destruct answer as [info|]; simpl.
  2:{ intros E. by eapply IH, Hnext. }
  destruct (dict_truthy info); simpl.
  2:{ intros E. by eapply IH, Hnext. }
  destruct (info !! "idAccount") as [i|]; simpl.
  2:{ intros E. by eapply IH, Hnext. }
  destruct (str_truthy i) eqn:Ei.
  2:{ intros E. by eapply IH, Hnext. }
  intros [= <- <- <-]. apply str_truthy_ne in Ei.
  unfold activate_burst_mode, api_manager.activate_burst_mode,
    api_manager.burst_consistent. simpl.
  destruct (api_manager.burst_mode_active (smart_cache w)) eqn:Ea; simpl;
    rewrite ?Ea; simpl; rewrite ?Ea; split_and!; done.
Qed.

(** The initial search that does not find the account does not write the
    cache itself. *)
Lemma initial_search_not_found c email fuel : ∀ n w r w1,
  initial_search c email fuel n w = (r, w1) →
  (∀ account_id found, r ≠ Found account_id found) →
  smart_cache w1 = smart_cache w.
Proof.
  induction fuel as [|fuel IH]; intros n w r w1; simpl.
  { by intros [= <- <-]. }
  destruct (search_sender_by_email c n) as [|answer].
  { by intros [= <- <-]. }
  assert (match edit_text_initial c n with
          | Raises => (SearchRaised, w)
          | Returns _ => initial_search c email fuel (S n) w
          end = (r, w1) →
          (∀ account_id found, r ≠ Found account_id found) →
          smart_cache w1 = smart_cache w) as Hnext.
  { destruct (edit_text_initial c n); [by intros [= <- <-]|]. apply IH. }
  destruct answer as [info|]; simpl; [|done].
  destruct (dict_truthy info); simpl; [|done].
  destruct (info !! "idAccount") as [i|]; simpl; [|done].
  destruct (str_truthy i); [|done].
  intros [= <- <-] Hno. by destruct (Hno i info).
Qed.

(** C9, as the code has it.  A session whose initial search finds the
    account has the burst active for its identifier when the burst
    monitoring starts.  However that monitoring ends, on a final status or
    on the exhaustion of its attempts, the global flag is off afterwards:
    the session sets it to false itself.  Of the targets it removes its own
    identifier and no other, and it leaves the start time as it is; the
    targets are empty and the start time is gone instead only when an
    expiry check made during the session read the clock
    [BURST_MODE_DURATION] seconds or more after the start, and they are so
    whenever the first check of the session reads such a time.  A session
    whose initial search does not find the account leaves the flag, the
    start time and the targets as they were. *)
Theorem session_end_cancels_burst (c : Collaborators) (email : string)
    (chat_id : Z) (default_group_name : string) (w : World) :
  let searched := initial_search c email 14 1 (logger INFO (LookingFor email) w) in
  let run := wait_for_status_change c email chat_id default_group_name w in
  match searched.1 with
  | Found account_id _ =>
      api_manager.burst_mode_active (smart_cache searched.2) = true
      ∧ account_id ∈ api_manager.burst_targets (smart_cache searched.2)
      ∧ api_manager.burst_mode_active (smart_cache run.2) = false
      ∧ (account_id ∉ api_manager.burst_targets (smart_cache run.2))
      ∧ ((api_manager.burst_targets (smart_cache run.2)
            = api_manager.burst_targets (smart_cache searched.2) ∖ {[account_id]}
          ∧ api_manager.burst_mode_started (smart_cache run.2)
            = api_manager.burst_mode_started (smart_cache searched.2))
         ∨ (api_manager.burst_targets (smart_cache run.2) = ∅
            ∧ api_manager.burst_mode_started (smart_cache run.2) = None
            ∧ expiry_fired searched.2 run.2))
      ∧ (∀ started,
           api_manager.burst_mode_started (smart_cache searched.2) = Some started →
           api_manager.seconds_ge (clock (ticks searched.2) - started)
             BURST_MODE_DURATION = true →
           api_manager.burst_targets (smart_cache run.2) = ∅
           ∧ api_manager.burst_mode_started (smart_cache run.2) = None)
  | _ =>
      api_manager.burst_mode_active (smart_cache run.2)
        = api_manager.burst_mode_active (smart_cache w)
      ∧ api_manager.burst_mode_started (smart_cache run.2)
        = api_manager.burst_mode_started (smart_cache w)
      ∧ api_manager.burst_targets (smart_cache run.2)
        = api_manager.burst_targets (smart_cache w)
  end.
Proof.
  cbn zeta. unfold wait_for_status_change.
  destruct (initial_search c email 14 1 (logger INFO (LookingFor email) w))
    as [[| |account_id found] w1] eqn:Es; simpl.
  1,2: by rewrite (initial_search_not_found _ _ _ _ _ _ _ Es).
  apply initial_search_found in Es as (Hid & Hon & Htargets & _ & _).
  pose proof (burst_monitoring_ends c email account_id chat_id default_group_name
                found w1 Hid) as Hend. cbn zeta in Hend.
  pose proof (burst_monitoring_first_check c email account_id chat_id default_group_name
                found w1) as Hfirst. cbn zeta in Hfirst.
  destruct (burst_monitoring c email account_id chat_id default_group_name found w1)
    as [r w2]. simpl in *.
  destruct Hend as (Hoff & Hout & Hkept).
  split_and!; try done.
  - rewrite Htargets. apply elem_of_union_l. by apply elem_of_singleton.
  - intros started Hst Hge. by apply (Hfirst started).
Qed.

(** C8, as the code has it.  When the initial search has found the account
    and none of the 40 attempts ends the session (each lookup raises, finds
    nothing or finds a status that is not final, or the progress message
    raises), the session turns the burst flag off and looks at the answer of
    its latest lookup that returned, the record of the initial search if
    none did.  If that answer is a record, the session returns success with
    it, after the admission test on it: an AVAILABLE record of the default
    group is stored with the source "bot", any other leaves the tracked
    accounts as they were.  If that answer is empty, the session returns
    failure without a record, whatever it observed before. *)
Theorem budget_exhausted_uses_last_answer (c : Collaborators) (email : string)
    (chat_id : Z) (default_group_name : string) (w : World)
    (account_id : string) (found : AccountInfo) :
  api_manager.burst_consistent (smart_cache w) →
  (initial_search c email 14 1 (logger INFO (LookingFor email) w)).1
    = Found account_id found →
  (∀ attempt, (1 ≤ attempt ≤ 40)%nat → keeps_going c attempt = true) →
  let last := last_answer c 40 1 (Some found) in
  let run := wait_for_status_change c email chat_id default_group_name w in
  api_manager.burst_mode_active (smart_cache run.2) = false
  ∧ (info_truthy last = true → run.1 = Returns (true, last))
  ∧ (info_truthy last = false →
       run.1 = Returns (false, None)
       ∧ monitored_accounts run.2 = monitored_accounts w)
  ∧ (∀ info, last = Some info → info ≠ ∅ → admission_passes default_group_name info →
       ∃ d, dict_get (account_id +:+ "_" +:+ email) (monitored_accounts run.2) = Some d
            ∧ session_entry email account_id chat_id d)
  ∧ (∀ info, last = Some info → ¬ admission_passes default_group_name info →
       monitored_accounts run.2 = monitored_accounts w).
Proof.
  intros Hc Hs Hk. cbn zeta. unfold wait_for_status_change.
  destruct (initial_search c email 14 1 (logger INFO (LookingFor email) w))
    as [r0 w1] eqn:Es. simpl in Hs. subst r0.
  apply initial_search_found in Es as (_ & _ & _ & Hc1 & Hm1).
  pose proof (burst_monitoring_exhausted c email account_id chat_id default_group_name
                found w1 (Hc1 Hc) Hk) as Hend. cbn zeta in Hend.
  destruct (burst_monitoring c email account_id chat_id default_group_name found w1)
    as [r w2]. simpl in *. rewrite <- Hm1.
  destruct Hend as (H1 & H2 & H3 & H4 & H5). split_and!; try done.
  - intros Ht. by rewrite (H2 Ht).
  - intros Ht. destruct (H3 Ht) as [-> ->]. done.
Qed.

End Session.

(** While the burst of account 8 is running, the session of account 7,
    which stays in LOGGING through the 40 attempts, ends with the flag off
    and account 7 out of the targets. *)
Lemma session_end_cancels_burst_witness :
  let run := core.wait_for_status_change (builtins := py.ascii_builtins)
               (env := examples.env) examples.always_logging "a@x.com" 5 "G"
               examples.world8 in
  api_manager.burst_mode_active (core.smart_cache run.2) = false
  ∧ "7" ∉ api_manager.burst_targets (core.smart_cache run.2).
Proof.
  cbn zeta.
  pose proof (session_end_cancels_burst (builtins := py.ascii_builtins)
                (env := examples.env) examples.always_logging "a@x.com" 5 "G"
                examples.world8) as Hend.
  cbn zeta in Hend.
  change (core.initial_search examples.always_logging "a@x.com" 14 1
            (core.logger logging.INFO (logging.LookingFor "a@x.com") examples.world8)).1
    with (core.Found "7" examples.logging7) in Hend.
  cbv iota in Hend. destruct Hend as (_ & _ & Hoff & Hout & _).
  split; [exact Hoff|exact Hout].
Defined.

(** C9, as the claim states it, fails: while the burst that another
    session activated for account 8 is running, the session of account 7
    sees AVAILABLE at its first attempt and ends; account 8 is still a
    target, so the expiry check has not fired, and the flag is off. *)
Lemma session_end_flips_flag :
  let run := core.wait_for_status_change (builtins := py.ascii_builtins)
               (env := examples.env) examples.available_at_once "a@x.com" 5 "G"
               examples.world8 in
  api_manager.burst_mode_active (core.smart_cache examples.world8) = true
  ∧ run.1 = core.Returns (true, Some examples.available7)
  ∧ api_manager.burst_targets (core.smart_cache run.2) = {["8"]}
  ∧ api_manager.burst_mode_active (core.smart_cache run.2) = false.
Proof. split_and!; reflexivity. Qed.

(** The session of an account that stays in LOGGING through the 40
    attempts returns success with the record last seen and tracks
    nothing. *)
Lemma budget_exhausted_uses_last_answer_witness :
  let run := core.wait_for_status_change (builtins := py.ascii_builtins)
               (env := examples.env) examples.always_logging "a@x.com" 5 "G"
               examples.world0 in
  run.1 = core.Returns (true, Some examples.logging7)
  ∧ core.monitored_accounts run.2 = [].
Proof.
  cbn zeta.
  destruct (budget_exhausted_uses_last_answer (builtins := py.ascii_builtins)
              (env := examples.env) examples.always_logging "a@x.com" 5 "G"
              examples.world0 "7" examples.logging7)
    as (_ & Hsome & _ & _ & Hkeep).
  - intros Hactive. discriminate Hactive.
  - reflexivity.
  - intros attempt _. reflexivity.
  - split.
    + apply Hsome. reflexivity.
    + apply (Hkeep examples.logging7); [reflexivity|].
      intros [Hstatus _]. vm_compute in Hstatus. discriminate.
Defined.

(** C8, as the claim states it, fails: the record is found by the initial
    search and seen in LOGGING at each of the first 39 attempts; it is
    missing from the batch at the last attempt, and the session returns
    failure without a record. *)
Lemma lost_record_fails_session :
  let run := core.wait_for_status_change (builtins := py.ascii_builtins)
               (env := examples.env) examples.lost_at_the_end "a@x.com" 5 "G"
               examples.world0 in
  core.search_sender_by_email examples.lost_at_the_end 1
    = core.Returns (Some examples.logging7)
  ∧ core.search_sender_by_id examples.lost_at_the_end 39
    = core.Returns (Some examples.logging7)
  ∧ core.search_sender_by_id examples.lost_at_the_end 40 = core.Returns None
  ∧ run.1 = core.Returns (false, None).
Proof. split_and!; reflexivity. Qed.

(** * Further properties of the code *)

(** ** The snapshot cache, continued *)

Section CacheFurther.
Import py config stats api_manager.

Lemma set_ttl_self self :
  set_ttl (cache_ttl self) (consecutive_quiet_cycles self) self = self.
Proof. by destruct self. Qed.

(** One call of [adjust_ttl] keeps the TTL in its range and the counter
    non-negative, counts at most one adjustment, and counts one whenever
    the TTL changes; it touches nothing but the TTL and the quiet
    counter. *)
Lemma adjust_ttl_step changes self st :
  CACHE_TTL_MIN ≤ cache_ttl self ≤ CACHE_TTL_MAX →
  0 ≤ consecutive_quiet_cycles self →
  let after := adjust_ttl changes self st in
  CACHE_TTL_MIN ≤ cache_ttl after.1 ≤ CACHE_TTL_MAX
  ∧ 0 ≤ consecutive_quiet_cycles after.1 ≤ consecutive_quiet_cycles self + 1
  ∧ adaptive_adjustments st ≤ adaptive_adjustments after.2
      ≤ adaptive_adjustments st + 1
  ∧ (cache_ttl after.1 ≠ cache_ttl self →
       adaptive_adjustments after.2 = adaptive_adjustments st + 1)
  ∧ set_ttl (cache_ttl self) (consecutive_quiet_cycles self) after.1 = self.
Proof.
  intros Httl Hq. cbn zeta. unfold adjust_ttl.
  unfold CACHE_TTL_MIN, CACHE_TTL_MAX, CACHE_TTL_NORMAL in *.
  destruct self as [c ts ttl ba bs lc q lsc lst bt]; simpl in *.
  repeat case_match; simpl in *;
    repeat match goal with
           | H : bool_decide _ = true |- _ => apply bool_decide_eq_true_1 in H
           | H : bool_decide _ = false |- _ => apply bool_decide_eq_false_1 in H
           end;
    split_and!; try done; try lia.
Qed.

(** X1.  Whatever the numbers of changes of the successive cycles,
    [adjust_ttl] keeps the TTL between the minimum and the maximum once
    it is there, as it is after [__init__]; the quiet counter stays
    non-negative; the adjustments counted are at most one per cycle, and
    at least one when the TTL has moved; nothing but the TTL and the quiet
    counter is touched. *)
Theorem cache_ttl_stays_in_range (changes : list Z) (self : SmartCacheManager)
    (st : RequestStats) :
  CACHE_TTL_MIN ≤ cache_ttl self ≤ CACHE_TTL_MAX →
  0 ≤ consecutive_quiet_cycles self →
  let after := adjust_ttl_run changes self st in
  CACHE_TTL_MIN ≤ cache_ttl after.1 ≤ CACHE_TTL_MAX
  ∧ 0 ≤ consecutive_quiet_cycles after.1
      ≤ consecutive_quiet_cycles self + Z.of_nat (length changes)
  ∧ adaptive_adjustments st ≤ adaptive_adjustments after.2
      ≤ adaptive_adjustments st + Z.of_nat (length changes)
  ∧ (cache_ttl after.1 ≠ cache_ttl self →
       adaptive_adjustments st < adaptive_adjustments after.2)
  ∧ set_ttl (cache_ttl self) (consecutive_quiet_cycles self) after.1 = self.
Proof.
  revert self st. induction changes as [|c rest IH]; intros self st Httl Hq; cbn zeta.
  - simpl. split_and!; try lia; try done. apply set_ttl_self.
  - cbn [adjust_ttl_run].
    pose proof (adjust_ttl_step c self st Httl Hq) as Hstep. cbn zeta in Hstep.
    destruct (adjust_ttl c self st) as [self1 st1]. simpl in Hstep.
    destruct Hstep as (Httl1 & Hq1 & Hadj1 & Hmove1 & Hsame1).
    specialize (IH self1 st1 Httl1 (proj1 Hq1)). cbn zeta in IH.
    destruct (adjust_ttl_run rest self1 st1) as [self2 st2]. simpl in IH |- *.
    destruct IH as (Httl2 & Hq2 & Hadj2 & Hmove2 & Hsame2).
    rewrite Nat2Z.inj_succ. split_and!; try lia.
    transitivity (set_ttl (cache_ttl self) (consecutive_quiet_cycles self) self1);
      [|exact Hsame1].
    rewrite <- Hsame2. by destruct self2.
Qed.

(** From the initial state, six cycles with 7, 0, 3, 0, 0 and 0 changes
    leave the TTL within the range and count at most six adjustments. *)
Lemma cache_ttl_stays_in_range_witness :
  let after := adjust_ttl_run [7; 0; 3; 0; 0; 0] init stats.zero in
  60 ≤ cache_ttl after.1 ≤ 120
  ∧ 0 ≤ adaptive_adjustments after.2 ≤ 6.
Proof.
  destruct (cache_ttl_stays_in_range [7; 0; 3; 0; 0; 0] init stats.zero)
    as (Httl & _ & Hadj & _); [vm_compute; split; discriminate|reflexivity|].
  split; [exact Httl|exact Hadj].
Defined.

(** X2.  After a successful [update_cache] the snapshot handed in is the
    one served: [get_cache] answers it, it is the last good snapshot with
    the second clock reading as its timestamp, lookups by identifier scan
    it, and [is_cache_valid] answers true exactly while the burst mode is
    off and the age counted from the first clock reading is below the TTL.
    If the cache is then invalidated, as [add_sender] does, a failed
    update brings a non-empty snapshot back, stamped with the second
    reading. *)
Theorem update_cache_success_serves (new_data : list Account) (now1 now2 : Z)
    (self : SmartCacheManager) :
  let self' := update_cache new_data true now1 now2 self in
  get_cache self' = Some new_data
  ∧ last_successful_cache self' = Some new_data
  ∧ last_successful_timestamp self' = Some now2
  ∧ (∀ now, is_cache_valid now self'
            = negb (burst_mode_active self)
              && (now - now1 <? cache_ttl self * 1000000))
  ∧ (∀ account_id, get_account_by_id account_id self' = scan_by_id account_id new_data)
  ∧ (new_data ≠ [] → ∀ other later1 later2,
       let back := update_cache other false later1 later2 (invalidate self') in
       cache back = Some new_data ∧ cache_timestamp back = Some now2).
Proof.
  cbn zeta. split_and!; try done.
  - intros now. unfold is_cache_valid, update_cache; simpl.
    by destruct (burst_mode_active self).
  - intros account_id. unfold get_account_by_id; simpl. by destruct new_data.
  - intros Hne other later1 later2. unfold update_cache; simpl. by destruct new_data.
Qed.

(** A snapshot fetched at time 100 is valid 89 seconds later and not 90
    seconds later, and comes back after an invalidation and a failure. *)
Lemma update_cache_success_serves_witness :
  is_cache_valid (100 + 89 * 1000000) (update_cache [examples.account7] true 100 101 init)
    = true
  ∧ is_cache_valid (100 + 90 * 1000000) (update_cache [examples.account7] true 100 101 init)
    = false
  ∧ cache_timestamp
      (update_cache [] false 0 0
         (invalidate (update_cache [examples.account7] true 100 101 init)))
    = Some 101.
Proof.
  destruct (update_cache_success_serves [examples.account7] 100 101 init)
    as (_ & _ & _ & Hvalid & _ & Hback).
  split_and!.
  - rewrite Hvalid. reflexivity.
  - rewrite Hvalid. reflexivity.
  - apply (Hback ltac:(discriminate) [] 0 0).
Defined.

(** X3.  The burst window is counted from the first activation: a second
    target that joins an active burst neither restarts the clock nor
    counts an activation.  Until 60 seconds after the first activation
    the expiry check changes nothing, both identifiers are targets and
    the cache is never valid; from then on the check turns the flag off
    and drops every target, the late one included. *)
Theorem burst_window_from_first_activation (t0 t1 now : Z) (a b : string)
    (self : SmartCacheManager) (st : RequestStats) :
  burst_mode_active self = false →
  let first := activate_burst_mode t0 a self st in
  let second := activate_burst_mode t1 b first.1 first.2 in
  burst_mode_started second.1 = Some t0
  ∧ burst_activations second.2 = burst_activations st + 1
  ∧ (∀ t, is_cache_valid t second.1 = false)
  ∧ (now - t0 < BURST_MODE_DURATION * 1000000 →
       check_burst_mode now second.1 = Some second.1
       ∧ a ∈ burst_targets second.1 ∧ b ∈ burst_targets second.1)
  ∧ (BURST_MODE_DURATION * 1000000 ≤ now - t0 →
       ∃ self', check_burst_mode now second.1 = Some self'
         ∧ burst_mode_active self' = false
         ∧ burst_mode_started self' = None
         ∧ burst_targets self' = ∅
         ∧ set_burst false (burst_mode_started self) (burst_targets self) self' = self).
Proof.
  intros Hoff. cbn zeta. unfold activate_burst_mode. rewrite Hoff. simpl.
  split_and!; try done.
  - intros t. unfold is_cache_valid; simpl. by repeat case_match.
  - intros Hlt. unfold check_burst_mode, seconds_ge; simpl.
    destruct (Z.leb_spec (BURST_MODE_DURATION * 1000000) (now - t0)); [lia|].
    split_and!; [done|set_solver|set_solver].
  - intros Hge. unfold check_burst_mode, seconds_ge; simpl.
    destruct (Z.leb_spec (BURST_MODE_DURATION * 1000000) (now - t0)); [|lia].
    eexists. split; [reflexivity|]. simpl. split_and!; try done.
    destruct self; simpl in *. by subst.
Qed.

(** Account 7 activates the burst at second 0 and account 8 joins at
    second 59: at second 60 the expiry check drops both. *)
Lemma burst_window_from_first_activation_witness :
  let first := activate_burst_mode 0 "7" init stats.zero in
  let second := activate_burst_mode 59000000 "8" first.1 first.2 in
  ∃ self', check_burst_mode 60000000 second.1 = Some self'
           ∧ burst_targets self' = ∅.
Proof.
  destruct (burst_window_from_first_activation 0 59000000 60000000 "7" "8" init stats.zero)
    as (_ & _ & _ & _ & Hexpired); [reflexivity|].
  destruct Hexpired as (self' & Hcheck & _ & _ & Htargets & _); [vm_compute; discriminate|].
  exists self'. split; [exact Hcheck|exact Htargets].
Defined.

End CacheFurther.

Section ByEmailProperties.
Import py config stats api_manager.
Context {methods : StrMethods}.

Lemma scan_by_email_skip wanted pre rest :
  Forall (other_sender wanted) pre →
  scan_by_email wanted (pre ++ rest) = scan_by_email wanted rest.
Proof.
  induction 1 as [|x l (s & Hs & Hne) _ IH]; [done|].
  simpl. unfold sender_lower. rewrite Hs. by rewrite bool_decide_eq_false_2.
Qed.

(** X4.  [get_account_by_email] answers [None] on an absent or empty
    cache; otherwise it lower-cases and strips the address asked for and
    returns the first record whose lower-cased [Sender] is that text, or
    [None] when no record has it; it raises when it meets, before any
    match, a record whose [Sender] is not a [str], and never raises on a
    cache whose [Sender] values are all [str]. *)
Theorem get_account_by_email_spec (email : string) (self : SmartCacheManager) :
  let wanted := str_strip (lower email) in
  (cache self = None ∨ cache self = Some [] →
     get_account_by_email email self = Some None)
  ∧ (∀ pre account post sender,
       cache self = Some (pre ++ account :: post) →
       Forall (other_sender wanted) pre →
       get account "Sender" (VStr "") = VStr sender → lower sender = wanted →
       get_account_by_email email self = Some (Some account))
  ∧ (∀ accounts, cache self = Some accounts →
       Forall (other_sender wanted) accounts →
       get_account_by_email email self = Some None)
  ∧ (∀ pre account post,
       cache self = Some (pre ++ account :: post) →
       Forall (other_sender wanted) pre →
       (∀ s, get account "Sender" (VStr "") ≠ VStr s) →
       get_account_by_email email self = None)
  ∧ (∀ accounts, cache self = Some accounts →
       Forall (λ account, ∃ s, get account "Sender" (VStr "") = VStr s) accounts →
       is_Some (get_account_by_email email self)).
Proof.
  cbn zeta. unfold get_account_by_email. split_and!.
  - by intros [-> | ->].
  - intros pre account post sender -> Hpre Hs Hm.
    replace (list_truthy (Some (pre ++ account :: post))) with true by by destruct pre.
    simpl. rewrite scan_by_email_skip by done. simpl. unfold sender_lower.
    rewrite Hs. by rewrite bool_decide_eq_true_2.
  - intros accounts -> Hall. destruct (list_truthy (Some accounts)); [|done]. simpl.
    rewrite <- (app_nil_r accounts). by rewrite scan_by_email_skip.
  - intros pre account post -> Hpre Hbad.
    replace (list_truthy (Some (pre ++ account :: post))) with true by by destruct pre.
    simpl. rewrite scan_by_email_skip by done. simpl. unfold sender_lower.
    destruct (get account "Sender" (VStr "")) eqn:E; try done. by destruct (Hbad s).
  - intros accounts -> Hall. destruct (list_truthy (Some accounts)); [|done]. simpl.
    induction Hall as [|x l (s & Hs) _ IH]; [done|].
    simpl. unfold sender_lower. rewrite Hs. by destruct (bool_decide _).
Qed.

End ByEmailProperties.

(** With the ASCII methods, the address [" A@X.com "] finds the record
    whose sender is [a@x.COM], which stands after a record of another
    sender. *)
Lemma get_account_by_email_spec_witness :
  let other : api_manager.Account := {[ "Sender" := py.VStr "b@x.com" ]} in
  let mine : api_manager.Account := {[ "Sender" := py.VStr "a@x.COM" ]} in
  api_manager.get_account_by_email (methods := py.ascii_str_methods) " A@X.com "
    (api_manager.update_cache [other; mine] true 0 0 api_manager.init)
  = Some (Some mine).
Proof.
  cbn zeta.
  destruct (get_account_by_email_spec (methods := py.ascii_str_methods) " A@X.com "
              (api_manager.update_cache
                 [{[ "Sender" := py.VStr "b@x.com" ]}; {[ "Sender" := py.VStr "a@x.COM" ]}]
                 true 0 0 api_manager.init)) as (_ & Hfirst & _).
  apply (Hfirst [{[ "Sender" := py.VStr "b@x.com" ]}] _ [] "a@x.COM").
  - reflexivity.
  - constructor; [|constructor]. exists "b@x.com". split; [reflexivity|].
    vm_compute. discriminate.
  - reflexivity.
  - vm_compute. reflexivity.
Defined.

(** ** The remote table: parsing, the CSRF token and the batch fetch *)

Section Parsing.
Import py config stats.
Import OptimizedAPIManager.

Lemma pretty_N_go_length x : ∀ s,
  (String.length s ≤ String.length (pretty_N_go x s))%nat.
Proof.
  induction (N.lt_wf_0 x) as [x _ IH]; intros s.
  assert (x = 0 ∨ 0 < x)%N as [->|?] by lia; [by rewrite pretty_N_go_0|].
  rewrite pretty_N_go_step by done.
  etrans; [|by eapply IH, N.div_lt]. simpl. lia.
Qed.

Lemma pretty_positive_nonempty (p : positive) : pretty p ≠ "".
Proof.
  unfold pretty, pretty_positive, pretty, pretty_N.
  case_decide; [done|].
  rewrite pretty_N_go_step by lia. intros E.
  pose proof (pretty_N_go_length (N.pos p `div` 10)
                (String (pretty_N_char (N.pos p `mod` 10)) "")) as Hl.
  rewrite E in Hl. simpl in Hl. lia.
Qed.

Lemma pretty_Z_nonempty (n : Z) : pretty n ≠ "".
Proof.
  destruct n as [|p|p]; [done| |done]. apply pretty_positive_nonempty.
Qed.

(** The text of a truthy scalar is not empty. *)
Lemma py_str_truthy v : py_truthy v = true → py_str v ≠ "".
Proof.
  destruct v as [|[]|n|s]; simpl; try done.
  - intros _. apply pretty_Z_nonempty.
  - apply str_truthy_ne.
Qed.

Lemma cell_text_nonempty row idx :
  cell_text row idx ≠ "" ↔ ∃ cell, row !! idx = Some cell ∧ py_truthy cell = true.
Proof.
  unfold cell_text. destruct (row !! idx) as [cell|].
  - destruct (py_truthy cell) eqn:E.
    + split; [eauto|]. intros _. by apply py_str_truthy.
    + split; [done|]. intros (c & [= <-] & Hc). congruence.
  - split; [done|]. by intros (c & ? & _).
Qed.

Lemma parse_row_lookup row key idx :
  (key, idx) ∈ INDEX_MAP → parse_row row !! key = Some (cell_text row idx).
Proof.
  intros Hin. unfold INDEX_MAP in Hin.
  repeat (apply elem_of_cons in Hin as [Hin|Hin];
          [injection Hin as -> ->; vm_compute; reflexivity|]).
  by apply elem_of_nil in Hin.
Qed.

Lemma parse_row_dom row : dom (parse_row row) = list_to_set INDEX_MAP.*1.
Proof.
  unfold parse_row, INDEX_MAP. cbn [foldl fmap list_fmap fst list_to_set].
  rewrite !dom_insert_L, dom_empty_L. set_solver.
Qed.

(** X5.  The parsing step of [fetch_all_accounts_batch] drops the rows
    with fewer than three cells and turns each other row, in order, into a
    record that has exactly the fourteen fields of [INDEX_MAP]; a field is
    the text of the cell of its column when the row has a truthy cell
    there, and the empty string otherwise, so that no field is ever
    missing from a record and a field is non-empty exactly when its cell
    is truthy. *)
Theorem parse_rows_fields (accounts : list (list PyVal)) :
  (∀ pre row post, accounts = pre ++ row :: post →
     parse_rows accounts
     = parse_rows pre
       ++ (if bool_decide (2 < length row)%nat then [parse_row row] else [])
       ++ parse_rows post)
  ∧ (∀ acc, acc ∈ parse_rows accounts →
       acc ≠ ∅
       ∧ ∃ row, row ∈ accounts ∧ (2 < length row)%nat
           ∧ dom acc = list_to_set INDEX_MAP.*1
           ∧ (∀ key idx default, (key, idx) ∈ INDEX_MAP →
                get acc key default = cell_text row idx)
           ∧ (∀ idx, cell_text row idx ≠ ""
                ↔ ∃ cell, row !! idx = Some cell ∧ py_truthy cell = true)).
Proof.
  split.
  - intros pre row post ->. unfold parse_rows.
    rewrite filter_app, fmap_app, filter_cons.
    destruct (decide (2 < length row)%nat) as [Hl|Hl].
    + by rewrite bool_decide_eq_true_2.
    + by rewrite bool_decide_eq_false_2.
  - intros acc Hacc. unfold parse_rows in Hacc.
    apply list_elem_of_fmap in Hacc as (row & -> & Hrow).
    apply list_elem_of_filter in Hrow as [Hlen Hrow].
    split.
    + intros E. pose proof (parse_row_lookup row "Sender" 2%nat) as Hs.
      rewrite E in Hs. rewrite lookup_empty in Hs.
      assert (("Sender", 2%nat) ∈ INDEX_MAP) as Hin by (unfold INDEX_MAP; set_solver).
      by specialize (Hs Hin).
    + exists row. split_and!; [done|done|apply parse_row_dom| |apply cell_text_nonempty].
      intros key idx default Hin. unfold get. by rewrite (parse_row_lookup row key idx Hin).
Qed.

(** Of a row of three cells whose identifier cell is the number 0, and a
    row of two cells, the parsing keeps the first, with an empty
    identifier and the sender as text. *)
Lemma parse_rows_fields_witness :
  let rows := [[VInt 0; VNone; VStr "a@x.com"]; [VInt 8; VNone]] in
  ∃ acc, parse_rows rows = [acc]
    ∧ get acc "idAccount" "?" = "" ∧ get acc "Sender" "?" = "a@x.com"
    ∧ get acc "Keep" "?" = "".
Proof.
  cbn zeta. set (rows := [[VInt 0; VNone; VStr "a@x.com"]; [VInt 8; VNone]]).
  destruct (parse_rows_fields rows) as [Hsplit Hfields].
  exists (parse_row [VInt 0; VNone; VStr "a@x.com"]).
  assert (parse_rows rows = [parse_row [VInt 0; VNone; VStr "a@x.com"]]) as Hrows.
  { rewrite (Hsplit [] [VInt 0; VNone; VStr "a@x.com"] [[VInt 8; VNone]] eq_refl).
    reflexivity. }
  split; [exact Hrows|].
  destruct (Hfields (parse_row [VInt 0; VNone; VStr "a@x.com"])) as (_ & row & Hin & _ & _ & Hget & _).
  { rewrite Hrows. apply list_elem_of_singleton. reflexivity. }
  split_and!; reflexivity.
Defined.

End Parsing.

Section CsrfPattern.
Import py config stats.
Import OptimizedAPIManager.

Lemma append_cons (c : ascii) (a b : string) : String c a +:+ b = String c (a +:+ b).
Proof. reflexivity. Qed.

Lemma append_empty (b : string) : "" +:+ b = b.
Proof. reflexivity. Qed.

Lemma strip_prefix_sound prefix : ∀ s rest,
  strip_prefix prefix s = Some rest → s = prefix +:+ rest.
Proof.
  induction prefix as [|a prefix IH]; intros s rest; simpl.
  - by intros [= ->].
  - destruct s as [|b s]; [done|].
    destruct (Ascii.eqb_spec a b) as [->|]; [|done].
    intros H. by rewrite (IH _ _ H).
Qed.


Lemma until_quote_sound : ∀ s group,
  until_quote s = Some group →
  has_quote group = false ∧ ∃ rest, s = group +:+ String quote rest.
Proof.
  induction s as [|c s IH]; intros group; simpl; [done|].
  destruct (Ascii.eqb_spec c quote) as [->|Hne].
  - intros [= <-]. split; [done|]. by exists s.
  - destruct (until_quote s) as [g|]; [|done]. simpl. intros [= <-].
    destruct (IH g eq_refl) as (Hq & rest & ->). split.
    + simpl. rewrite Hq. by destruct (Ascii.eqb_spec c quote).
    + exists rest. by rewrite append_cons.
Qed.

(** What [re.search] finds in the page is a non-empty text without a
    quote that stands in the page between the [meta] prefix and a
    quote. *)
Lemma csrf_search_sound : ∀ html token,
  csrf_search html = Some token →
  token ≠ "" ∧ has_quote token = false
  ∧ ∃ before after, html = before +:+ meta_prefix +:+ token +:+ String quote after.
Proof.
  induction html as [|c html IH]; intros token.
  - simpl. unfold match_here. simpl. done.
  - cbn [csrf_search]. destruct (match_here (String c html)) as [group|] eqn:E.
    + intros [= <-]. unfold match_here in E.
      destruct (strip_prefix meta_prefix (String c html)) as [rest|] eqn:Ep; [|done].
      simpl in E. destruct (until_quote rest) as [g|] eqn:Eg; [|done]. simpl in E.
      destruct (str_truthy g) eqn:Et; [|done]. injection E as <-.
      apply strip_prefix_sound in Ep. apply until_quote_sound in Eg as (Hq & after & ->).
      split_and!; [by apply str_truthy_ne|done|].
      exists "", after. by rewrite Ep, append_empty.
    + intros H. destruct (IH token H) as (Hne & Hq & before & after & ->).
      split_and!; [done|done|]. exists (String c before), after.
      by rewrite append_cons.
Qed.

End CsrfPattern.

Section Requests.
Import py config stats.
Import OptimizedAPIManager.
Context {remote : Remote}.

Lemma counters_grow_refl st : counters_grow st st.
Proof. unfold counters_grow. split_and!; done. Qed.

Lemma counters_grow_trans a b c :
  counters_grow a b → counters_grow b c → counters_grow a c.
Proof. unfold counters_grow. intros ? ?. split_and!; lia. Qed.

Lemma advances_refl m : advances m m.
Proof. split; [apply counters_grow_refl|lia]. Qed.

Lemma advances_trans a b c : advances a b → advances b c → advances a c.
Proof.
  intros (? & ? & ?) (? & ? & ?). split; [by eapply counters_grow_trans|lia].
Qed.

Lemma is_cache_valid_effect m :
  smart_cache (is_cache_valid m).2 = smart_cache m
  ∧ csrf_token (is_cache_valid m).2 = csrf_token m
  ∧ csrf_expires_at (is_cache_valid m).2 = csrf_expires_at m
  ∧ request_stats (is_cache_valid m).2 = request_stats m
  ∧ sent (is_cache_valid m).2 = sent m
  ∧ (ticks m ≤ ticks (is_cache_valid m).2)%nat
  ∧ (api_manager.burst_mode_active (smart_cache m) = true →
       is_cache_valid m = (false, m)).
Proof.
  unfold is_cache_valid.
  destruct (api_manager.cache (smart_cache m)), (api_manager.cache_timestamp (smart_cache m)),
    (api_manager.burst_mode_active (smart_cache m)); simpl; split_and!; auto; done.
Qed.

Lemma get_csrf_token_effect force m :
  smart_cache (get_csrf_token force m).2 = smart_cache m
  ∧ advances m (get_csrf_token force m).2
  ∧ (token_truthy (get_csrf_token force m).1 = true
     ∨ (S (sent m) = sent (get_csrf_token force m).2
        ∧ (get_csrf_token force m).1 = None
        ∧ no_token (sent m))).
Proof.
  unfold get_csrf_token, advances, counters_grow, token_truthy, no_token.
  destruct (csrf_token m) as [token|], (csrf_expires_at m) as [expires|];
    destruct force; simpl;
    repeat (case_match; simpl in *; simplify_eq/=); simpl;
    split_and!; try done; try lia.
  all: try (left; match goal with H : csrf_search _ = Some _ |- _ =>
              apply csrf_search_sound in H as (Hne & _); by apply str_truthy_ne end).
  all: try (by left).
  all: right; split_and!; try done.
  all: intros html Hp; try congruence.
  all: injection Hp as ? ?; subst; done.
Qed.

Lemma update_cache_effect new_data m :
  advances m (update_cache new_data false m)
  ∧ sent (update_cache new_data false m) = sent m
  ∧ request_stats (update_cache new_data false m) = request_stats m
  ∧ smart_cache (update_cache new_data false m)
    = api_manager.update_cache [] false 0 0 (smart_cache m).
Proof.
  unfold update_cache, advances. simpl. split_and!; try done; try lia.
Qed.

(** What a fetch that returns has done to the cache, with its cause: the
    answer came from the valid cache, or the last request sent, the [n]-th,
    decided it. *)
Lemma fetch_outcome_some (fuel : nat) : ∀ (force_refresh : bool) (m : Manager) r m',
  fetch_all_accounts_batch fuel force_refresh m = (Some r, m') →
  r = cache_or_empty m'
  ∧ ((force_refresh = false ∧ (is_cache_valid m).1 = true
      ∧ sent m' = sent m ∧ smart_cache m' = smart_cache m)
     ∨ ∃ n, sent m' = S n ∧ (sent m ≤ n)%nat
         ∧ ((no_rows n ∧ smart_cache m' = smart_cache m)
            ∨ ((no_token n ∨ post_update_sender_page n = core.Raises)
               ∧ smart_cache m'
                 = api_manager.update_cache [] false 0 0 (smart_cache m))
            ∨ ∃ rows k, post_update_sender_page n = core.Returns (200, Some rows)
                ∧ ticks m' = S (S k) ∧ (ticks m ≤ k)%nat
                ∧ r = as_account <$> parse_rows rows
                ∧ smart_cache m'
                  = api_manager.update_cache r true (clock k) (clock (S k))
                      (smart_cache m)))
  ∧ advances m m'
  ∧ (force_refresh = true ∨ (is_cache_valid m).1 = false →
       (sent m < sent m')%nat
       ∧ batch_fetches (request_stats m) < batch_fetches (request_stats m')).
Proof.
  induction fuel as [|fuel IH]; intros force m r m' H; [done|].
  cbn [fetch_all_accounts_batch] in H.
  pose proof (is_cache_valid_effect m) as (Hc1 & _ & _ & Hs1 & Hn1 & Hk1 & _).
  assert (∃ valid m1, (if force then (false, m) else is_cache_valid m) = (valid, m1)
            ∧ smart_cache m1 = smart_cache m ∧ request_stats m1 = request_stats m
            ∧ sent m1 = sent m ∧ (ticks m ≤ ticks m1)%nat
            ∧ (force = true ∨ (is_cache_valid m).1 = false → valid = false)
            ∧ (valid = true → force = false ∧ (is_cache_valid m).1 = true))
    as (valid & m1 & Ev & Hc & Hs & Hn & Hk & Hinv & Hval).
  { destruct force.
    - exists false, m. split_and!; done.
    - destruct (is_cache_valid m) as [v m1]. exists v, m1. simpl in *.
      split_and!; try done. by intros [?|?]. }
  rewrite Ev in H. clear Ev Hc1 Hs1 Hn1 Hk1.
  (* the manager that the requests start from *)
  set (m2 := if valid then with_stats bump_cache_hits m1 else m1) in H.
  assert (smart_cache m2 = smart_cache m ∧ sent m2 = sent m
          ∧ (ticks m ≤ ticks m2)%nat
          ∧ counters_grow (request_stats m) (request_stats m2)) as (Hc2 & Hn2 & Hk2 & Hg2).
  { subst m2. destruct valid; simpl; rewrite ?Hs; split_and!; try done;
      unfold counters_grow; simpl; split_and!; lia. }
  destruct (valid && api_manager.list_truthy (api_manager.get_cache (smart_cache m2)))
    eqn:Ehit.
  { (* answered from the cache *)
    apply andb_true_iff in Ehit as [-> _]. destruct (Hval eq_refl) as [-> Hv].
    injection H as <- <-. split_and!; try done.
    - left. split_and!; done.
    - unfold advances. split_and!; [done|lia|lia].
    - intros [?|Hno]; [done|]. congruence. }
  clearbody m2.
  destruct (get_csrf_token false
              (with_stats bump_total_requests (with_stats bump_batch_fetches m2)))
    as [csrf m4] eqn:Ecsrf.
  pose proof (get_csrf_token_effect false
                (with_stats bump_total_requests (with_stats bump_batch_fetches m2)))
    as (Hc4 & Ha4 & Hreq).
  rewrite Ecsrf in Hc4, Ha4, Hreq. simpl in Hc4, Ha4, Hreq.
  assert (advances m m4
          ∧ batch_fetches (request_stats m) < batch_fetches (request_stats m4))
    as [Hadv Hbatch].
  { unfold advances, counters_grow in Ha4, Hg2 |- *. simpl in Ha4.
    rewrite Hn2 in Ha4. split_and!; lia. }
  assert (smart_cache m4 = smart_cache m) as Hcache by congruence.
  rewrite Hn2 in Hreq.
  clear Ecsrf Ha4 Hc4 Hval Hc Hs Hn Hk.
  pose proof Hadv as (Hg4 & Hk4 & Hn4).
  destruct (token_truthy csrf) eqn:Etok; simpl in H.
  2:{ (* no token *)
    injection H as <- <-.
    destruct Hreq as [Hreq|(Hsent & _ & Hno)]; [congruence|]. split_and!.
    - done.
    - right. exists (sent m). simpl. split_and!; [done|lia|].
      right. left. split; [by left|]. by rewrite Hcache.
    - eapply advances_trans; [exact Hadv|]. apply update_cache_effect.
    - intros _. simpl. split; [lia|done]. }
  destruct (post_update_sender_page (sent m4)) as [|[status body]] eqn:Epost.
  { (* the POST raises *)
    injection H as <- <-. split_and!.
    - done.
    - right. exists (sent m4). simpl. split_and!; [done|lia|].
      right. left. split; [by right|]. by rewrite Hcache.
    - eapply advances_trans; [exact Hadv|].
      unfold advances, counters_grow. simpl. split_and!; lia.
    - intros _. simpl. split; [lia|done]. }
  destruct (Z.eqb_spec status 200) as [->|Hstatus].
  { destruct body as [rows|]; injection H as <- <-; split_and!; try done.
    - right. exists (sent m4). simpl. split_and!; [done|lia|].
      right. right. exists rows, (ticks m4). split_and!; try done.
      by rewrite Hcache.
    - eapply advances_trans; [exact Hadv|].
      unfold advances, counters_grow. simpl. split_and!; lia.
    - intros _. simpl. split; [lia|done].
    - right. exists (sent m4). simpl. split_and!; [done|lia|].
      left. split; [|done]. exists 200, None. split; [done|]. by left.
    - eapply advances_trans; [exact Hadv|].
      unfold advances, counters_grow. simpl. split_and!; lia.
    - intros _. simpl. split; [lia|done]. }
  destruct (decide (status ∈ [403; 419])) as [Hin|Hout].
  - (* a new token is called for *)
    rewrite bool_decide_eq_true_2 in H by done.
    apply IH in H as (Hr & Hkind & Hadv' & _). simpl in Hkind.
    assert (advances m4 m') as Hadv''.
    { eapply advances_trans; [|exact Hadv'].
      unfold advances, counters_grow. simpl. split_and!; lia. }
    pose proof Hadv'' as (Hg' & Hk' & Hn').
    split_and!; try done.
    + right. destruct Hkind as [(? & _)|(n & Hsn & Hle & Hkind)]; [done|].
      exists n. split_and!; [done|lia|]. rewrite Hcache in Hkind.
      destruct Hkind as [?|[?|(rows & k & ? & ? & ? & ? & ?)]]; [by left|by right; left|].
      right. right. exists rows, k. split_and!; try done. lia.
    + eapply advances_trans; [exact Hadv|exact Hadv''].
    + intros _. destruct Hg' as (_ & _ & ? & _). destruct Hkind as [(? & _)|(n & ? & ? & _)];
        [done|]. split; lia.
  - rewrite bool_decide_eq_false_2 in H by done.
    injection H as <- <-. split_and!; try done.
    + right. exists (sent m4). simpl. split_and!; [done|lia|].
      left. split; [|done]. exists status, body. split; [done|]. right.
      intros Hin. apply elem_of_cons in Hin as [?|Hin]; [done|]. by apply Hout.
    + eapply advances_trans; [exact Hadv|].
      unfold advances, counters_grow. simpl. split_and!; lia.
    + intros _. simpl. split; [lia|done].
Qed.

Lemma fetch_answers (fuel : nat) : ∀ (force_refresh : bool) (m : Manager),
  (∀ n status body, post_update_sender_page n = core.Returns (status, body) →
     status ≠ 403 ∧ status ≠ 419) →
  is_Some (fetch_all_accounts_batch (S fuel) force_refresh m).1.
Proof.
  intros force m Hpost. cbn [fetch_all_accounts_batch].
  destruct (if force then (false, m) else is_cache_valid m) as [valid m1].
  destruct (valid && api_manager.list_truthy _); [done|].
  destruct (get_csrf_token false _) as [csrf m4].
  destruct (negb (token_truthy csrf)); [done|].
  destruct (post_update_sender_page (sent m4)) as [|[status body]] eqn:Ep; [done|].
  destruct (status =? 200); [by destruct body|].
  destruct (Hpost _ _ _ Ep) as [H403 H419].
  rewrite bool_decide_eq_false_2; [done|].
  intros Hin. apply elem_of_cons in Hin as [?|Hin]; [done|].
  apply elem_of_cons in Hin as [?|Hin]; [done|]. by apply elem_of_nil in Hin.
Qed.

(** X6.  Whatever the remote side answers, a call of
    [fetch_all_accounts_batch] that returns hands back the snapshot that
    the cache then holds, or the empty list when it holds none, and what it
    did to the cache has one of four causes.  Either the call was not
    forced, [is_cache_valid] held and nothing was sent: the cache is as it
    was.  Or the last request sent, the [n]-th, decided: a POST answered
    with nothing to store (status 200 without [data], or a status other
    than 200, 403 and 419) leaves the cache as it was; a GET that yields no
    token, or a POST that raises, leaves it as [update_cache([],
    success=False)] does; a POST answered with status 200 and rows leaves
    it as [update_cache(parsed, success=True)] does, where [parsed] is the
    answer returned, parsed from exactly these rows, and the two time
    stamps are the last two clock readings of the call.  The counters, the
    clock readings and the requests sent only grow.  The call returns as
    soon as no POST is answered with 403 or 419. *)
Theorem fetch_all_accounts_batch_outcome (fuel : nat) (force_refresh : bool)
    (m : Manager) :
  (∀ r m', fetch_all_accounts_batch fuel force_refresh m = (Some r, m') →
     r = cache_or_empty m'
     ∧ ((force_refresh = false ∧ (is_cache_valid m).1 = true
         ∧ sent m' = sent m ∧ smart_cache m' = smart_cache m)
        ∨ ∃ n, sent m' = S n ∧ (sent m ≤ n)%nat
            ∧ ((no_rows n ∧ smart_cache m' = smart_cache m)
               ∨ ((no_token n ∨ post_update_sender_page n = core.Raises)
                  ∧ smart_cache m'
                    = api_manager.update_cache [] false 0 0 (smart_cache m))
               ∨ ∃ rows k,
                   post_update_sender_page n = core.Returns (200, Some rows)
                   ∧ ticks m' = S (S k) ∧ (ticks m ≤ k)%nat
                   ∧ r = as_account <$> parse_rows rows
                   ∧ smart_cache m'
                     = api_manager.update_cache r true (clock k) (clock (S k))
                         (smart_cache m)))
     ∧ advances m m')
  ∧ ((∀ n status body, post_update_sender_page n = core.Returns (status, body) →
        status ≠ 403 ∧ status ≠ 419) →
     fuel ≠ 0%nat → is_Some (fetch_all_accounts_batch fuel force_refresh m).1).
Proof.
  split.
  - intros r m' H. apply fetch_outcome_some in H as (? & ? & ? & _). done.
  - intros Hpost Hfuel. destruct fuel as [|fuel]; [done|]. by apply fetch_answers.
Qed.

(** X7.  A lookup on a valid cache costs one clock reading and nothing
    else: with a non-empty snapshot younger than the TTL and the burst
    mode off, [fetch_all_accounts_batch] returns the snapshot and counts a
    cache hit without sending a request, and [search_sender_by_id] answers
    from the snapshot without sending a request or touching a counter. *)
Theorem valid_cache_sends_nothing (fuel : nat) (m : Manager)
    (accounts : list api_manager.Account) (fetched_at : Z) :
  api_manager.cache (smart_cache m) = Some accounts →
  accounts ≠ [] →
  api_manager.cache_timestamp (smart_cache m) = Some fetched_at →
  api_manager.burst_mode_active (smart_cache m) = false →
  clock (ticks m) - fetched_at < api_manager.cache_ttl (smart_cache m) * 1000000 →
  fetch_all_accounts_batch (S fuel) false m
    = (Some accounts, with_stats bump_cache_hits (tick m))
  ∧ ∀ account_id,
      search_sender_by_id fuel account_id m
      = (Some (api_manager.scan_by_id account_id accounts), tick m).
Proof.
  intros Hc Hne Hts Hoff Hage.
  assert (is_cache_valid m = (true, tick m)) as Hvalid.
  { unfold is_cache_valid. rewrite Hc, Hts, Hoff. unfold now.
    unfold api_manager.is_cache_valid, api_manager.seconds_lt. rewrite Hc, Hts, Hoff.
    by destruct (Z.ltb_spec (clock (ticks m) - fetched_at)
                   (api_manager.cache_ttl (smart_cache m) * 1000000)); [|lia]. }
  split.
  - cbn [fetch_all_accounts_batch]. rewrite Hvalid. simpl. unfold api_manager.get_cache.
    rewrite Hc. destruct accounts; [done|]. simpl. unfold cache_or_empty. simpl.
    unfold api_manager.get_cache. by rewrite Hc.
  - intros account_id. unfold search_sender_by_id. rewrite Hvalid. simpl.
    unfold api_manager.get_account_by_id. rewrite Hc. by destruct accounts.
Qed.

(** X8.  In burst mode every lookup goes to the remote side: a
    [search_sender_by_id] that returns while the burst flag is set has
    counted a batch fetch and sent at least one request, and answers from
    the cache as the fetch left it. *)
Theorem burst_lookup_always_fetches (fuel : nat) (account_id : PyVal) (m : Manager)
    (r : option api_manager.Account) (m' : Manager) :
  api_manager.burst_mode_active (smart_cache m) = true →
  search_sender_by_id fuel account_id m = (Some r, m') →
  (sent m < sent m')%nat
  ∧ batch_fetches (request_stats m) < batch_fetches (request_stats m')
  ∧ r = api_manager.get_account_by_id account_id (smart_cache m').
Proof.
  intros Hon H. unfold search_sender_by_id in H.
  destruct (is_cache_valid_effect m) as (_ & _ & _ & _ & _ & _ & Hburst).
  rewrite (Hburst Hon) in H.
  destruct (fetch_all_accounts_batch fuel false m) as [fetched m1] eqn:Ef.
  destruct fetched as [accounts|]; [|done]. simpl in H. injection H as <- <-.
  apply fetch_outcome_some in Ef as (_ & _ & _ & Hsent).
  destruct Hsent as [? ?]; [right; by rewrite (Hburst Hon)|]. done.
Qed.

(** X9.  A token that [get_csrf_token] returns is never empty and is the
    one the manager then holds, with an expiry; while the clock is before
    that expiry another call returns the same token from memory, counting
    a cache hit and sending nothing.  A token answered without a request
    is the one held before, in a call that was not forced, with the expiry
    held before, which the clock reading of the call precedes.  Any other
    token was found in the page that answered the request sent, with
    status 200, holds no quote, and expires [CSRF_TOKEN_TTL] seconds after
    the last clock reading of the call, which is taken when the token is
    stored. *)
Theorem get_csrf_token_cached (force_refresh : bool) (m : Manager)
    (token : string) (m1 : Manager) :
  get_csrf_token force_refresh m = (Some token, m1) →
  token ≠ "" ∧ csrf_token m1 = Some token
  ∧ ∃ expires, csrf_expires_at m1 = Some expires
      ∧ (clock (ticks m1) < expires →
           get_csrf_token false m1
           = (Some token, with_stats bump_cache_hits (tick m1)))
      ∧ ((sent m1 = sent m ∧ force_refresh = false
          ∧ csrf_token m = Some token ∧ csrf_expires_at m = Some expires
          ∧ ticks m1 = S (ticks m) ∧ clock (ticks m) < expires)
         ∨ (sent m1 = S (sent m) ∧ has_quote token = false
            ∧ (∃ html, get_sender_page (sent m) = core.Returns (200, html)
                       ∧ csrf_search html = Some token)
            ∧ ∃ k, ticks m1 = S k ∧ (ticks m ≤ k)%nat
                   ∧ expires = clock k + CSRF_TOKEN_TTL * 1000000)).
Proof.
  intros H.
  assert (token ≠ "" ∧ csrf_token m1 = Some token
          ∧ ∃ expires, csrf_expires_at m1 = Some expires
              ∧ ((sent m1 = sent m ∧ force_refresh = false
                  ∧ csrf_token m = Some token ∧ csrf_expires_at m = Some expires
                  ∧ ticks m1 = S (ticks m) ∧ clock (ticks m) < expires)
                 ∨ (sent m1 = S (sent m) ∧ has_quote token = false
                    ∧ (∃ html, get_sender_page (sent m) = core.Returns (200, html)
                               ∧ csrf_search html = Some token)
                    ∧ ∃ k, ticks m1 = S k ∧ (ticks m ≤ k)%nat
                           ∧ expires = clock k + CSRF_TOKEN_TTL * 1000000)))
    as (Hne & Htok & expires & Hexp & Hhow).
  { unfold get_csrf_token in H.
    destruct (csrf_token m) as [token0|] eqn:E0, (csrf_expires_at m) as [expires0|] eqn:E1;
      destruct force_refresh; simpl in H;
      repeat (case_match; simpl in *; simplify_eq/=);
      try match goal with
          | Hs : csrf_search ?html = Some _, Hz : (_ =? 200) = true |- _ =>
              apply Z.eqb_eq in Hz; subst;
              pose proof (csrf_search_sound _ _ Hs) as (Hne & Hq & _);
              split_and!; [done|done|];
              eexists; split; [reflexivity|]; right;
              split_and!; [done|done|by eexists|];
              eexists; split_and!; [reflexivity|simpl; lia|reflexivity]
          end.
    all: split_and!; [by apply str_truthy_ne|done|].
    all: eexists; split; [done|]; left; split_and!; try done; by apply Z.ltb_lt. }
  split_and!; [done|done|]. exists expires. split_and!; [done| |done].
  intros Hfresh. unfold get_csrf_token. rewrite Htok, Hexp. simpl.
  replace (str_truthy token) with true by (symmetry; by apply str_truthy_ne).
  simpl. by destruct (Z.ltb_spec (clock (ticks m1)) expires); [|lia].
Qed.

End Requests.

(** *** Helpers for the examples: tests that compute to a boolean *)

Lemma pair_fst_eq {A B} (p : A * B) (a : A) : p.1 = a → p = (a, p.2).
Proof. destruct p. simpl. by intros ->. Qed.

Lemma some_default {A} (o : option A) (d : A) :
  match o with Some _ => true | None => false end = true → o = Some (default d o).
Proof. by destruct o. Qed.

Lemma nonempty_test {A} (l : list A) :
  match l with [] => false | _ :: _ => true end = true → l ≠ [].
Proof. by destruct l. Qed.

(** With the remote side of the examples, the first fetch obtains the
    token and the rows with two requests, and returns the one record that
    the cache then holds. *)
Lemma fetch_all_accounts_batch_outcome_witness :
  let run := OptimizedAPIManager.fetch_all_accounts_batch (remote := examples.remote)
               1 false examples.manager0 in
  default [] run.1 = OptimizedAPIManager.cache_or_empty run.2
  ∧ length (default [] run.1) = 1%nat
  ∧ OptimizedAPIManager.sent run.2 = 2%nat.
Proof.
  cbn zeta.
  destruct (fetch_all_accounts_batch_outcome (remote := examples.remote)
              1 false examples.manager0) as [Hout _].
  destruct (Hout (default [] (OptimizedAPIManager.fetch_all_accounts_batch
                                (remote := examples.remote) 1 false examples.manager0).1)
              (OptimizedAPIManager.fetch_all_accounts_batch (remote := examples.remote)
                 1 false examples.manager0).2) as (Heq & _ & _).
  { apply pair_fst_eq, some_default. vm_compute. reflexivity. }
  split; [exact Heq|]. split; vm_compute; reflexivity.
Defined.

(** After a first fetch, a lookup of account 7 is answered from the cache:
    no third request is sent. *)
Lemma valid_cache_sends_nothing_witness :
  let m := (OptimizedAPIManager.fetch_all_accounts_batch (remote := examples.remote)
              1 false examples.manager0).2 in
  let found := OptimizedAPIManager.search_sender_by_id (remote := examples.remote)
                 1 (py.VStr "7") m in
  OptimizedAPIManager.sent found.2 = 2%nat ∧ is_Some found.1.
Proof.
  cbn zeta.
  set (m := (OptimizedAPIManager.fetch_all_accounts_batch (remote := examples.remote)
               1 false examples.manager0).2).
  destruct (valid_cache_sends_nothing (remote := examples.remote) 1 m
              (default [] (api_manager.cache (OptimizedAPIManager.smart_cache m)))
              1000000) as [_ Hsearch].
  - apply some_default. vm_compute. reflexivity.
  - apply nonempty_test. vm_compute. reflexivity.
  - vm_compute. reflexivity.
  - vm_compute. reflexivity.
  - vm_compute. reflexivity.
  - rewrite Hsearch. split; [vm_compute; reflexivity|]. by eexists.
Defined.

(** In burst mode the lookup of account 7 sends the two requests of a
    fetch. *)
Lemma burst_lookup_always_fetches_witness :
  let found := OptimizedAPIManager.search_sender_by_id (remote := examples.remote)
                 1 (py.VStr "7") examples.manager_in_burst in
  (OptimizedAPIManager.sent examples.manager_in_burst
     < OptimizedAPIManager.sent found.2)%nat
  ∧ OptimizedAPIManager.sent found.2 = 2%nat.
Proof.
  cbn zeta.
  destruct (burst_lookup_always_fetches (remote := examples.remote) 1 (py.VStr "7")
              examples.manager_in_burst
              (default None (OptimizedAPIManager.search_sender_by_id
                               (remote := examples.remote)
                               1 (py.VStr "7") examples.manager_in_burst).1)
              (OptimizedAPIManager.search_sender_by_id (remote := examples.remote)
                 1 (py.VStr "7") examples.manager_in_burst).2) as (Hsent & _ & _).
  - reflexivity.
  - apply pair_fst_eq, some_default. vm_compute. reflexivity.
  - split; [exact Hsent|vm_compute; reflexivity].
Defined.

(** The token of the page of the examples is cached for 1200 seconds. *)
Lemma get_csrf_token_cached_witness :
  let first := OptimizedAPIManager.get_csrf_token (remote := examples.remote)
                 false examples.manager0 in
  first.1 = Some "tok123"
  ∧ OptimizedAPIManager.csrf_expires_at first.2 = Some (1200 * 1000000)
  ∧ (OptimizedAPIManager.get_csrf_token (remote := examples.remote) false first.2).1
    = Some "tok123".
Proof.
  cbn zeta.
  destruct (get_csrf_token_cached (remote := examples.remote) false examples.manager0
              "tok123"
              (OptimizedAPIManager.get_csrf_token (remote := examples.remote)
                 false examples.manager0).2)
    as (_ & _ & expires & Hexp & Hagain & _).
  { vm_compute. reflexivity. }
  split; [vm_compute; reflexivity|]. split; [vm_compute; reflexivity|].
  rewrite Hagain; [reflexivity|].
  assert (expires = 1200 * 1000000) as ->.
  { assert (Some expires = Some (1200 * 1000000)) as [= ->]; [|reflexivity].
    rewrite <- Hexp. vm_compute. reflexivity. }
  vm_compute. reflexivity.
Defined.

(** ** The tracked accounts *)

Section TrackedStore.
Import py config stats logging core.
Context {builtins : Builtins} {env : Environment}.

Lemma dict_set_keys {V} (k : string) (v : V) (d : Dict V) :
  (dict_set k v d).*1
  = if bool_decide (k ∈ d.*1) then d.*1 else d.*1 ++ [k].
Proof.
  induction d as [|[k' v'] d IH]; [done|]. cbn [dict_set].
  destruct (decide (k' = k)) as [->|Hne].
  - rewrite bool_decide_eq_true_2 by done. rewrite !fmap_cons. cbn [fst].
    by rewrite bool_decide_eq_true_2 by (apply elem_of_cons; by left).
  - rewrite bool_decide_eq_false_2 by done. rewrite !fmap_cons, IH. cbn [fst].
    destruct (decide (k ∈ d.*1)) as [Hin|Hout].
    + rewrite !bool_decide_eq_true_2; [done|by apply elem_of_cons; right|done].
    + rewrite !bool_decide_eq_false_2; [done| |done].
      intros [?|?]%elem_of_cons; congruence.
Qed.

(** X10.  [add_monitored_account] stores the entry under the key
    [account_id_email], stamped with the two clock readings it takes:
    looking the key up afterwards gives that entry, every other key keeps
    its entry, and the keys keep their order, the new key coming last when
    it was not there.  An entry already stored under the key is replaced
    as a whole: its status, chat, source and dates are those of the last
    call.  One record is logged and nothing else changes. *)
Theorem add_monitored_account_stores (email account_id status : string) (chat_id : Z)
    (source : string) (w : World) :
  let w' := add_monitored_account email account_id status chat_id source w in
  let key := account_id +:+ "_" +:+ email in
  dict_get key (monitored_accounts w')
  = Some {| core.email := email; core.account_id := account_id;
            last_known_status := status; core.chat_id := chat_id;
            core.source := source; added_at := clock (ticks w);
            last_check := clock (S (ticks w)) |}
  ∧ (∀ other, other ≠ key →
       dict_get other (monitored_accounts w') = dict_get other (monitored_accounts w))
  ∧ (monitored_accounts w').*1
    = (if bool_decide (key ∈ (monitored_accounts w).*1)
       then (monitored_accounts w).*1 else (monitored_accounts w).*1 ++ [key])
  ∧ log w' = log w ++ [(INFO, AccountAdded email account_id source)]
  ∧ ticks w' = S (S (ticks w))
  ∧ smart_cache w' = smart_cache w ∧ request_stats w' = request_stats w
  ∧ taken_queue w' = taken_queue w ∧ pending_queue w' = pending_queue w
  ∧ outbox w' = outbox w.
Proof.
  cbn zeta. unfold add_monitored_account. simpl. split_and!; try done.
  - apply dict_get_set_eq.
  - intros other Hother. by apply dict_get_set_ne.
  - apply dict_set_keys.
Qed.

Lemma update_first_none i s t accounts :
  Forall (λ kd, account_id kd.2 ≠ i) accounts →
  update_first i s t accounts = None.
Proof.
  induction 1 as [|[k d] l Hne _ IH]; [done|]. simpl in *.
  rewrite bool_decide_eq_false_2 by done. by rewrite IH.
Qed.

Lemma update_first_split i s t pre k d post :
  Forall (λ kd, account_id kd.2 ≠ i) pre →
  account_id d = i →
  update_first i s t (pre ++ (k, d) :: post) = Some (pre ++ (k, checked s t d) :: post).
Proof.
  intros Hpre Hd. induction Hpre as [|[k' d'] l Hne _ IH]; simpl.
  - by rewrite bool_decide_eq_true_2.
  - simpl in Hne. rewrite bool_decide_eq_false_2 by done. by rewrite IH.
Qed.

(** X11.  [update_monitored_account_status] rewrites the first entry, in
    the order of the file, that carries the identifier: that entry gets
    the new status and the clock reading as its check time and keeps its
    key and its other fields, and every other entry, also a later one with
    the same identifier, is left as it is.  When no entry carries the
    identifier the file is not written, the clock is not read, and a
    warning is logged. *)
Theorem update_status_first_match (account_id new_status : string) (w : World) :
  let w' := update_monitored_account_status account_id new_status w in
  (Forall (λ kd, core.account_id kd.2 ≠ account_id) (monitored_accounts w) →
     w' = logger WARNING (AccountIdNotFound account_id) w)
  ∧ (∀ pre key data post,
       monitored_accounts w = pre ++ (key, data) :: post →
       Forall (λ kd, core.account_id kd.2 ≠ account_id) pre →
       core.account_id data = account_id →
       monitored_accounts w'
       = pre ++ (key, checked new_status (clock (ticks w)) data) :: post
       ∧ ticks w' = S (ticks w) ∧ log w' = log w ∧ outbox w' = outbox w
       ∧ taken_queue w' = taken_queue w ∧ pending_queue w' = pending_queue w
       ∧ smart_cache w' = smart_cache w ∧ request_stats w' = request_stats w).
Proof.
  cbn zeta. unfold update_monitored_account_status, load_monitored_accounts. split.
  - intros Hnone. by rewrite update_first_none.
  - intros pre key data post Hw Hpre Hdata. rewrite Hw.
    rewrite update_first_split by done. simpl. split_and!; done.
Qed.

End TrackedStore.

(** Account 7 is added by the discovery and then again by a session: the
    store holds one entry for it, the one of the session. *)
Lemma add_monitored_account_stores_witness :
  let w1 := core.add_monitored_account (env := examples.env)
              "a@x.com" "7" "AVAILABLE" 0 "manual" examples.world0 in
  let w2 := core.add_monitored_account (env := examples.env)
              "a@x.com" "7" "AVAILABLE" 5 "bot" w1 in
  (core.monitored_accounts w2).*1 = ["7_a@x.com"]
  ∧ (core.source <$> core.dict_get "7_a@x.com" (core.monitored_accounts w2)) = Some "bot".
Proof.
  cbn zeta.
  set (w1 := core.add_monitored_account (env := examples.env)
               "a@x.com" "7" "AVAILABLE" 0 "manual" examples.world0).
  destruct (add_monitored_account_stores (env := examples.env)
              "a@x.com" "7" "AVAILABLE" 5 "bot" w1) as (Hget & _ & Hkeys & _).
  split.
  - rewrite Hkeys. reflexivity.
  - change ("7_a@x.com") with ("7" +:+ "_" +:+ "a@x.com"). rewrite Hget. reflexivity.
Defined.

(** With two entries for account 7 in the file, only the first one gets
    the new status. *)
Lemma update_status_first_match_witness :
  let twice := core.save_monitored_accounts
                 [("7_a@x.com", examples.tracked7); ("7_b@x.com", examples.tracked7)]
                 examples.world0 in
  core.last_known_status <$> (core.monitored_accounts
     (core.update_monitored_account_status (env := examples.env) "7" "DISABLED" twice)).*2
  = ["DISABLED"; "AVAILABLE"].
Proof.
  cbn zeta.
  destruct (update_status_first_match (env := examples.env) "7" "DISABLED"
              (core.save_monitored_accounts
                 [("7_a@x.com", examples.tracked7); ("7_b@x.com", examples.tracked7)]
                 examples.world0)) as [_ Hfirst].
  destruct (Hfirst [] "7_a@x.com" examples.tracked7 [("7_b@x.com", examples.tracked7)])
    as (-> & _); [reflexivity|constructor|reflexivity|].
  reflexivity.
Defined.

(** ** The reconciliation loop, continued *)

Section ReconcileFurther.
Import py config stats logging core.
Context {builtins : Builtins} {env : Environment}.

(** The body of the loop never raises: it ends in the state that
    [check_result] writes out. *)
Lemma check_account_run accounts_by_id data st :
  check_account accounts_by_id data st = (inr (), check_result accounts_by_id data st).
Proof.
  destruct st as [changes w]. unfold check_account, check_result. cbn [fst snd].
  destruct (negb (str_truthy (account_id data))); [done|].
  destruct (accounts_by_id !! account_id data) as [info|]; [|done].
  destruct (negb (dict_truthy info)); [done|].
  destruct (bool_decide (_ ≠ _)); [|done].
  unfold enqueue_taken, taken_effect, attention_effect, float_gt_zero.
  unfold mbind, M_bind, mret, M_ret, count_change, on_world, try_except_value_type, raise.
  destruct (bool_decide (_ ∈ ["AMOUNT TAKEN"; "DISABLED"])).
  - destruct (float_positive _) as [[|]|]; cbn beta iota;
      destruct (bool_decide (_ ∈ ["BACKUP CODE WRONG"; "WRONG DETAILS"]));
      try reflexivity;
      destruct (bool_decide (_ = "TRANSFER LIST IS FULL")); reflexivity.
  - cbn beta iota.
    destruct (bool_decide (_ ∈ ["BACKUP CODE WRONG"; "WRONG DETAILS"]));
      try reflexivity;
      destruct (bool_decide (_ = "TRANSFER LIST IS FULL")); reflexivity.
Qed.

Lemma check_step_result accounts_by_id st key data :
  check_step accounts_by_id st (key, data) = check_result accounts_by_id data st.
Proof. unfold check_step, try_except. simpl. by rewrite check_account_run. Qed.

Lemma update_first_shape i s t : ∀ l l',
  update_first i s t l = Some l' →
  l'.*1 = l.*1 ∧ tracked_ids l' = tracked_ids l.
Proof.
  unfold tracked_ids.
  induction l as [|[k d] l IH]; intros l'; cbn [update_first]; [done|].
  case_bool_decide.
  - by intros [= <-].
  - destruct (update_first i s t l) as [l0|]; [|done]. cbn. intros [= <-].
    destruct (IH l0 eq_refl) as [H1 H2]. rewrite !fmap_cons. cbn [fst snd].
    by rewrite H1, H2.
Qed.

Lemma log_extends_same w w' : log w' = log w → log_extends w w'.
Proof.
  intros E. exists []. split; [by rewrite app_nil_r|]. by intros ?%elem_of_nil.
Qed.

Lemma log_extends_refl w : log_extends w w.
Proof. by apply log_extends_same. Qed.

Lemma log_extends_trans w1 w2 w3 :
  log_extends w1 w2 → log_extends w2 w3 → log_extends w1 w3.
Proof.
  intros (a & Ha & Hna) (b & Hb & Hnb). exists (a ++ b). split.
  - by rewrite Hb, Ha, app_assoc.
  - intros [?|?]%elem_of_app; auto.
Qed.

Lemma monitor_frame_refl w : monitor_frame w w.
Proof. unfold monitor_frame. done. Qed.

Lemma monitor_frame_trans w1 w2 w3 :
  monitor_frame w1 w2 → monitor_frame w2 w3 → monitor_frame w1 w3.
Proof.
  unfold monitor_frame. intros (?&?&?&?&?) (?&?&?&?&?). split_and!; congruence.
Qed.

(** What a [logger] call other than that of the handler changes. *)
Lemma logger_effect l m w :
  m ≠ ErrorChecking →
  monitored_accounts (logger l m w) = monitored_accounts w
  ∧ monitor_frame w (logger l m w) ∧ log_extends w (logger l m w)
  ∧ outbox (logger l m w) = outbox w ∧ taken_queue (logger l m w) = taken_queue w.
Proof.
  intros Hm. split_and!; try done. exists [(l, m)]. split; [done|].
  intros [=]%list_elem_of_singleton. done.
Qed.

Lemma update_status_effect i s w :
  monitor_frame w (update_monitored_account_status i s w)
  ∧ log_extends w (update_monitored_account_status i s w)
  ∧ outbox (update_monitored_account_status i s w) = outbox w
  ∧ taken_queue (update_monitored_account_status i s w) = taken_queue w.
Proof.
  unfold update_monitored_account_status, load_monitored_accounts.
  destruct (update_first i s (clock (ticks w)) (monitored_accounts w)) as [l|] eqn:E.
  - apply update_first_shape in E as [Hk Hi].
    split_and!; try done. by apply log_extends_same.
  - by apply logger_effect.
Qed.

Lemma taken_effect_effect status email i info w :
  monitored_accounts (taken_effect status email i info w) = monitored_accounts w
  ∧ monitor_frame w (taken_effect status email i info w)
  ∧ log_extends w (taken_effect status email i info w)
  ∧ outbox (taken_effect status email i info w) = outbox w.
Proof.
  unfold taken_effect. case_bool_decide; [|by split_and!; [..|apply log_extends_refl|]].
  destruct (float_positive (get info "Taken" "0")) as [[|]|].
  - simpl. split_and!; try done.
    exists [(INFO, TakenDetected status email (get info "Taken" "0"));
            (INFO, TakenQueued email i (replace_char " " "_" status)
                     (get info "Taken" "0"))].
    split; [simpl; by rewrite <- app_assoc|].
    intros Hin. apply elem_of_cons in Hin as [[=]|Hin].
    by apply list_elem_of_singleton in Hin.
  - split_and!; try done. apply log_extends_refl.
  - split_and!; try done; by apply logger_effect.
Qed.

Lemma attention_effect_effect status email w :
  monitored_accounts (attention_effect status email w) = monitored_accounts w
  ∧ monitor_frame w (attention_effect status email w)
  ∧ log_extends w (attention_effect status email w)
  ∧ outbox (attention_effect status email w) = outbox w
  ∧ taken_queue (attention_effect status email w) = taken_queue w.
Proof.
  unfold attention_effect. repeat case_bool_decide.
  - by apply logger_effect.
  - by apply logger_effect.
  - split_and!; try done. apply log_extends_refl.
Qed.

Lemma send_effect e i old new c src w :
  let w' := send_status_notification e i old new c src w in
  monitored_accounts w' = monitored_accounts w
  ∧ monitor_frame w w' ∧ log_extends w w'
  ∧ taken_queue w' = taken_queue w
  ∧ (c = 0 → outbox w' = outbox w)
  ∧ (outbox w' = outbox w
     ∨ outbox w' = outbox w ++ [{| n_chat_id := c; n_email := e; n_account_id := i;
                                  n_old_status := old; n_new_status := new;
                                  n_source := src |}]).
Proof.
  cbn zeta. unfold send_status_notification.
  destruct (Z.eqb_spec c 0) as [->|Hc].
  - destruct (logger_effect INFO (SkipNotification e) w) as (?&?&?&?&?); [done|].
    split_and!; auto.
  - destruct (send_message_fails (length (outbox w))).
    + destruct (logger_effect ERROR NotificationFailed w) as (?&?&?&?&?); [done|].
      split_and!; auto.
    + split_and!; try done; [by apply log_extends_same|by right].
Qed.

Lemma in_batch_status accounts_by_id data :
  in_batch accounts_by_id data = true →
  ∃ info, str_truthy (account_id data) = true
    ∧ accounts_by_id !! account_id data = Some info ∧ dict_truthy info = true
    ∧ reconciled_status accounts_by_id data = upper (get info "Status" "غير محدد").
Proof.
  unfold in_batch, reconciled_status. intros [Hs Hi]%andb_true_iff.
  destruct (accounts_by_id !! account_id data) as [info|]; [|done].
  exists info. rewrite Hs, Hi. done.
Qed.

Lemma not_in_batch_status accounts_by_id data :
  in_batch accounts_by_id data = false →
  reconciled_status accounts_by_id data = last_known_status data
  ∧ ∀ st, check_result accounts_by_id data st = st
          ∨ check_result accounts_by_id data st
            = (st.1, logger WARNING (NotInBatch (account_id data)) st.2).
Proof.
  unfold in_batch, reconciled_status, check_result. intros H.
  destruct (str_truthy (account_id data)); simpl in *; [|by split; [|left]].
  destruct (accounts_by_id !! account_id data) as [info|]; [|by split; [|right]].
  rewrite H. simpl. by split; [|right].
Qed.

Lemma check_result_effect (accounts_by_id : gmap string AccountInfo)
    (data : Tracked) (changes : Z) (w : World) :
  let st' := check_result accounts_by_id data (changes, w) in
  monitor_frame w st'.2
  ∧ log_extends w st'.2
  ∧ (chat_id data = 0 → outbox st'.2 = outbox w)
  ∧ ((st'.1 = changes ∧ outbox st'.2 = outbox w ∧ taken_queue st'.2 = taken_queue w)
     ∨ (st'.1 = changes + 1
        ∧ in_batch accounts_by_id data = true
        ∧ reconciled_status accounts_by_id data ≠ upper (last_known_status data)
        ∧ (outbox st'.2 = outbox w
           ∨ outbox st'.2 = outbox w ++ [change_message accounts_by_id data]))).
Proof.
  cbn zeta.
  destruct (in_batch accounts_by_id data) eqn:Hin.
  - destruct (in_batch_status _ _ Hin) as (info & Hs & Hl & Ht & Hr).
    unfold check_result. rewrite Hs, Hl, Ht. cbn [negb fst snd]. rewrite <- Hr.
    case_bool_decide as Hchg.
    + cbn [fst snd].
      set (w1 := logger INFO _ w).
      set (w2 := taken_effect _ _ _ _ w1).
      set (w3 := attention_effect _ _ w2).
      set (w4 := update_monitored_account_status _ _ w3).
      destruct (logger_effect INFO
                  (StatusChanged (email data) (upper (last_known_status data))
                     (reconciled_status accounts_by_id data)) w)
        as (_ & Hf1 & Hg1 & Ho1 & Hq1); [done|]. fold w1 in Hf1, Hg1, Ho1, Hq1.
      destruct (taken_effect_effect (reconciled_status accounts_by_id data) (email data)
                  (account_id data) info w1) as (_ & Hf2 & Hg2 & Ho2).
      fold w2 in Hf2, Hg2, Ho2.
      destruct (attention_effect_effect (reconciled_status accounts_by_id data)
                  (email data) w2) as (_ & Hf3 & Hg3 & Ho3 & _).
      fold w3 in Hf3, Hg3, Ho3.
      destruct (update_status_effect (account_id data)
                  (reconciled_status accounts_by_id data) w3) as (Hf4 & Hg4 & Ho4 & _).
      fold w4 in Hf4, Hg4, Ho4.
      destruct (send_effect (email data) (account_id data)
                  (upper (last_known_status data))
                  (reconciled_status accounts_by_id data) (chat_id data) (source data) w4)
        as (_ & Hf5 & Hg5 & _ & Hzero & Ho5). cbn zeta in *.
      assert (outbox w4 = outbox w) as Hout by congruence.
      split_and!.
      * repeat (eapply monitor_frame_trans; [eassumption|]). apply monitor_frame_refl.
      * repeat (eapply log_extends_trans; [eassumption|]). apply log_extends_refl.
      * intros Hc. rewrite (Hzero Hc). exact Hout.
      * right. split_and!; [done|done|done|].
        rewrite <- Hout. destruct Ho5 as [->| ->]; [by left|by right].
    + cbn [fst snd].
      destruct (update_status_effect (account_id data)
                  (reconciled_status accounts_by_id data) w) as (Hf & Hg & Ho & Hq).
      split_and!; try done. by left.
  - destruct (not_in_batch_status _ _ Hin) as [_ Hres].
    destruct (Hres (changes, w)) as [-> | ->]; cbn [fst snd].
    + split_and!; [apply monitor_frame_refl|apply log_extends_refl|done|by left].
    + destruct (logger_effect WARNING (NotInBatch (account_id data)) w)
        as (_ & Hf & Hg & Ho & Hq); [done|].
      split_and!; try done. by left.
Qed.

Lemma send_outbox e i old new c src w :
  outbox (send_status_notification e i old new c src w)
  = if (c =? 0) || send_message_fails (length (outbox w)) then outbox w
    else outbox w ++ [{| n_chat_id := c; n_email := e; n_account_id := i;
                         n_old_status := old; n_new_status := new;
                         n_source := src |}].
Proof.
  unfold send_status_notification.
  destruct (c =? 0); [done|]. by destruct (send_message_fails _).
Qed.

(** When a turn of the loop counts a change and what it then sends. *)
Lemma check_result_outcome (accounts_by_id : gmap string AccountInfo)
    (data : Tracked) (changes : Z) (w : World) :
  let st' := check_result accounts_by_id data (changes, w) in
  if in_batch accounts_by_id data
     && bool_decide (reconciled_status accounts_by_id data
                     ≠ upper (last_known_status data))
  then st'.1 = changes + 1
       ∧ outbox st'.2
         = if (chat_id data =? 0) || send_message_fails (length (outbox w))
           then outbox w
           else outbox w ++ [change_message accounts_by_id data]
  else st'.1 = changes ∧ outbox st'.2 = outbox w
       ∧ taken_queue st'.2 = taken_queue w.
Proof.
  cbn zeta.
  destruct (in_batch accounts_by_id data) eqn:Hin; cbn [andb].
  - destruct (in_batch_status _ _ Hin) as (info & Hs & Hl & Ht & Hr).
    unfold check_result. rewrite Hs, Hl, Ht. cbn [negb fst snd]. rewrite <- Hr.
    case_bool_decide as Hchg; cbn [fst snd].
    + split; [done|]. rewrite send_outbox.
      set (w1 := logger INFO _ w).
      set (w2 := taken_effect _ _ _ _ w1).
      set (w3 := attention_effect _ _ w2).
      set (w4 := update_monitored_account_status _ _ w3).
      destruct (taken_effect_effect (reconciled_status accounts_by_id data) (email data)
                  (account_id data) info w1) as (_ & _ & _ & Ho2).
      fold w2 in Ho2.
      destruct (attention_effect_effect (reconciled_status accounts_by_id data)
                  (email data) w2) as (_ & _ & _ & Ho3 & _).
      fold w3 in Ho3.
      destruct (update_status_effect (account_id data)
                  (reconciled_status accounts_by_id data) w3) as (_ & _ & Ho4 & _).
      fold w4 in Ho4.
      assert (outbox w4 = outbox w) as -> by (rewrite Ho4, Ho3, Ho2; done).
      done.
    + destruct (update_status_effect (account_id data)
                  (reconciled_status accounts_by_id data) w) as (_ & _ & Ho & Hq).
      done.
  - destruct (not_in_batch_status _ _ Hin) as [_ Hres].
    by destruct (Hres (changes, w)) as [-> | ->].
Qed.

(** X12.  One turn of the loop over a tracked entry never reaches the
    [except Exception] handler; it leaves the cache, the counters, the
    pending queue and the keys and identifiers of the tracked entries as
    they are.  It counts a change, exactly one, exactly when the entry has
    an identifier and a non-empty record in the batch whose upper-cased
    status is not the upper-cased status of the entry; it then sends the
    one message that tells this change to the chat of the entry, unless
    that chat is 0 or the sending fails, and sends nothing else.  In every
    other case it sends nothing and queues nothing. *)
Theorem check_step_notifies_changes_only (accounts_by_id : gmap string AccountInfo)
    (key : string) (data : Tracked) (changes : Z) (w : World) :
  let st' := check_step accounts_by_id (changes, w) (key, data) in
  monitor_frame w st'.2
  ∧ log_extends w st'.2
  ∧ (chat_id data = 0 → outbox st'.2 = outbox w)
  ∧ (if in_batch accounts_by_id data
        && bool_decide (reconciled_status accounts_by_id data
                        ≠ upper (last_known_status data))
     then st'.1 = changes + 1
          ∧ outbox st'.2
            = if (chat_id data =? 0) || send_message_fails (length (outbox w))
              then outbox w
              else outbox w ++ [change_message accounts_by_id data]
     else st'.1 = changes ∧ outbox st'.2 = outbox w
          ∧ taken_queue st'.2 = taken_queue w).
Proof.
  cbn zeta. rewrite check_step_result.
  destruct (check_result_effect accounts_by_id data changes w) as (Hf & Hl & Hz & _).
  split_and!; [exact Hf|exact Hl|exact Hz|]. apply check_result_outcome.
Qed.

Lemma quiet_step accounts_by_id data st :
  quiet_entry accounts_by_id data →
  (check_result accounts_by_id data st).1 = st.1
  ∧ outbox (check_result accounts_by_id data st).2 = outbox st.2
  ∧ taken_queue (check_result accounts_by_id data st).2 = taken_queue st.2.
Proof.
  intros Hq. destruct (in_batch accounts_by_id data) eqn:Hin.
  - destruct (in_batch_status _ _ Hin) as (info & Hs & Hl & Ht & Hr).
    unfold check_result. rewrite Hs, Hl, Ht. cbn [negb]. rewrite <- Hr.
    rewrite bool_decide_eq_false_2 by (intros Hne; apply Hne; by apply Hq).
    cbn [fst snd].
    destruct (update_status_effect (account_id data)
                (reconciled_status accounts_by_id data) st.2) as (_ & _ & Ho & Hq').
    done.
  - destruct (not_in_batch_status _ _ Hin) as [_ Hres].
    by destruct (Hres st) as [-> | ->].
Qed.

Lemma quiet_pass accounts_by_id : ∀ todo st,
  Forall (λ kd, quiet_entry accounts_by_id kd.2) todo →
  (foldl (check_step accounts_by_id) st todo).1 = st.1
  ∧ outbox (foldl (check_step accounts_by_id) st todo).2 = outbox st.2
  ∧ taken_queue (foldl (check_step accounts_by_id) st todo).2 = taken_queue st.2.
Proof.
  induction todo as [|[k d] todo IH]; intros st Hall; [done|].
  inversion Hall as [|? ? Hd Hrest]; subst. cbn [foldl]. rewrite check_step_result.
  destruct (IH (check_result accounts_by_id d st) Hrest) as (H1 & H2 & H3).
  destruct (quiet_step accounts_by_id d st Hd) as (G1 & G2 & G3).
  split_and!; congruence.
Qed.

Lemma frame_pass accounts_by_id : ∀ todo st,
  monitor_frame st.2 (foldl (check_step accounts_by_id) st todo).2.
Proof.
  induction todo as [|[k d] todo IH]; intros st; [apply monitor_frame_refl|].
  cbn [foldl]. rewrite check_step_result.
  eapply monitor_frame_trans; [|apply IH].
  destruct st as [c w]. apply check_result_effect.
Qed.

Lemma not_tracked_before pre i :
  i ∉ tracked_ids pre → Forall (λ kd : string * Tracked, account_id kd.2 ≠ i) pre.
Proof.
  unfold tracked_ids. intros Hout. apply Forall_forall. intros [k d] Hin Heq.
  apply Hout. apply list_elem_of_fmap. exists d. split; [done|].
  apply list_elem_of_fmap. by exists (k, d).
Qed.

Lemma settled_refl accounts_by_id d :
  in_batch accounts_by_id d = false → settled accounts_by_id d d.
Proof.
  intros Hin. destruct (not_in_batch_status _ _ Hin) as [Hr _].
  unfold settled. by rewrite Hr.
Qed.

(** The turn of an entry leaves the file as it was but for this entry,
    which gets the status of its record. *)
Lemma settle_step accounts_by_id pre k d post c w :
  monitored_accounts w = pre ++ (k, d) :: post →
  account_id d ∉ tracked_ids pre →
  ∃ d', settled accounts_by_id d d'
    ∧ monitored_accounts (check_result accounts_by_id d (c, w)).2
      = pre ++ (k, d') :: post.
Proof.
  intros Hw Hpre. apply not_tracked_before in Hpre.
  destruct (in_batch accounts_by_id d) eqn:Hin.
  - destruct (in_batch_status _ _ Hin) as (info & Hs & Hl & Ht & Hr).
    unfold check_result. rewrite Hs, Hl, Ht. cbn [negb fst snd]. rewrite <- Hr.
    case_bool_decide as Hchg; cbn [fst snd].
    + set (w1 := logger INFO _ w).
      set (w2 := taken_effect _ _ _ _ w1).
      set (w3 := attention_effect _ _ w2).
      destruct (taken_effect_effect (reconciled_status accounts_by_id d) (email d)
                  (account_id d) info w1) as (Hm2 & _).
      fold w2 in Hm2.
      destruct (attention_effect_effect (reconciled_status accounts_by_id d)
                  (email d) w2) as (Hm3 & _).
      fold w3 in Hm3.
      assert (monitored_accounts w3 = pre ++ (k, d) :: post) as Hw3
        by (rewrite Hm3, Hm2; exact Hw).
      exists (checked (reconciled_status accounts_by_id d) (clock (ticks w3)) d).
      split; [done|].
      destruct (send_effect (email d) (account_id d) (upper (last_known_status d))
                  (reconciled_status accounts_by_id d) (chat_id d) (source d)
                  (update_monitored_account_status (account_id d)
                     (reconciled_status accounts_by_id d) w3)) as (-> & _).
      unfold update_monitored_account_status, load_monitored_accounts.
      rewrite Hw3. by rewrite update_first_split.
    + exists (checked (reconciled_status accounts_by_id d) (clock (ticks w)) d).
      split; [done|].
      unfold update_monitored_account_status, load_monitored_accounts.
      rewrite Hw. by rewrite update_first_split.
  - exists d. split; [by apply settled_refl|].
    destruct (not_in_batch_status _ _ Hin) as [_ Hres].
    by destruct (Hres (c, w)) as [-> | ->].
Qed.

Lemma settled_ids accounts_by_id (l l' : Dict Tracked) :
  Forall2 (λ kd kd', kd'.1 = kd.1 ∧ settled accounts_by_id kd.2 kd'.2) l l' →
  tracked_ids l' = tracked_ids l
  ∧ last_known_status <$> l'.*2 = reconciled_status accounts_by_id <$> l.*2.
Proof.
  unfold tracked_ids.
  induction 1 as [|[k d] [k' d'] l l' [_ Hs] _ [IH1 IH2]]; [done|].
  rewrite !fmap_cons. cbn [snd]. destruct Hs as (_ & Hi & _ & _ & _ & Hst).
  cbn [snd] in Hi, Hst. by rewrite Hi, Hst, IH1, IH2.
Qed.

(** The loop leaves the file with the same keys, each entry settled, when
    no two entries carry the same identifier. *)
Lemma settle_pass accounts_by_id : ∀ todo done c w,
  monitored_accounts w = done ++ todo →
  NoDup (tracked_ids (done ++ todo)) →
  ∃ todo',
    Forall2 (λ kd kd', kd'.1 = kd.1 ∧ settled accounts_by_id kd.2 kd'.2) todo todo'
    ∧ monitored_accounts (foldl (check_step accounts_by_id) (c, w) todo).2
      = done ++ todo'.
Proof.
  induction todo as [|[k d] todo IH]; intros done c w Hw Hnd.
  - exists []. split; [constructor|]. done.
  - cbn [foldl]. rewrite check_step_result.
    assert (account_id d ∉ tracked_ids done) as Hout.
    { unfold tracked_ids in *. rewrite !fmap_app, !fmap_cons in Hnd.
      apply NoDup_app in Hnd as (_ & Hdis & _). intros Hin.
      apply (Hdis _ Hin). apply elem_of_cons. by left. }
    destruct (settle_step accounts_by_id done k d todo c w Hw Hout) as (d' & Hs & Hw').
    destruct (check_result accounts_by_id d (c, w)) as [c' w'] eqn:E.
    cbn [snd] in Hw'.
    destruct (IH (done ++ [(k, d')]) c' w') as (todo' & Hall & Hfinal).
    { by rewrite <- app_assoc. }
    { unfold tracked_ids in *. rewrite <- app_assoc. cbn [app].
      rewrite !fmap_app, !fmap_cons in Hnd |- *. cbn [snd] in Hnd |- *.
      destruct Hs as (_ & -> & _). exact Hnd. }
    exists ((k, d') :: todo'). split; [by constructor|].
    rewrite Hfinal. by rewrite <- app_assoc.
Qed.

Lemma tracked_id_ids (accounts : Dict Tracked) i :
  tracked_id accounts i ↔ i ∈ tracked_ids accounts.
Proof.
  unfold tracked_id, tracked_ids. split.
  - intros (k & d & Hin & <-). apply list_elem_of_fmap. exists d. split; [done|].
    apply list_elem_of_fmap. by exists (k, d).
  - intros Hin. apply list_elem_of_fmap in Hin as (d & -> & Hin).
    apply list_elem_of_fmap in Hin as ([k d'] & -> & Hin). by exists k, d'.
Qed.

(** When every admissible record of the batch is tracked already, the
    discovery adds nothing and leaves the world as it is. *)
Lemma discovery_idle G chat all : ∀ ex b w,
  (∀ a, a ∈ all → admissible G a → record_id a ∈ ex) →
  foldl (discover_step G chat) (ex, b, w) all = (ex, b, w).
Proof.
  induction all as [|a all IH]; intros ex b w Hall; [done|].
  cbn [foldl].
  destruct (discover_step_cases G chat ex b w a) as [[-> _]|(Ha & Hout & _)].
  - apply IH. intros a' Hin. apply Hall. by apply elem_of_cons; right.
  - destruct Hout. apply Hall; [by apply elem_of_cons; left|done].
Qed.

Lemma monitor_cycle_idle G chat all w :
  (∀ a, a ∈ all → admissible G a → tracked_id (monitored_accounts w) (record_id a)) →
  monitor_cycle G chat all w
  = match monitored_accounts w with
    | [] => w
    | _ =>
        let r := reconcile (index_by_id all) w in
        let a := api_manager.adjust_ttl r.1 (smart_cache r.2) (request_stats r.2) in
        set_smart_cache a.1 a.2 r.2
    end.
Proof.
  intros Hall. unfold monitor_cycle, auto_discovery, reconcile, load_monitored_accounts.
  rewrite discovery_idle.
  - destruct (monitored_accounts w) as [|kd l]; [done|].
    destruct (foldl _ _ _) as [c w']. cbn [fst snd].
    by destruct (api_manager.adjust_ttl _ _ _).
  - intros a Hin Ha. apply elem_of_existing_ids. split; [apply Ha|by apply Hall].
Qed.

Lemma settled_quiet accounts_by_id d d' :
  (∀ s, upper (upper s) = upper s) →
  settled accounts_by_id d d' → quiet_entry accounts_by_id d'.
Proof.
  intros Hup (_ & Hi & _ & _ & _ & Hst) Hin.
  assert (in_batch accounts_by_id d = true) as Hin0.
  { unfold in_batch in *. by rewrite <- Hi. }
  destruct (in_batch_status _ _ Hin) as (info & _ & Hl & _ & Hr).
  destruct (in_batch_status _ _ Hin0) as (info0 & _ & Hl0 & _ & Hr0).
  rewrite Hi in Hl. assert (info0 = info) as -> by congruence.
  rewrite Hst, Hr0, Hr. by rewrite Hup.
Qed.

Lemma settled_again accounts_by_id d d' d'' :
  (∀ s, upper (upper s) = upper s) →
  settled accounts_by_id d d' → settled accounts_by_id d' d'' →
  last_known_status d'' = last_known_status d'.
Proof.
  intros Hup Hs (_ & _ & _ & _ & _ & Hst'). rewrite Hst'.
  destruct (in_batch accounts_by_id d') eqn:Hin.
  - symmetry. rewrite (settled_quiet _ _ _ Hup Hs Hin) at 1.
    destruct Hs as (_ & Hi & _ & _ & _ & Hst).
    assert (in_batch accounts_by_id d = true) as Hin0.
    { unfold in_batch in *. by rewrite <- Hi. }
    destruct (in_batch_status _ _ Hin) as (info & _ & Hl & _ & Hr).
    destruct (in_batch_status _ _ Hin0) as (info0 & _ & Hl0 & _ & Hr0).
    rewrite Hi in Hl. assert (info0 = info) as -> by congruence.
    rewrite Hst, Hr0. by rewrite Hup.
  - by destruct (not_in_batch_status _ _ Hin) as [-> _].
Qed.

(** X13.  A status change is told once.  With no two tracked entries for
    one identifier, an upper-casing that is idempotent, and every
    admissible record of the batch tracked already, a cycle leaves each
    tracked entry with the upper-cased status of its record in the batch
    (an entry without record keeps its status), and a second cycle on the
    same batch sends no message, queues nothing, changes no status and
    counts a quiet cycle. *)
Theorem settled_cycle_is_quiet (default_group_name : string)
    (default_chat_id : option Z) (all_accounts : list AccountInfo) (w : World) :
  (∀ s, upper (upper s) = upper s) →
  NoDup (tracked_ids (monitored_accounts w)) →
  (∀ a, a ∈ all_accounts → admissible default_group_name a →
        tracked_id (monitored_accounts w) (record_id a)) →
  let first := monitor_cycle default_group_name default_chat_id all_accounts w in
  let second := monitor_cycle default_group_name default_chat_id all_accounts first in
  last_known_status <$> (monitored_accounts first).*2
  = reconciled_status (index_by_id all_accounts) <$> (monitored_accounts w).*2
  ∧ outbox second = outbox first
  ∧ taken_queue second = taken_queue first
  ∧ last_known_status <$> (monitored_accounts second).*2
    = last_known_status <$> (monitored_accounts first).*2
  ∧ (monitored_accounts w ≠ [] →
       api_manager.consecutive_quiet_cycles (smart_cache second)
       = api_manager.consecutive_quiet_cycles (smart_cache first) + 1).
Proof.
  intros Hup Hnd Hall. cbn zeta.
  pose proof (monitor_cycle_idle _ default_chat_id _ w Hall) as Hcycle.
  destruct (monitored_accounts w) as [|kd l] eqn:Hw.
  { rewrite !Hcycle. rewrite Hw. by split_and!. }
  rewrite Hcycle. clear Hcycle. rewrite <- Hw in *. cbn zeta.
  set (by_id := index_by_id all_accounts).
  destruct (settle_pass by_id (monitored_accounts w) [] 0 w eq_refl Hnd)
    as (l1 & Hset1 & Hst1). cbn [app] in Hst1.
  destruct (settled_ids _ _ _ Hset1) as [Hids1 Hstat1].
  set (r1 := reconcile by_id w) in *.
  assert (monitored_accounts r1.2 = l1) as Hr1 by exact Hst1.
  set (a1 := api_manager.adjust_ttl r1.1 (smart_cache r1.2) (request_stats r1.2)).
  set (first := set_smart_cache a1.1 a1.2 r1.2).
  assert (monitored_accounts first = l1) as Hf1 by exact Hr1.
  assert (∀ a, a ∈ all_accounts → admissible default_group_name a →
               tracked_id (monitored_accounts first) (record_id a)) as Hall1.
  { intros a Hin Ha. apply tracked_id_ids. rewrite Hf1, Hids1.
    apply tracked_id_ids. by apply Hall. }
  rewrite (monitor_cycle_idle _ _ _ first Hall1). fold by_id.
  assert (l1 ≠ []) as Hne1.
  { intros ->. apply Forall2_length in Hset1. rewrite Hw in Hset1. done. }
  destruct (monitored_accounts first) as [|kd1 l1'] eqn:Hf1'; [by subst l1|].
  rewrite <- Hf1' in *. cbn zeta. clear Hf1'.
  assert (NoDup (tracked_ids (monitored_accounts first))) as Hnd1
    by (rewrite Hf1, Hids1; exact Hnd).
  destruct (settle_pass by_id (monitored_accounts first) [] 0 first eq_refl Hnd1)
    as (l2 & Hset2 & Hst2). cbn [app] in Hst2.
  set (r2 := reconcile by_id first) in *.
  assert (Forall (λ kd, quiet_entry by_id kd.2) (monitored_accounts first)) as Hquiet.
  { rewrite Hf1. clear -Hset1 Hup env. induction Hset1 as [|? ? ? ? [_ Hs] _ IH]; constructor.
    - by eapply settled_quiet.
    - exact IH. }
  assert (r2.1 = 0 ∧ outbox r2.2 = outbox first ∧ taken_queue r2.2 = taken_queue first)
    as (Hc2 & Ho2 & Ht2)
    by exact (quiet_pass by_id (monitored_accounts first) (0, first) Hquiet).
  split_and!.
  - rewrite Hf1. exact Hstat1.
  - exact Ho2.
  - exact Ht2.
  - cbn [set_smart_cache monitored_accounts].
    change (monitored_accounts r2.2) with
      (monitored_accounts (foldl (check_step by_id) (0, first) (monitored_accounts first)).2).
    rewrite Hst2. rewrite Hf1 in Hset2 |- *.
    clear -Hset1 Hset2 Hup env. revert l2 Hset2.
    induction Hset1 as [|[k d] [k1 d1] l l1 [_ Hs] _ IH]; intros l2 Hset2.
    + by inversion Hset2.
    + inversion Hset2 as [|? [k2 d2] ? l2' [_ Hs2] Hrest]; subst.
      rewrite !fmap_cons. cbn [snd] in *.
      rewrite (settled_again _ _ _ _ Hup Hs Hs2). f_equal. by apply IH.
  - intros _. cbn [set_smart_cache smart_cache].
    assert (smart_cache r2.2 = smart_cache first) as Hcache
      by exact (proj1 (frame_pass by_id (monitored_accounts first) (0, first))).
    rewrite Hc2, Hcache.
    destruct (adjust_ttl_quiet 0 (smart_cache first) (request_stats r2.2)) as (Hq & _);
      [lia|]. exact Hq.
Qed.

End ReconcileFurther.

(** The entry of account 7 has no chat: when the account shows AMOUNT
    TAKEN the change is counted and nothing is sent. *)
Lemma check_step_notifies_changes_only_witness :
  let st' := core.check_step (builtins := py.ascii_builtins) (env := examples.env)
               (core.index_by_id [examples.taken1500])
               (0, core.save_monitored_accounts [("7_a@x.com", examples.silent7)]
                     examples.world0)
               ("7_a@x.com", examples.silent7) in
  st'.1 = 1 ∧ core.outbox st'.2 = [].
Proof.
  cbn zeta.
  destruct (check_step_notifies_changes_only (builtins := py.ascii_builtins)
              (env := examples.env) (core.index_by_id [examples.taken1500])
              "7_a@x.com" examples.silent7 0
              (core.save_monitored_accounts [("7_a@x.com", examples.silent7)]
                 examples.world0)) as (_ & _ & Hzero & _).
  split; [vm_compute; reflexivity|]. apply Hzero. reflexivity.
Defined.

Lemma ascii_upper_char_idem c :
  py.ascii_upper_char (py.ascii_upper_char c) = py.ascii_upper_char c.
Proof. destruct c as [[] [] [] [] [] [] [] []]; reflexivity. Qed.

Lemma ascii_upper_idem s : py.ascii_upper (py.ascii_upper s) = py.ascii_upper s.
Proof.
  induction s as [|c s IH]; [done|]. simpl. by rewrite ascii_upper_char_idem, IH.
Qed.

(** Account 7, tracked as AVAILABLE, shows AMOUNT TAKEN: the first cycle
    sends one message, the second cycle on the same batch sends none. *)
Lemma settled_cycle_is_quiet_witness :
  let first := core.monitor_cycle (builtins := py.ascii_builtins) (env := examples.env)
                 "G" None [examples.taken1500] examples.world7 in
  let second := core.monitor_cycle (builtins := py.ascii_builtins) (env := examples.env)
                  "G" None [examples.taken1500] first in
  length (core.outbox first) = 1%nat ∧ core.outbox second = core.outbox first.
Proof.
  cbn zeta.
  destruct (settled_cycle_is_quiet (builtins := py.ascii_builtins) (env := examples.env)
              "G" None [examples.taken1500] examples.world7) as (_ & Hout & _).
  - exact ascii_upper_idem.
  - apply NoDup_singleton.
  - intros a Hin (_ & Hst & _). apply list_elem_of_singleton in Hin. subst a.
    vm_compute in Hst. discriminate.
  - split; [vm_compute; reflexivity|exact Hout].
Defined.

(** ** The watch session, continued: the initial search *)

Section InitialSearch.
Import py config stats logging core.
Context {builtins : Builtins} {env : Environment}.





End InitialSearch.


(** ** The worker of the extraction queue *)

Section TakenWorker.
Import py taken sheets_taken.
Context {builtins : Builtins} {methods : StrMethods} {sheets : Sheets}.

Lemma clear_taken_entry_filter account_id (items : list TakenItem) :
  (taken.clear_taken_entry account_id items).1
  = filter (λ item, id item ≠ account_id) items.
Proof.
  unfold taken.clear_taken_entry.
  destruct (Nat.ltb_spec (length (filter (λ item, id item ≠ account_id) items))
              (length items)) as [Hlt|Hge]; simpl; [done|].
  symmetry. induction items as [|x l IH]; [done|].
  destruct (decide (id x ≠ account_id)).
  - rewrite filter_cons_True in * by done. simpl in Hge. f_equal. apply IH. lia.
  - rewrite filter_cons_False in Hge by done. simpl in Hge.
    pose proof (length_filter (λ item, id item ≠ account_id) l). lia.
Qed.

(** The row that the scan returns is the first that matches, counted from
    [idx]; the scan returns none when no row matches. *)
Lemma scan_rows_first wanted : ∀ values idx,
  match scan_rows wanted idx values with
  | Some r =>
      ∃ before cells cell after,
        values = before ++ (cell :: cells) :: after
        ∧ r = (idx + length before)%nat
        ∧ str_strip (py_str cell) = wanted
        ∧ Forall (λ cs, match cs with
                        | c :: _ => str_strip (py_str c) ≠ wanted
                        | [] => True
                        end) before
  | None =>
      Forall (λ cs, match cs with
                    | c :: _ => str_strip (py_str c) ≠ wanted
                    | [] => True
                    end) values
  end.
Proof.
  induction values as [|cells rest IH]; intros idx; cbn [scan_rows]; [constructor|].
  destruct cells as [|cell cells].
  - specialize (IH (S idx)). destruct (scan_rows wanted (S idx) rest) as [r|].
    + destruct IH as (before & cs & c & after & -> & -> & Hc & Hb).
      exists ([] :: before), cs, c, after. split_and!; [done|simpl; lia|done|].
      by constructor.
    + by constructor.
  - case_bool_decide as Hm.
    + exists [], cells, cell, rest. split_and!; [done|simpl; lia|done|constructor].
    + specialize (IH (S idx)). destruct (scan_rows wanted (S idx) rest) as [r|].
      * destruct IH as (before & cs & c & after & -> & -> & Hc & Hb).
        exists ((cell :: cells) :: before), cs, c, after.
        split_and!; [done|simpl; lia|done|]. by constructor.
      * by constructor.
Qed.

Lemma find_row_by_id_effect account_id d :
  let found := find_row_by_id account_id d in
  queue found.2 = queue d ∧ written found.2 = written d
  ∧ requests found.2 = S (requests d)
  ∧ (∀ values, get_column_z (requests d) = Some values →
       found.1 = scan_rows (str_strip account_id) 1 values)
  ∧ ∀ r, found.1 = Some r →
      r ≠ 0%nat
      ∧ ∃ values, get_column_z (requests d) = Some values
          ∧ first_row_of account_id values r.
Proof.
  cbn zeta. unfold find_row_by_id.
  destruct (get_column_z (requests d)) as [[|cells rest]|] eqn:Ez; simpl;
    split_and!; try done; try (by intros ? [= <-]).
  intros r Hr. set (values := cells :: rest) in *.
  pose proof (scan_rows_first (str_strip account_id) values 1) as Hscan.
  change (match cells with
          | [] => scan_rows (str_strip account_id) 2 rest
          | cell :: _ =>
              if bool_decide (str_strip (py_str cell) = str_strip account_id)
              then Some 1%nat else scan_rows (str_strip account_id) 2 rest
          end) with (scan_rows (str_strip account_id) 1 values) in Hr |- *.
  rewrite Hr in Hscan. destruct Hscan as (before & cs & c & after & Hv & -> & Hc & Hb).
  split; [lia|]. exists values. split; [done|].
  exists before, cs, c, after. done.
Qed.

(** What the turn does with one item: it clears the identifier from the
    queue, and it writes one cell or none. *)
Lemma process_item_effect a b d item :
  let d' := process_item a b d item in
  queue d' = filter (λ x, id x ≠ id item) (queue d)
  ∧ (requests d ≤ requests d')%nat
  ∧ ((written d' = written d
      ∧ ∀ values, get_column_z (requests d) = Some values →
          update_succeeds (S (requests d)) = true →
          update_for a b values item = None)
     ∨ ∃ u values,
         written d' = written d ++ [u]
         ∧ requests d' = S (S (requests d))
         ∧ check_id_in_history (id item) = true
         ∧ target_of a b (status item) = Some (column u)
         ∧ value u = convert_coins_to_thousands (taken item)
         ∧ get_column_z (requests d) = Some values
         ∧ first_row_of (id item) values (row u)
         ∧ update_succeeds (S (requests d)) = true
         ∧ update_for a b values item = Some u).
Proof.
  cbn zeta. unfold process_item, update_for.
  destruct (check_id_in_history (id item)) eqn:Eh; simpl.
  2:{ rewrite clear_taken_entry_filter. split_and!; [done|done|by left]. }
  pose proof (find_row_by_id_effect (id item) d) as (Hq & Hw & Hn & Hscan & Hrow).
  cbn zeta in *.
  destruct (find_row_by_id (id item) d) as [[r|] d1]; simpl in *.
  2:{ rewrite clear_taken_entry_filter, Hq, Hw, Hn. split_and!; [done|lia|left].
      split; [done|]. intros values Hz _. by rewrite <- (Hscan values Hz). }
  destruct (Hrow r eq_refl) as (Hr0 & values & Hz & Hfirst).
  destruct (Nat.eqb_spec r 0) as [?|_]; [done|].
  unfold target_of.
  destruct (bool_decide (upper (status item) = "AMOUNT_TAKEN")) eqn:Ea;
    [|destruct (bool_decide (upper (status item) = "DISABLED")) eqn:Ed].
  3:{ simpl. rewrite clear_taken_entry_filter, Hq, Hw, Hn.
      split_and!; [done|lia|left]. split; [done|]. intros values' Hz' _.
      by rewrite <- (Hscan values' Hz'). }
  all: unfold update_sheet_cell; rewrite Hn;
    destruct (update_succeeds (S (requests d))) eqn:Eu; simpl;
    rewrite clear_taken_entry_filter, Hq, Hw, ?Hn;
    (split_and!; [done|lia|]); [right|by left].
  all: eexists _, values; split_and!; try done; simpl.
  all: by rewrite <- (Hscan values Hz).
Qed.

(** The loop over the items: every identifier met is cleared from the
    queue, and the cells written are at most one per item, in order. *)
Lemma process_items_effect a b items : ∀ d,
  let d' := foldl (process_item a b) d items in
  queue d' = filter (λ x, id x ∉ ids items) (queue d)
  ∧ (requests d ≤ requests d')%nat
  ∧ ∃ new, written d' = written d ++ new
      ∧ (length new ≤ length items)%nat
      ∧ (∀ u, u ∈ new →
           ∃ item n values, item ∈ items
             ∧ check_id_in_history (id item) = true
             ∧ target_of a b (status item) = Some (column u)
             ∧ value u = convert_coins_to_thousands (taken item)
             ∧ (requests d ≤ n)%nat ∧ (S n < requests d')%nat
             ∧ get_column_z n = Some values
             ∧ first_row_of (id item) values (row u)
             ∧ update_succeeds (S n) = true)
      ∧ (∀ values, (∀ n, get_column_z n = Some values) →
           (∀ n, update_succeeds n = true) →
           new = omap (update_for a b values) items).
Proof.
  induction items as [|item rest IH]; intros d; cbn zeta.
  { simpl. split_and!; [|done|].
    - symmetry. apply filter_keep_all. apply Forall_forall. intros x _ Hin.
      by apply elem_of_nil in Hin.
    - exists []. split_and!; [by rewrite app_nil_r|done| |done].
      intros u Hu. by apply elem_of_nil in Hu. }
  cbn [foldl].
  destruct (process_item_effect a b d item) as (Hq1 & Hn1 & Hw1). cbn zeta in *.
  destruct (IH (process_item a b d item)) as (Hq & Hn & new & Hw & Hlen & Hsound & Hexact).
  cbn zeta in *. split_and!.
  - rewrite Hq, Hq1, list_filter_filter. apply list_filter_iff. intros x.
    unfold ids. cbn [map]. rewrite not_elem_of_cons. tauto.
  - lia.
  - destruct Hw1 as [[Hw1 Hnone]|(u & values & Hw1 & Hn2 & Hh & Ht & Hv & Hz & Hf & Hu & Hfor)].
    + exists new. split_and!; [by rewrite Hw, Hw1|simpl; lia| |].
      * intros u Hu. destruct (Hsound u Hu)
          as (it & n & values & Hin & ? & ? & ? & ? & ? & ? & ? & ?).
        exists it, n, values. split_and!; try done; [by right|lia].
      * intros values Hz Hu.
        change (omap (update_for a b values) (item :: rest))
          with (match update_for a b values item with
                | Some u => u :: omap (update_for a b values) rest
                | None => omap (update_for a b values) rest
                end).
        rewrite (Hnone values (Hz _) (Hu _)). by apply Hexact.
    + exists (u :: new). split_and!.
      * rewrite Hw, Hw1. by rewrite <- app_assoc.
      * simpl. lia.
      * intros u' [->|Hu']%elem_of_cons.
        -- exists item, (requests d), values. split_and!; try done; [by left|lia].
        -- destruct (Hsound u' Hu')
             as (it & n & values' & Hin & ? & ? & ? & ? & ? & ? & ? & ?).
           exists it, n, values'. split_and!; try done; [by right|lia].
      * intros values' Hz' Hu'.
        assert (values' = values) as -> by (specialize (Hz' (requests d)); congruence).
        change (omap (update_for a b values) (item :: rest))
          with (match update_for a b values item with
                | Some u => u :: omap (update_for a b values) rest
                | None => omap (update_for a b values) rest
                end).
        rewrite Hfor. f_equal. by apply Hexact.
Qed.

(** X15.  A turn of the worker of the extraction queue empties the queue:
    every item found at the start is cleared, whether its cell was written
    or not, and nothing is retried.  The cells it writes are at most one
    per item: such a cell belongs to an item of the queue whose identifier
    is in the history; its column is that of the upper-cased status of the
    item, [amount_taken_col] for AMOUNT_TAKEN and [disabled_col] for
    DISABLED; its row is the first row of the column Z, as the request of
    that item read it, whose first cell is the identifier once both are
    stripped; its value is the converted amount of the item; and the
    update that followed that request succeeded.  When every read of the
    column Z returns the same rows and every update succeeds, the cells
    written are, in the order of the queue, exactly those of the items
    that are in the history, have such a row and have one of the two
    statuses. *)
Theorem taken_worker_turn_clears (amount_taken_col disabled_col : string) (d : Desk) :
  let d' := taken_worker_turn amount_taken_col disabled_col d in
  queue d' = []
  ∧ ∃ new, written d' = written d ++ new
      ∧ (length new ≤ length (queue d))%nat
      ∧ (∀ u, u ∈ new →
           ∃ item n values, item ∈ queue d
             ∧ check_id_in_history (id item) = true
             ∧ target_of amount_taken_col disabled_col (status item) = Some (column u)
             ∧ value u = convert_coins_to_thousands (taken item)
             ∧ (requests d ≤ n)%nat ∧ (S n < requests d')%nat
             ∧ get_column_z n = Some values
             ∧ first_row_of (id item) values (row u)
             ∧ update_succeeds (S n) = true)
      ∧ (∀ values, (∀ n, get_column_z n = Some values) →
           (∀ n, update_succeeds n = true) →
           new = omap (update_for amount_taken_col disabled_col values) (queue d)).
Proof.
  cbn zeta. unfold taken_worker_turn.
  destruct (process_items_effect amount_taken_col disabled_col (queue d) d)
    as (Hq & _ & new & Hw & Hlen & Hsound & Hexact). cbn zeta in *.
  destruct (queue d) as [|item rest] eqn:Eq.
  { split; [done|]. exists [].
    split_and!; [by rewrite app_nil_r|done| |done].
    intros u Hu. by apply elem_of_nil in Hu. }
  split.
  - rewrite Hq. apply filter_drop_all. apply Forall_forall. intros x Hx Hout.
    apply Hout. unfold ids. apply list_elem_of_fmap. by exists x.
  - exists new. split_and!; done.
Qed.

End TakenWorker.

(** Of the two items queued, the one of account 7 is in the history and
    in the second row of the column Z: the turn writes its amount to the
    cell C2, and leaves the queue empty. *)
Lemma taken_worker_turn_clears_witness :
  let d' := sheets_taken.taken_worker_turn (builtins := py.ascii_builtins)
              (methods := py.ascii_str_methods) (sheets := examples.sheets)
              "C" "F" examples.desk79 in
  sheets_taken.queue d' = []
  ∧ sheets_taken.written d'
    = [{| sheets_taken.column := "C"; sheets_taken.row := 2;
          sheets_taken.value := "1" |}].
Proof.
  cbn zeta.
  destruct (taken_worker_turn_clears (builtins := py.ascii_builtins)
              (methods := py.ascii_str_methods) (sheets := examples.sheets)
              "C" "F" examples.desk79) as (Hq & new & Hw & _ & _ & Hexact).
  split; [exact Hq|]. rewrite Hw.
  rewrite (Hexact [[py.VStr "ID"]; [py.VStr " 7 "]; [py.VStr "7"]]);
    [reflexivity|reflexivity|reflexivity].
Defined.

(** ** From the reconciliation loop to the worker of the extraction queue *)

Section LoopToWorker.
Import py config stats logging core.
Context {builtins : Builtins} {env : Environment}.

(** The item that the [try] block around [float(taken_value)] queues. *)
Lemma taken_effect_queue status e i info w item :
  item ∈ taken_queue (taken_effect status e i info w) →
  item ∉ taken_queue w →
  status ∈ ["AMOUNT TAKEN"; "DISABLED"]
  ∧ float_positive (get info "Taken" "0") = Some true
  ∧ item = {| taken.id := i; taken.email := e;
              taken.status := replace_char " " "_" status;
              taken.taken := get info "Taken" "0";
              taken.added_at := clock (ticks w) |}.
Proof.
  unfold taken_effect. case_bool_decide as Hst; [|done].
  destruct (float_positive (get info "Taken" "0")) as [[|]|]; [|done|done].
  simpl. unfold taken.add_to_taken_queue. simpl.
  intros [Hin|Hin]%elem_of_app Hout.
  - apply list_elem_of_filter in Hin as [_ Hin]. done.
  - apply list_elem_of_singleton in Hin. done.
Qed.

(** X16.  The worker of the extraction queue knows the status of every
    item that the reconciliation loop queues.  An item that a turn of the
    loop over a tracked entry adds to the queue carries the identifier and
    the address of the entry and an amount that [float] finds positive;
    the entry has changed to AMOUNT TAKEN or to DISABLED, and the item
    carries this status with its blank replaced by an underscore, which is
    the text that the worker tests: it writes the column [amount_taken_col]
    for the first and [disabled_col] for the second.  (Upper-casing is
    assumed to leave the two texts of the worker as they are.) *)
Theorem queued_item_has_a_column (accounts_by_id : gmap string AccountInfo)
    (key : string) (data : Tracked) (changes : Z) (w : World)
    (amount_taken_col disabled_col : string) (item : taken.TakenItem) :
  upper "AMOUNT_TAKEN" = "AMOUNT_TAKEN" →
  upper "DISABLED" = "DISABLED" →
  let st' := check_step accounts_by_id (changes, w) (key, data) in
  item ∈ taken_queue st'.2 →
  item ∉ taken_queue w →
  taken.id item = account_id data
  ∧ taken.email item = email data
  ∧ float_positive (taken.taken item) = Some true
  ∧ ((reconciled_status accounts_by_id data = "AMOUNT TAKEN"
      ∧ taken.status item = "AMOUNT_TAKEN"
      ∧ sheets_taken.target_of amount_taken_col disabled_col (taken.status item)
        = Some amount_taken_col)
     ∨ (reconciled_status accounts_by_id data = "DISABLED"
        ∧ taken.status item = "DISABLED"
        ∧ sheets_taken.target_of amount_taken_col disabled_col (taken.status item)
          = Some disabled_col)).
Proof.
  intros Hup1 Hup2. cbn zeta. rewrite check_step_result.
  destruct (in_batch accounts_by_id data) eqn:Hin.
  2:{ destruct (not_in_batch_status _ _ Hin) as [_ Hres].
      by destruct (Hres (changes, w)) as [-> | ->]. }
  destruct (in_batch_status _ _ Hin) as (info & Hs & Hl & Ht & Hr).
  unfold check_result. rewrite Hs, Hl, Ht. cbn [negb fst snd]. rewrite <- Hr.
  case_bool_decide as Hchg; cbn [fst snd].
  2:{ destruct (update_status_effect (account_id data)
                  (reconciled_status accounts_by_id data) w) as (_ & _ & _ & ->).
      done. }
  set (w1 := logger INFO _ w).
  set (w2 := taken_effect _ _ _ _ w1).
  set (w3 := attention_effect _ _ w2).
  set (w4 := update_monitored_account_status _ _ w3).
  destruct (attention_effect_effect (reconciled_status accounts_by_id data)
              (email data) w2) as (_ & _ & _ & _ & Hq3). fold w3 in Hq3.
  destruct (update_status_effect (account_id data)
              (reconciled_status accounts_by_id data) w3) as (_ & _ & _ & Hq4).
  fold w4 in Hq4.
  destruct (send_effect (email data) (account_id data)
              (upper (last_known_status data))
              (reconciled_status accounts_by_id data) (chat_id data) (source data) w4)
    as (_ & _ & _ & Hq5 & _). cbn zeta in Hq5.
  rewrite Hq5, Hq4, Hq3. intros Hitem Hnew.
  apply taken_effect_queue in Hitem as (Hst & Hpos & ->); [|done].
  cbn. split_and!; [done|done|done|].
  unfold sheets_taken.target_of.
  apply elem_of_cons in Hst as [Hst|Hst];
    [|apply list_elem_of_singleton in Hst]; rewrite Hst.
  - left. split_and!; [done|done|]. cbn. rewrite Hup1.
    by rewrite bool_decide_eq_true_2.
  - right. split_and!; [done|done|]. cbn. rewrite Hup2.
    rewrite bool_decide_eq_false_2 by done. by rewrite bool_decide_eq_true_2.
Qed.

End LoopToWorker.

(** Account 7, tracked as AVAILABLE, shows AMOUNT TAKEN with 1500 coins:
    the item queued is written to the column C. *)
Lemma queued_item_has_a_column_witness :
  let st' := core.check_step (builtins := py.ascii_builtins) (env := examples.env)
               (core.index_by_id [examples.taken1500]) (0, examples.world7)
               ("7_a@x.com", examples.tracked7) in
  ∃ item, core.taken_queue st'.2 = [item]
    ∧ sheets_taken.target_of (builtins := py.ascii_builtins) "C" "F" (taken.status item)
      = Some "C".
Proof.
  cbn zeta.
  set (item := {| taken.id := "7"; taken.email := "a@x.com";
                  taken.status := "AMOUNT_TAKEN"; taken.taken := "1500";
                  taken.added_at := 0 |}).
  exists item. split; [vm_compute; reflexivity|].
  destruct (queued_item_has_a_column (builtins := py.ascii_builtins)
              (env := examples.env) (core.index_by_id [examples.taken1500])
              "7_a@x.com" examples.tracked7 0 examples.world7 "C" "F" item)
    as (_ & _ & _ & [(_ & _ & Hc)|(Hd & _)]).
  - reflexivity.
  - reflexivity.
  - vm_compute. by left.
  - intros Hin. by apply elem_of_nil in Hin.
  - exact Hc.
  - vm_compute in Hd. discriminate.
Defined.

(** ** The queues of addresses and their workers *)

Section SheetWorkers.
Import py sheets_worker.
Context {sheet : Sheet}.

Lemma well_formed_attempts item :
  well_formed item → as_int (get_attempts item) = Some (attempts_of item).
Proof. intros [_ [n Hn]]. unfold attempts_of. by rewrite Hn. Qed.

Lemma emails_of_well_formed batch :
  Forall (λ item : Item, is_Some (item !! "email")) batch →
  emails_of batch = Some (map (λ item : Item, get item "email" VNone) batch).
Proof.
  intros Hall. apply mapM_Some_2.
  induction Hall as [|item rest [e He] _ IH]; [constructor|].
  cbn [map]. constructor; [|done]. unfold get, Item in *. by rewrite He.
Qed.

Lemma emails_of_missing batch :
  ¬ Forall (λ item : Item, is_Some (item !! "email")) batch →
  emails_of batch = None.
Proof.
  intros Hno. apply mapM_None_2. apply not_Forall_Exists in Hno; [|apply _].
  eapply Exists_impl; [exact Hno|]. intros item Hi. cbn in Hi.
  destruct (item !! "email"); [|done]. destruct Hi. by eexists.
Qed.

Lemma clear_batch_all (batch : list Item) :
  clear_batch (map (λ item : Item, get item "email" VNone) batch) batch = [].
Proof.
  unfold clear_batch. apply filter_drop_all. apply Forall_forall.
  intros item Hin Hout. apply Hout. apply list_elem_of_fmap. by exists item.
Qed.

Lemma move_to_retry_effect item q :
  well_formed item →
  move_to_retry item q
  = (true, set_retry (retry q ++ [retried (isoformat (clock (ticks q))) item]) (tick q)).
Proof.
  intros Hw. unfold move_to_retry. rewrite (well_formed_attempts item Hw). simpl.
  destruct Hw as [[e He] _].
  rewrite bool_decide_eq_true_2; [done|].
  unfold Item in *. rewrite !lookup_insert_ne by done. by eexists.
Qed.

Lemma move_to_failed_effect item q :
  is_Some (item !! "email") →
  move_to_failed item q
  = (true, set_failed (failed q ++ [given_up (isoformat (clock (ticks q))) item]) (tick q)).
Proof.
  intros [e He]. unfold move_to_failed. simpl.
  rewrite bool_decide_eq_true_2; [done|].
  unfold Item in *. rewrite lookup_insert_ne by done. by eexists.
Qed.

(** The loop of [pending_worker] over a refused batch of well-formed
    items files each of them once, in order, with one clock reading. *)
Lemma refuse_pending_effect max_retries todo : ∀ q,
  Forall well_formed todo →
  let r := refuse_pending max_retries todo q in
  r.1 = true
  ∧ pending r.2 = pending q ∧ history r.2 = history q
  ∧ appended r.2 = appended q ∧ calls r.2 = calls q
  ∧ ticks r.2 = (ticks q + length todo)%nat
  ∧ retry r.2
    = retry q ++ map (λ si, retried si.1 si.2)
                   (filter (λ si, attempts_of si.2 < max_retries)
                      (stamped (ticks q) todo))
  ∧ failed r.2
    = failed q ++ map (λ si, given_up si.1 si.2)
                    (filter (λ si, ¬ attempts_of si.2 < max_retries)
                       (stamped (ticks q) todo)).
Proof.
  induction todo as [|item rest IH]; intros q Hall; cbn zeta.
  { simpl. rewrite !app_nil_r. split_and!; try done; lia. }
  apply Forall_cons in Hall as [Hw Hrest].
  cbn [refuse_pending stamped]. rewrite (well_formed_attempts item Hw).
  destruct (Z.ltb_spec (attempts_of item) max_retries) as [Hlt|Hge].
  - rewrite (move_to_retry_effect item q Hw).
    destruct (IH (set_retry (retry q ++ [retried (isoformat (clock (ticks q))) item])
                    (tick q)) Hrest) as (H1 & H2 & H3 & H4 & H5 & H6 & H7 & H8).
    cbn zeta in *. simpl in *.
    rewrite filter_cons_True by done. rewrite (filter_cons_False (λ si, ¬ _)) by tauto.
    split_and!; [done|done|done|done|done|lia| |].
    + rewrite H7. cbn. by rewrite <- app_assoc.
    + by rewrite H8.
  - rewrite (move_to_failed_effect item q (proj1 Hw)).
    destruct (IH (set_failed (failed q ++ [given_up (isoformat (clock (ticks q))) item])
                    (tick q)) Hrest) as (H1 & H2 & H3 & H4 & H5 & H6 & H7 & H8).
    cbn zeta in *. simpl in *.
    rewrite filter_cons_False by (simpl; lia).
    rewrite (filter_cons_True (λ si, ¬ _)) by (simpl; lia).
    split_and!; [done|done|done|done|done|lia|by rewrite H7|].
    rewrite H8. cbn. by rewrite <- app_assoc.
Qed.

Lemma add_ids_to_history_effect ids q :
  ids ≠ [] →
  add_ids_to_history ids q
  = set_history (cleanup_old_ids (clock (ticks q)) (history q)
                 ++ map (λ item_id, (py_str item_id, Some (clock (S (ticks q)))))
                      (filter (λ item_id, valid_id item_id = true) ids))
      (tick (tick q)).
Proof. destruct ids; [done|]. done. Qed.

Lemma record_ids_effect batch q :
  pending (record_ids batch q) = pending q ∧ retry (record_ids batch q) = retry q
  ∧ failed (record_ids batch q) = failed q
  ∧ appended (record_ids batch q) = appended q
  ∧ calls (record_ids batch q) = calls q
  ∧ history (record_ids batch q)
    = recorded (clock (ticks q)) (clock (S (ticks q))) batch (history q).
Proof.
  unfold record_ids, recorded.
  destruct (ids_to_record batch) as [|i ids] eqn:E; [done|].
  rewrite add_ids_to_history_effect by done. done.
Qed.

Lemma append_emails_effect (batch : list Item) q :
  let run := append_emails
               (map (λ item : Item, (get item "email" VNone, get item "id" (VStr "")))
                  batch) q in
  run.1 = append_succeeds (calls q)
  ∧ pending run.2 = pending q ∧ retry run.2 = retry q ∧ failed run.2 = failed q
  ∧ history run.2 = history q ∧ ticks run.2 = ticks q
  ∧ calls run.2 = S (calls q)
  ∧ appended run.2
    = if append_succeeds (calls q) then appended q ++ map sheet_row batch
      else appended q.
Proof.
  cbn zeta. unfold append_emails.
  destruct (append_succeeds (calls q)); simpl; split_and!; try done.
  f_equal. rewrite map_map. by apply map_ext.
Qed.

(** What a turn of [pending_worker] does to the queues. *)
Lemma pending_turn_effect (max_retries : Z) (q : Queues) :
  let batch := pending q in
  let run := pending_worker_turn max_retries q in
  (Forall well_formed batch →
     run.1 = true ∧ pending run.2 = []
     ∧ (batch = [] → run.2 = q)
     ∧ (batch ≠ [] →
          calls run.2 = S (calls q)
          ∧ if append_succeeds (calls q) then
              appended run.2 = appended q ++ map sheet_row batch
              ∧ history run.2
                = recorded (clock (ticks q)) (clock (S (ticks q))) batch (history q)
              ∧ retry run.2 = retry q ∧ failed run.2 = failed q
            else
              appended run.2 = appended q ∧ history run.2 = history q
              ∧ retry run.2
                = retry q ++ map (λ si, retried si.1 si.2)
                               (filter (λ si, attempts_of si.2 < max_retries)
                                  (stamped (ticks q) batch))
              ∧ failed run.2
                = failed q ++ map (λ si, given_up si.1 si.2)
                                (filter (λ si, ¬ attempts_of si.2 < max_retries)
                                   (stamped (ticks q) batch))))
  ∧ (¬ Forall (λ item : Item, is_Some (item !! "email")) batch → run = (false, q)).
Proof.
  cbn zeta. split.
  - intros Hall. unfold pending_worker_turn.
    destruct (pending q) as [|item rest] eqn:Eb.
    { split_and!; done. }
    rewrite <- Eb in *.
    assert (pending q ≠ []) as Hne by (rewrite Eb; done).
    rewrite emails_of_well_formed
      by (eapply Forall_impl; [exact Hall|]; by intros ? [? _]).
    pose proof (append_emails_effect (pending q) q)
      as (Hok & Hp & Hr & Hf & Hh & Ht & Hc & Ha). cbn zeta in *.
    destruct (append_emails _ q) as [ok q1]. simpl in *. subst ok.
    destruct (append_succeeds (calls q)) eqn:Eok.
    + destruct (record_ids_effect (pending q) q1) as (Hp2 & Hr2 & Hf2 & Ha2 & Hc2 & Hh2).
      simpl. rewrite Hp2, Hp, clear_batch_all.
      split_and!; [done|done|done|]. intros _.
      rewrite Hc2, Hc, Ha2, Ha, Hh2, Ht, Hh, Hr2, Hr, Hf2, Hf. done.
    + assert (ticks q1 = ticks q) as Ht' by done.
      destruct (refuse_pending_effect max_retries (pending q) q1 Hall)
        as (H1 & H2 & H3 & H4 & H5 & H6 & H7 & H8). cbn zeta in *.
      destruct (refuse_pending max_retries (pending q) q1) as [ok q2].
      simpl in *. subst ok. simpl. rewrite H2, Hp, clear_batch_all.
      split_and!; [done|done|done|]. intros _.
      rewrite H5, Hc, H4, Ha, H3, Hh, H7, H8, Hr, Hf, Ht'. done.
  - intros Hno. unfold pending_worker_turn.
    destruct (pending q) as [|item rest] eqn:Eb.
    { destruct Hno. constructor. }
    by rewrite emails_of_missing.
Qed.

(** X17.  One turn of [pending_worker] on a queue of well-formed items
    (each with an address and, if any, an integer count of attempts) ends
    without exception and leaves [pending.json] empty, after one call of
    [append_emails] on the whole batch.  When the call succeeds, one row
    per item is written, in order, with the address and the identifier if
    it is a valid one, the valid identifiers are recorded in the history
    after its entries older than seven days were dropped, and the other
    queues are untouched.  When it fails, nothing is written or recorded,
    and each item is filed once, in order, with the date of its own clock
    reading: in [retry.json] with one more attempt when its attempts are
    below [max_retries], in [failed.json] otherwise.  When an item has no
    address, the turn ends in its exception handler with nothing
    changed. *)
Theorem pending_worker_turn_files (max_retries : Z) (q : Queues) :
  let batch := pending q in
  let run := pending_worker_turn max_retries q in
  (Forall well_formed batch →
     run.1 = true ∧ pending run.2 = []
     ∧ (batch = [] → run.2 = q)
     ∧ (batch ≠ [] →
          calls run.2 = S (calls q)
          ∧ if append_succeeds (calls q) then
              appended run.2 = appended q ++ map sheet_row batch
              ∧ history run.2
                = recorded (clock (ticks q)) (clock (S (ticks q))) batch (history q)
              ∧ retry run.2 = retry q ∧ failed run.2 = failed q
            else
              appended run.2 = appended q ∧ history run.2 = history q
              ∧ retry run.2
                = retry q ++ map (λ si, retried si.1 si.2)
                               (filter (λ si, attempts_of si.2 < max_retries)
                                  (stamped (ticks q) batch))
              ∧ failed run.2
                = failed q ++ map (λ si, given_up si.1 si.2)
                                (filter (λ si, ¬ attempts_of si.2 < max_retries)
                                   (stamped (ticks q) batch))))
  ∧ (¬ Forall (λ item : Item, is_Some (item !! "email")) batch → run = (false, q)).
Proof. exact (pending_turn_effect max_retries q). Qed.

Lemma bumped_well_formed item :
  well_formed item →
  well_formed (bumped item) ∧ attempts_of (bumped item) = attempts_of item + 1
  ∧ get (bumped item) "email" VNone = get item "email" VNone.
Proof.
  intros [[e He] Ha]. unfold well_formed, bumped, attempts_of, get_attempts, get.
  unfold Item in *. rewrite lookup_insert_ne by done. rewrite lookup_insert_eq.
  rewrite He. simpl. split_and!; [by eexists|by eexists|done|done].
Qed.

Lemma given_up_email stamp item :
  get (given_up stamp item) "email" VNone = get item "email" VNone.
Proof. unfold given_up, get. unfold Item in *. by rewrite lookup_insert_ne. Qed.

Lemma stamped_items base : ∀ items, map snd (stamped base items) = items.
Proof.
  intros items. revert base. induction items as [|item rest IH]; intros base; [done|].
  cbn. by rewrite IH.
Qed.

(** The loop of [retry_worker] over a refused batch of well-formed items
    counts one more attempt for each, keeps those still below
    [max_retries] and files the others as failed. *)
Lemma refuse_retry_effect max_retries todo : ∀ updated q,
  Forall well_formed todo →
  let r := refuse_retry max_retries todo updated q in
  r.1.1 = true
  ∧ r.1.2 = updated ++ map bumped
                         (filter (λ item, attempts_of item + 1 < max_retries) todo)
  ∧ pending r.2 = pending q ∧ retry r.2 = retry q ∧ history r.2 = history q
  ∧ appended r.2 = appended q ∧ calls r.2 = calls q
  ∧ failed r.2
    = failed q ++ map (λ si, given_up si.1 (bumped si.2))
                    (stamped (ticks q)
                       (filter (λ item, ¬ attempts_of item + 1 < max_retries) todo)).
Proof.
  induction todo as [|item rest IH]; intros updated q Hall; cbn zeta.
  { simpl. rewrite !app_nil_r. split_and!; done. }
  apply Forall_cons in Hall as [Hw Hrest].
  cbn [refuse_retry]. rewrite (well_formed_attempts item Hw).
  fold (bumped item).
  destruct (Z.ltb_spec (attempts_of item + 1) max_retries) as [Hlt|Hge].
  - destruct (IH (updated ++ [bumped item]) q Hrest)
      as (H1 & H2 & H3 & H4 & H5 & H6 & H7 & H8). cbn zeta in *.
    rewrite filter_cons_True by done. rewrite (filter_cons_False (λ si, ¬ _)) by tauto.
    split_and!; try done. rewrite H2. cbn. by rewrite <- app_assoc.
  - destruct (bumped_well_formed item Hw) as [[Hemail _] _].
    rewrite (move_to_failed_effect (bumped item) q Hemail).
    destruct (IH updated
                (set_failed (failed q ++ [given_up (isoformat (clock (ticks q)))
                                            (bumped item)]) (tick q)) Hrest)
      as (H1 & H2 & H3 & H4 & H5 & H6 & H7 & H8). cbn zeta in *. simpl in *.
    rewrite filter_cons_False by lia. rewrite (filter_cons_True (λ si, ¬ _)) by lia.
    split_and!; try done. rewrite H8. cbn. by rewrite <- app_assoc.
Qed.

(** What a turn of [retry_worker] does to the queues. *)
Lemma retry_turn_effect (max_retries : Z) (q : Queues) :
  let batch := retry q in
  let run := retry_worker_turn max_retries q in
  (Forall well_formed batch →
     run.1 = true ∧ pending run.2 = pending q
     ∧ (batch = [] → run.2 = q)
     ∧ (batch ≠ [] →
          calls run.2 = S (calls q)
          ∧ if append_succeeds (calls q) then
              appended run.2 = appended q ++ map sheet_row batch
              ∧ history run.2
                = recorded (clock (ticks q)) (clock (S (ticks q))) batch (history q)
              ∧ retry run.2 = [] ∧ failed run.2 = failed q
            else
              appended run.2 = appended q ∧ history run.2 = history q
              ∧ retry run.2
                = map bumped
                    (filter (λ item, attempts_of item + 1 < max_retries) batch)
              ∧ failed run.2
                = failed q ++ map (λ si, given_up si.1 (bumped si.2))
                                (stamped (ticks q)
                                   (filter (λ item, ¬ attempts_of item + 1 < max_retries)
                                      batch))))
  ∧ (¬ Forall (λ item : Item, is_Some (item !! "email")) batch → run = (false, q)).
Proof.
  cbn zeta. split.
  - intros Hall. unfold retry_worker_turn.
    destruct (retry q) as [|item rest] eqn:Eb.
    { split_and!; done. }
    rewrite <- Eb in *.
    assert (retry q ≠ []) as Hne by (rewrite Eb; done).
    rewrite emails_of_well_formed
      by (eapply Forall_impl; [exact Hall|]; by intros ? [? _]).
    pose proof (append_emails_effect (retry q) q)
      as (Hok & Hp & Hr & Hf & Hh & Ht & Hc & Ha). cbn zeta in *.
    destruct (append_emails _ q) as [ok q1]. simpl in *. subst ok.
    destruct (append_succeeds (calls q)) eqn:Eok.
    + destruct (record_ids_effect (retry q) q1) as (Hp2 & Hr2 & Hf2 & Ha2 & Hc2 & Hh2).
      simpl. rewrite Hr2, Hr, clear_batch_all.
      split_and!; [done|by rewrite Hp2|done|]. intros _.
      rewrite Hc2, Hc, Ha2, Ha, Hh2, Ht, Hh, Hf2, Hf. done.
    + assert (ticks q1 = ticks q) as Ht' by done.
      destruct (refuse_retry_effect max_retries (retry q) [] q1 Hall)
        as (H1 & H2 & H3 & H4 & H5 & H6 & H7 & H8). cbn zeta in *.
      destruct (refuse_retry max_retries (retry q) [] q1) as [[ok updated] q2].
      simpl in *. subst ok updated. simpl.
      split_and!; [done|by rewrite H3|done|]. intros _.
      rewrite H7, Hc, H6, Ha, H5, Hh, H8, Hf, Ht'. done.
  - intros Hno. unfold retry_worker_turn.
    destruct (retry q) as [|item rest] eqn:Eb.
    { destruct Hno. constructor. }
    by rewrite emails_of_missing.
Qed.

(** X18.  One turn of [retry_worker] on a queue of well-formed items ends
    without exception after one call of [append_emails] on the whole batch,
    and does not touch [pending.json].  When the call succeeds, one row
    per item is written, the valid identifiers are recorded in the
    history, [retry.json] is left empty and [failed.json] untouched.  When
    it fails, nothing is written or recorded and every item counts one
    more attempt: the items whose count is still below [max_retries] are
    what [retry.json] then holds, in order, and the others are filed in
    [failed.json], in order, each with the date of its own clock reading.
    When an item has no address, the turn ends in its exception handler
    with nothing changed. *)
Theorem retry_worker_turn_files (max_retries : Z) (q : Queues) :
  let batch := retry q in
  let run := retry_worker_turn max_retries q in
  (Forall well_formed batch →
     run.1 = true ∧ pending run.2 = pending q
     ∧ (batch = [] → run.2 = q)
     ∧ (batch ≠ [] →
          calls run.2 = S (calls q)
          ∧ if append_succeeds (calls q) then
              appended run.2 = appended q ++ map sheet_row batch
              ∧ history run.2
                = recorded (clock (ticks q)) (clock (S (ticks q))) batch (history q)
              ∧ retry run.2 = [] ∧ failed run.2 = failed q
            else
              appended run.2 = appended q ∧ history run.2 = history q
              ∧ retry run.2
                = map bumped
                    (filter (λ item, attempts_of item + 1 < max_retries) batch)
              ∧ failed run.2
                = failed q ++ map (λ si, given_up si.1 (bumped si.2))
                                (stamped (ticks q)
                                   (filter (λ item, ¬ attempts_of item + 1 < max_retries)
                                      batch))))
  ∧ (¬ Forall (λ item : Item, is_Some (item !! "email")) batch → run = (false, q)).
Proof. exact (retry_turn_effect max_retries q). Qed.

(** The addresses of the items of a queue. *)
Local Abbreviation addresses l := (map (λ item : Item, get item "email" VNone) l).

(** A refused turn of [retry_worker] on well-formed items loses and
    duplicates no address, and leaves items that are well formed, count
    one more attempt and are below [max_retries]. *)
Lemma refused_turn_keeps max_retries q (k : Z) :
  (∀ n, append_succeeds n = false) →
  Forall well_formed (retry q) →
  Forall (λ item, k ≤ attempts_of item) (retry q) →
  let q' := (retry_worker_turn max_retries q).2 in
  Forall well_formed (retry q')
  ∧ Forall (λ item, k + 1 ≤ attempts_of item) (retry q')
  ∧ (retry q ≠ [] → Forall (λ item, attempts_of item < max_retries) (retry q'))
  ∧ pending q' = pending q ∧ appended q' = appended q ∧ history q' = history q
  ∧ addresses (failed q') ++ addresses (retry q')
    ≡ₚ addresses (failed q) ++ addresses (retry q).
Proof.
  intros Hfail Hall Hk. cbn zeta.
  destruct (retry_turn_effect max_retries q) as [Hturn _]. cbn zeta in Hturn.
  destruct (Hturn Hall) as (_ & Hp & Hempty & Hrun).
  destruct (decide (retry q = [])) as [E|Hne].
  { rewrite (Hempty E), E. split_and!; try done. }
  destruct (Hrun Hne) as (_ & Hcase). rewrite Hfail in Hcase.
  destruct Hcase as (Ha & Hh & Hr & Hf).
  assert (∀ l : list Item, Forall well_formed l →
            addresses (map bumped l) = addresses l) as Hbump.
  { intros l Hl. rewrite map_map. rewrite Forall_forall in Hl.
    induction l as [|x l IH]; [done|]. cbn. f_equal.
    - apply bumped_well_formed. apply Hl. by left.
    - apply IH. intros y Hy. apply Hl. by right. }
  assert (Forall well_formed (filter (λ item, attempts_of item + 1 < max_retries) (retry q))) as HwP.
  { apply Forall_forall. intros x [_ Hx]%list_elem_of_filter.
    by apply (proj1 (Forall_forall _ _) Hall). }
  assert (Forall well_formed (filter (λ item, ¬ attempts_of item + 1 < max_retries) (retry q))) as HwN.
  { apply Forall_forall. intros x [_ Hx]%list_elem_of_filter.
    by apply (proj1 (Forall_forall _ _) Hall). }
  split_and!; try done.
  - rewrite Hr. apply Forall_forall. intros x (y & -> & Hy)%list_elem_of_fmap.
    apply bumped_well_formed. by apply (proj1 (Forall_forall _ _) HwP).
  - rewrite Hr. apply Forall_forall. intros x (y & -> & Hy)%list_elem_of_fmap.
    destruct (bumped_well_formed y) as (_ & -> & _).
    { by apply (proj1 (Forall_forall _ _) HwP). }
    apply list_elem_of_filter in Hy as [_ Hy].
    pose proof (proj1 (Forall_forall _ _) Hk y Hy). simpl in *. lia.
  - intros _. rewrite Hr. apply Forall_forall.
    intros x (y & -> & Hy)%list_elem_of_fmap.
    destruct (bumped_well_formed y) as (_ & -> & _).
    { by apply (proj1 (Forall_forall _ _) HwP). }
    by apply list_elem_of_filter in Hy as [Hy _].
  - rewrite Hf, Hr, map_app, <- app_assoc. apply Permutation_app_head.
    rewrite (Hbump _ HwP).
    assert (addresses (map (λ si : string * Item, given_up si.1 (bumped si.2))
                         (stamped (ticks q) (filter (λ item, ¬ attempts_of item + 1 < max_retries) (retry q))))
            = addresses (filter (λ item, ¬ attempts_of item + 1 < max_retries) (retry q))) as ->.
    { rewrite <- (Hbump _ HwN).
      rewrite <- (stamped_items (ticks q) (filter (λ item, ¬ attempts_of item + 1 < max_retries) (retry q))) at 2.
      rewrite !map_map. apply map_ext. intros [stamp x]. apply given_up_email. }
    rewrite <- map_app. apply Permutation_map.
    rewrite Permutation_app_comm. apply filter_app_complement.
Qed.

Lemma refused_turns_keep max_retries n : ∀ q (k : Z),
  (∀ n, append_succeeds n = false) →
  Forall well_formed (retry q) →
  Forall (λ item, k ≤ attempts_of item) (retry q) →
  (k = 0 ∨ Forall (λ item, attempts_of item < max_retries) (retry q)) →
  let q' := retry_worker_turns max_retries n q in
  Forall (λ item, k + Z.of_nat n ≤ attempts_of item) (retry q')
  ∧ ((n ≠ 0)%nat ∨ k ≠ 0 → Forall (λ item, attempts_of item < max_retries) (retry q'))
  ∧ pending q' = pending q ∧ appended q' = appended q ∧ history q' = history q
  ∧ addresses (failed q') ++ addresses (retry q')
    ≡ₚ addresses (failed q) ++ addresses (retry q).
Proof.
  induction n as [|n IH]; intros q k Hfail Hall Hk Hlt; cbn zeta.
  { simpl. split_and!; try done.
    - eapply Forall_impl; [exact Hk|]. intros x ?. simpl in *. lia.
    - intros [?|Hk0]; [done|]. by destruct Hlt. }
  cbn [retry_worker_turns].
  destruct (refused_turn_keeps max_retries q k Hfail Hall Hk)
    as (Hw1 & Hk1 & Hlt1 & Hp1 & Ha1 & Hh1 & Hperm1). cbn zeta in *.
  assert (Forall (λ item, attempts_of item < max_retries)
            (retry (retry_worker_turn max_retries q).2)) as Hlt1'.
  { destruct (decide (retry q = [])) as [E|Hne]; [|by apply Hlt1].
    destruct (retry_turn_effect max_retries q) as [Hturn _]. cbn zeta in Hturn.
    destruct (Hturn Hall) as (_ & _ & Hempty & _).
    rewrite (Hempty E), E. constructor. }
  destruct (IH (retry_worker_turn max_retries q).2 (k + 1) Hfail Hw1 Hk1)
    as (Hk2 & Hlt2 & Hp2 & Ha2 & Hh2 & Hperm2); [by right|]. cbn zeta in *.
  split_and!.
  - eapply Forall_impl; [exact Hk2|]. intros x ?. simpl in *. lia.
  - intros _. destruct n as [|n]; [exact Hlt1'|]. apply Hlt2. by left.
  - by rewrite Hp2.
  - by rewrite Ha2.
  - by rewrite Hh2.
  - by rewrite Hperm2.
Qed.

(** X19.  An address is not retried for ever.  While every call of
    [append_emails] fails, [max_retries] turns of [retry_worker], or more,
    empty [retry.json]: every item of it, well formed and with a count of
    attempts that is not negative, is then in [failed.json], whose
    addresses are those it had and those of the queue, each once more;
    the turns do not touch [pending.json], the sheet or the history. *)
Theorem retries_are_bounded (max_retries : Z) (n : nat) (q : Queues) :
  (∀ k, append_succeeds k = false) →
  Forall well_formed (retry q) →
  Forall (λ item, 0 ≤ attempts_of item) (retry q) →
  max_retries ≤ Z.of_nat n →
  n ≠ 0%nat →
  let q' := retry_worker_turns max_retries n q in
  retry q' = []
  ∧ addresses (failed q') ≡ₚ addresses (failed q) ++ addresses (retry q)
  ∧ length (failed q') = (length (failed q) + length (retry q))%nat
  ∧ pending q' = pending q ∧ appended q' = appended q ∧ history q' = history q.
Proof.
  intros Hfail Hall H0 Hn Hn0. cbn zeta.
  destruct (refused_turns_keep max_retries n q 0 Hfail Hall H0)
    as (Hk & Hlt & Hp & Ha & Hh & Hperm); [by left|]. cbn zeta in *.
  assert (retry (retry_worker_turns max_retries n q) = []) as Hempty.
  { destruct (retry (retry_worker_turns max_retries n q)) as [|x l]; [done|].
    apply Forall_cons in Hk as [Hk _].
    specialize (Hlt (or_introl Hn0)). apply Forall_cons in Hlt as [Hlt _]. lia. }
  rewrite Hempty in Hperm. simpl in Hperm. rewrite app_nil_r in Hperm.
  split_and!; try done.
  apply Permutation_length in Hperm. by rewrite length_app, !length_map in Hperm.
Qed.

End SheetWorkers.

(** The sheet takes the batch: the address of account 7 is written with
    its identifier, the identifier is recorded, and the queue is empty. *)
Lemma pending_worker_turn_files_witness :
  let run := sheets_worker.pending_worker_turn (sheet := examples.sheet_up)
               50 examples.queues7 in
  sheets_worker.pending run.2 = []
  ∧ sheets_worker.appended run.2 = [(py.VStr "a@x.com", "7")]
  ∧ sheets_worker.history run.2 = [("7", Some 1000000)].
Proof.
  cbn zeta.
  destruct (pending_worker_turn_files (sheet := examples.sheet_up) 50 examples.queues7)
    as [Hturn _]. cbn zeta in Hturn.
  destruct Hturn as (_ & Hp & _ & Hrun).
  { constructor; [|constructor]. split; by eexists. }
  destruct Hrun as (_ & Ha & Hh & _); [discriminate|].
  split; [exact Hp|]. split; [rewrite Ha; reflexivity|rewrite Hh; reflexivity].
Defined.

(** The sheet refuses the batch: with two attempts allowed, the address
    of account 7, which has made one, is filed as failed. *)
Lemma retry_worker_turn_files_witness :
  let run := sheets_worker.retry_worker_turn (sheet := examples.sheet_down)
               2 examples.queues7 in
  sheets_worker.retry run.2 = []
  ∧ length (sheets_worker.failed run.2) = 1%nat.
Proof.
  cbn zeta.
  destruct (retry_worker_turn_files (sheet := examples.sheet_down) 2 examples.queues7)
    as [Hturn _]. cbn zeta in Hturn.
  destruct Hturn as (_ & _ & _ & Hrun).
  { constructor; [|constructor]. split; by eexists. }
  destruct Hrun as (_ & _ & _ & Hr & Hf); [discriminate|].
  split; [rewrite Hr; reflexivity|rewrite Hf; reflexivity].
Defined.

(** With 50 attempts allowed and a sheet that refuses every batch, the
    address of account 7 is in [failed.json] after 50 turns. *)
Lemma retries_are_bounded_witness :
  let q' := sheets_worker.retry_worker_turns (sheet := examples.sheet_down)
              50 50 examples.queues7 in
  sheets_worker.retry q' = [] ∧ length (sheets_worker.failed q') = 1%nat.
Proof.
  cbn zeta.
  destruct (retries_are_bounded (sheet := examples.sheet_down) 50 50 examples.queues7)
    as (Hr & _ & Hl & _).
  - intros k. reflexivity.
  - constructor; [|constructor]. split; by eexists.
  - constructor; [|constructor]. vm_compute. discriminate.
  - reflexivity.
  - discriminate.
  - split; [exact Hr|exact Hl].
Defined.
